(** * SiMon: the simulation monitor (SiMon/simon.py)

    A shallow embedding of the tree builder, the status propagator and the
    auto-scheduler of [class SiMon], with the Python object store made
    explicit: task nodes live in a heap of objects, and the monitor's
    containers ([sim_inst_dict], [sim_inst_parent_dict], [sim_tree], the
    [restarts] lists, the local [schedule_list]) hold references into it. *)

From Stdlib Require Import ZArith Lia Bool List String Ascii.
From stdpp Require Import functions base tactics option list gmap strings sorting.

Local Open Scope Z_scope.
Set Warnings "-register-all".

(** ** Exceptions and the error monad *)

(** The exceptions the modelled code can raise; [NonTermination] stands for
    a [while] loop that revisits a state it has already been in. *)
Inductive exn : Type :=
  | KeyError
  | AttributeError
  | NoSectionError
  | NonTermination.

Inductive result (A : Type) : Type :=
  | Ok (a : A)
  | Raise (e : exn).
Arguments Ok {A} a.
Arguments Raise {A} e.

Global Instance result_ret : MRet result := λ A a, Ok a.
Global Instance result_bind : MBind result := λ A B f r,
  match r with
  | Ok a => f a
  | Raise e => Raise e
  end.

Definition from_option {A} (e : exn) (o : option A) : result A :=
  match o with
  | Some a => Ok a
  | None => Raise e
  end.

(** [for x in xs: body], threading the loop state through the monad. *)
Fixpoint for_each {A S : Type} (body : A → S → result S) (xs : list A) (s : S)
  : result S :=
  match xs with
  | [] => Ok s
  | x :: xs' => s' ← body x s; for_each body xs' s'
  end.

(** ** Task nodes *)

(** References to Python objects. *)
Definition loc := nat.

Inductive Status : Type :=
  | STATUS_NEW
  | STATUS_STOP
  | STATUS_RUN
  | STATUS_STALL
  | STATUS_ERROR
  | STATUS_DONE.

Global Instance Status_eq_dec : EqDecision Status.
Proof. solve_decision. Defined.

(** Modelled from the spec: class [SimulationTask] of [module_common], which
    is imported by simon.py but whose file is not part of the sources.  The
    attributes are the ones simon.py reads and writes; the constructor
    defaults follow the data model of the specification (root level 0, no
    parent: -1, no restart candidate: -1). *)
Module SimulationTask.

Record obj : Type := mk {
  id : Z;
  name : string;
  fulldir : string;
  status : Status;
  t : Z;
  t_max_extended : Z;
  cid : Z;
  level : Z;
  parent_id : Z;
  niceness : Z;
  restarts : list loc
}.

(** [SimulationTask(sim_id, name, full_dir, status)] *)
Definition init (sim_id : Z) (nm dir : string) (st : Status) : obj :=
  {| id := sim_id; name := nm; fulldir := dir; status := st;
     t := 0; t_max_extended := 0; cid := -1; level := 0; parent_id := -1;
     niceness := 0; restarts := [] |}.

Definition set_id (v : Z) (o : obj) : obj :=
  mk v (name o) (fulldir o) (status o) (t o) (t_max_extended o) (cid o)
     (level o) (parent_id o) (niceness o) (restarts o).
Definition set_name (v : string) (o : obj) : obj :=
  mk (id o) v (fulldir o) (status o) (t o) (t_max_extended o) (cid o)
     (level o) (parent_id o) (niceness o) (restarts o).
Definition set_fulldir (v : string) (o : obj) : obj :=
  mk (id o) (name o) v (status o) (t o) (t_max_extended o) (cid o)
     (level o) (parent_id o) (niceness o) (restarts o).
Definition set_status (v : Status) (o : obj) : obj :=
  mk (id o) (name o) (fulldir o) v (t o) (t_max_extended o) (cid o)
     (level o) (parent_id o) (niceness o) (restarts o).
Definition set_t (v : Z) (o : obj) : obj :=
  mk (id o) (name o) (fulldir o) (status o) v (t_max_extended o) (cid o)
     (level o) (parent_id o) (niceness o) (restarts o).
Definition set_t_max_extended (v : Z) (o : obj) : obj :=
  mk (id o) (name o) (fulldir o) (status o) (t o) v (cid o)
     (level o) (parent_id o) (niceness o) (restarts o).
Definition set_cid (v : Z) (o : obj) : obj :=
  mk (id o) (name o) (fulldir o) (status o) (t o) (t_max_extended o) v
     (level o) (parent_id o) (niceness o) (restarts o).
Definition set_level (v : Z) (o : obj) : obj :=
  mk (id o) (name o) (fulldir o) (status o) (t o) (t_max_extended o) (cid o)
     v (parent_id o) (niceness o) (restarts o).
Definition set_parent_id (v : Z) (o : obj) : obj :=
  mk (id o) (name o) (fulldir o) (status o) (t o) (t_max_extended o) (cid o)
     (level o) v (niceness o) (restarts o).
Definition set_niceness (v : Z) (o : obj) : obj :=
  mk (id o) (name o) (fulldir o) (status o) (t o) (t_max_extended o) (cid o)
     (level o) (parent_id o) v (restarts o).
Definition set_restarts (v : list loc) (o : obj) : obj :=
  mk (id o) (name o) (fulldir o) (status o) (t o) (t_max_extended o) (cid o)
     (level o) (parent_id o) (niceness o) v.

End SimulationTask.

Abbreviation task := SimulationTask.obj.

(** [inst.status == STATUS_RUN or inst.status == STATUS_DONE] *)
Definition run_or_done (st : Status) : bool :=
  bool_decide (st = STATUS_RUN) || bool_decide (st = STATUS_DONE).

(** ** The object store *)

Definition Heap := loc → task.

Definition heap_upd (h : Heap) (l : loc) (f : task → task) : Heap :=
  λ l', if decide (l' = l) then f (h l) else h l'.

(** ** Python dictionaries with integer keys

    [sim_inst_dict] is iterated over, so its order matters: entries are kept
    in insertion order.  Its keys are the ids 0, 1, 2, ... inserted in that
    order, for which CPython 2 (small ints hash to themselves) and Python 3
    (insertion order) enumerate the same sequence. *)
Definition dict := list (Z * loc).

Fixpoint dict_get (d : dict) (k : Z) : option loc :=
  match d with
  | [] => None
  | (k', v) :: d' => if decide (k' = k) then Some v else dict_get d' k
  end.

(** [d[k] = v] *)
Fixpoint dict_set (d : dict) (k : Z) (v : loc) : dict :=
  match d with
  | [] => [(k, v)]
  | (k', v') :: d' =>
      if decide (k' = k) then (k, v) :: d' else (k', v') :: dict_set d' k v
  end.

Definition dict_keys (d : dict) : list Z := d.*1.

(** ** The file system as the scan sees it *)

(** What [parse_config_file(fullpath/SiMon.conf)] followed by
    [sim_config.get('Simulation', 'Code_name')] meets in a directory. *)
Inductive sim_conf : Type :=
  | ConfAbsent                        (* no SiMon.conf *)
  | ConfNoSection                     (* no [Simulation] section *)
  | ConfNoOption                      (* section without Code_name *)
  | ConfCode (code_name : string).

(** A directory listing.  A sub-directory comes with the facts the scan
    reads from it: its configuration file, the niceness configured for it,
    whether an ERROR marker file is present, and its own listing, in the
    order of [os.listdir].  (Symbolic links are not modelled.) *)
Inductive entry : Type :=
  | File (filename : string)
  | Dir (filename : string) (conf : sim_conf) (nice : Z) (error_marker : bool)
        (listing : list entry).

Definition entry_name (e : entry) : string :=
  match e with
  | File n => n
  | Dir n _ _ _ _ => n
  end.

(** [sorted(files)]: ascending by byte-wise string comparison, stable. *)
Fixpoint insert_sorted (e : entry) (es : list entry) : list entry :=
  match es with
  | [] => [e]
  | e' :: es' =>
      if String.ltb (entry_name e) (entry_name e')
      then e :: e' :: es'
      else e' :: insert_sorted e es'
  end.

Definition sorted (es : list entry) : list entry :=
  foldl (λ acc e, insert_sorted e acc) [] es.

(** [os.path.join(a, b)] of posixpath, for two components. *)
Definition ends_with_slash (a : string) : bool :=
  match last (String.list_ascii_of_string a) with
  | Some c => bool_decide (c = "/"%char)
  | None => false
  end.

Definition starts_with_slash (b : string) : bool :=
  match b with
  | String c _ => bool_decide (c = "/"%char)
  | EmptyString => false
  end.

Definition join (a b : string) : string :=
  if starts_with_slash b then b
  else if bool_decide (a = "") || ends_with_slash a then a +:+ b
  else a +:+ "/" +:+ b.

(** [str.strip()]: leading and trailing ASCII whitespace removed. *)
Definition is_space (c : ascii) : bool :=
  let n := Ascii.nat_of_ascii c in
  bool_decide (n = 32%nat) || (Nat.leb 9 n && Nat.leb n 13).

Fixpoint lstrip (l : list ascii) : list ascii :=
  match l with
  | c :: l' => if is_space c then lstrip l' else l
  | [] => []
  end.

Definition strip (s : string) : string :=
  String.string_of_list_ascii
    (rev (lstrip (rev (lstrip (String.list_ascii_of_string s))))).

(** ** The monitor *)

Record SiMon : Type := mkSiMon {
  module_dict : list (string * string);
  sim_inst_dict : dict;
  sim_inst_parent_dict : gmap string loc;
  sim_tree : loc;
  cwd : string;
  inst_id : Z;
  max_concurrent_jobs : Z;
  heap : Heap;
  (** the next free reference: every object created so far is below it *)
  next_loc : loc
}.

Definition set_sim_inst_dict (v : dict) (s : SiMon) : SiMon :=
  mkSiMon (module_dict s) v (sim_inst_parent_dict s) (sim_tree s) (cwd s)
          (inst_id s) (max_concurrent_jobs s) (heap s) (next_loc s).
Definition set_sim_inst_parent_dict (v : gmap string loc) (s : SiMon) : SiMon :=
  mkSiMon (module_dict s) (sim_inst_dict s) v (sim_tree s) (cwd s)
          (inst_id s) (max_concurrent_jobs s) (heap s) (next_loc s).
Definition set_sim_tree (v : loc) (s : SiMon) : SiMon :=
  mkSiMon (module_dict s) (sim_inst_dict s) (sim_inst_parent_dict s) v (cwd s)
          (inst_id s) (max_concurrent_jobs s) (heap s) (next_loc s).
Definition set_inst_id (v : Z) (s : SiMon) : SiMon :=
  mkSiMon (module_dict s) (sim_inst_dict s) (sim_inst_parent_dict s)
          (sim_tree s) (cwd s) v (max_concurrent_jobs s) (heap s) (next_loc s).
Definition set_heap (v : Heap) (s : SiMon) : SiMon :=
  mkSiMon (module_dict s) (sim_inst_dict s) (sim_inst_parent_dict s)
          (sim_tree s) (cwd s) (inst_id s) (max_concurrent_jobs s) v
          (next_loc s).

(** Attribute assignment on the object behind a reference. *)
Definition modify (l : loc) (f : task → task) (s : SiMon) : SiMon :=
  set_heap (heap_upd (heap s) l f) s.

(** Object creation: the new object gets the next free reference. *)
Definition alloc (o : task) (s : SiMon) : loc * SiMon :=
  (next_loc s,
   mkSiMon (module_dict s) (sim_inst_dict s) (sim_inst_parent_dict s)
           (sim_tree s) (cwd s) (inst_id s) (max_concurrent_jobs s)
           (heap_upd (heap s) (next_loc s) (λ _, o)) (S (next_loc s))).

(** [self.sim_inst_dict[k]] and [self.sim_inst_parent_dict[p]] *)
Definition inst_at (s : SiMon) (k : Z) : result loc :=
  from_option KeyError (dict_get (sim_inst_dict s) k).

Definition parent_at (s : SiMon) (p : string) : result loc :=
  from_option KeyError (sim_inst_parent_dict s !! p).

(** ** The tree builder *)

Section Monitor.

(** The world outside the monitor: the disk and the processes of the
    managed simulations, with the operations of the capability provider
    (the methods of [SimulationTask] and its per-code subclasses, which
    are not part of the sources).  The status probe reads the world and
    yields status, progress and progress target; the actions change the
    world. *)
Context {World : Type}.
Variable fnmatch : string → string → bool.
Variable listdir : World → string → list entry.
Variable sim_get_status : World → task → Status * Z * Z.
Variables sim_start sim_restart sim_kill sim_backup_checkpoint
  : World → task → World.
(** [numpy.argsort] with its default sorting kind. *)
Variable argsort : list Z → list nat.

(** [o.sim_get_status()] on the object behind [l]. *)
Definition probe (w : World) (l : loc) (s : SiMon) : SiMon :=
  let '(st, progress, target) := sim_get_status w (heap s l) in
  modify l (λ o, SimulationTask.set_t_max_extended target
                   (SimulationTask.set_t progress
                      (SimulationTask.set_status st o))) s.

(** Lines 147-158: the instance of the simulation code named by the
    directory's SiMon.conf, or [None]. *)
Definition make_instance (s : SiMon) (c : sim_conf) (nice : Z)
    (id : Z) (filename fullpath : string) : result (option task) :=
  match c with
  | ConfAbsent => Ok None
  | ConfNoSection => Raise NoSectionError
  | ConfNoOption => Ok None
  | ConfCode code_name =>
      if bool_decide (code_name ∈ (module_dict s).*1)
      then Ok (Some (SimulationTask.set_niceness nice
                       (SimulationTask.init id filename fullpath STATUS_NEW)))
      else Ok None
  end.

(** Lines 156-162: the new instance is entered under its id. *)
Definition new_instance (o : task) (id : Z) (filename fullpath : string)
    (s : SiMon) : loc * SiMon :=
  let '(l, s) := alloc o s in
  let s := set_sim_inst_dict (dict_set (sim_inst_dict s) id l) s in
  let s := modify l (SimulationTask.set_id id) s in
  let s := modify l (SimulationTask.set_fulldir fullpath) s in
  let s := modify l (SimulationTask.set_name filename) s in
  (l, s).

(** Lines 164-169: register child to the parent, and the node itself in the
    parent tree. *)
Definition register_child (base_dir fullpath : string) (l : loc) (s : SiMon)
    : result SiMon :=
  p ← parent_at s base_dir;
  let s := modify p (λ o, SimulationTask.set_restarts
                            (SimulationTask.restarts o ++ [l]) o) s in
  p ← parent_at s base_dir;
  let s := modify l (SimulationTask.set_level
                       (SimulationTask.level (heap s p) + 1)) s in
  let s := set_sim_inst_parent_dict
             (<[fullpath := l]> (sim_inst_parent_dict s)) s in
  p ← parent_at s base_dir;
  Ok (modify l (SimulationTask.set_parent_id (SimulationTask.id (heap s p))) s).

(** Lines 171-176: get the simulation status; the parent takes it over. *)
Definition mirror_status (w : World) (l : loc) (s : SiMon) : result SiMon :=
  let s := probe w l s in
  q ← inst_at s (SimulationTask.parent_id (heap s l));
  Ok (modify q (SimulationTask.set_status (SimulationTask.status (heap s l))) s).

(** Lines 178-182: nominate as restart candidate. *)
Definition nominate (error_marker : bool) (l : loc) (s : SiMon)
    : result SiMon :=
  q ← inst_at s (SimulationTask.parent_id (heap s l));
  if (SimulationTask.t (heap s q) <? SimulationTask.t (heap s l))
     && negb error_marker
  then
    q ← inst_at s (SimulationTask.parent_id (heap s l));
    let s := modify q (SimulationTask.set_cid (SimulationTask.id (heap s l))) s in
    q ← inst_at s (SimulationTask.parent_id (heap s l));
    Ok (modify q (SimulationTask.set_t_max_extended
                    (SimulationTask.t_max_extended (heap s l))) s)
  else Ok s.

(** One iteration of the loop of [traverse_simulation_dir_tree]; a name
    that is no directory fails the [os.path.isdir] test. *)
Definition visit (w : World) (pattern base_dir : string) (e : entry)
    (s : SiMon) : result SiMon :=
  match e with
  | File _ => Ok s
  | Dir filename conf nice error_marker _ =>
      if fnmatch filename pattern then
        let fullpath := join base_dir filename in
        let s := set_inst_id (inst_id s + 1) s in
        let id := inst_id s in
        sim_inst ← make_instance s conf nice id filename fullpath;
        match sim_inst with
        | None =>
            (* [self.sim_inst_dict[id] = None; sim_inst.id = id] *)
            Raise AttributeError
        | Some o =>
            let '(l, s) := new_instance o id filename fullpath s in
            s ← register_child base_dir fullpath l s;
            s ← mirror_status w l s;
            nominate error_marker l s
        end
      else Ok s
  end.

(** [traverse_simulation_dir_tree(pattern, base_dir, files)] *)
Definition traverse_simulation_dir_tree (w : World)
    (pattern base_dir : string) (files : list entry) (s : SiMon)
    : result SiMon :=
  for_each (visit w pattern base_dir) (sorted files) s.

(** [os.path.walk(top, func, arg)] below a directory entry of [top]: the
    callback on the directory's listing, then the walk of each of its
    sub-directories in listing order. *)
Fixpoint walk_entry (w : World) (pattern top : string) (e : entry)
    (s : SiMon) {struct e} : result SiMon :=
  match e with
  | File _ => Ok s
  | Dir filename _ _ _ listing =>
      let dir := join top filename in
      s ← traverse_simulation_dir_tree w pattern dir listing s;
      (fix walk_names (names : list entry) (s : SiMon) : result SiMon :=
         match names with
         | [] => Ok s
         | e' :: names' =>
             s' ← walk_entry w pattern dir e' s; walk_names names' s'
         end) listing s
  end.

Definition os_path_walk (w : World) (top pattern : string) (s : SiMon)
    : result SiMon :=
  let names := listdir w top in
  s ← traverse_simulation_dir_tree w pattern top names s;
  for_each (walk_entry w pattern top) names s.

(** Lines 192-199 of [build_simulation_tree]: the containers are set up
    anew and the directory tree is walked. *)
Definition build_scan (w : World) (s : SiMon) : result SiMon :=
  let s := set_sim_inst_dict [] s in
  let '(root, s) :=
    alloc (SimulationTask.init 0 "root" (cwd s) STATUS_NEW) s in
  let s := set_sim_tree root s in
  let s := set_sim_inst_dict (dict_set (sim_inst_dict s) 0 (sim_tree s)) s in
  let s := set_sim_inst_parent_dict
             (<[strip (cwd s) := sim_tree s]> (sim_inst_parent_dict s)) s in
  let s := set_inst_id 0 s in
  os_path_walk w (cwd s) "*" s.

(** ** The status propagator *)

(** The body of the [for i in self.sim_inst_dict] loop (lines 208-215);
    the loop state is the flag [inst_status_modified] and the monitor. *)
Definition sync_node (i : Z) (acc : bool * SiMon) : result (bool * SiMon) :=
  let '(inst_status_modified, s) := acc in
  if bool_decide (i = 0) then Ok acc
  else
    inst ← inst_at s i;
    if run_or_done (SimulationTask.status (heap s inst)) then
      if bool_decide (0 < SimulationTask.parent_id (heap s inst)) then
        p ← inst_at s (SimulationTask.parent_id (heap s inst));
        if bool_decide (SimulationTask.status (heap s p)
                        ≠ SimulationTask.status (heap s inst))
        then
          p ← inst_at s (SimulationTask.parent_id (heap s inst));
          Ok (true, modify p (SimulationTask.set_status
                                (SimulationTask.status (heap s inst))) s)
        else Ok acc
      else Ok acc
    else Ok acc.

(** One full pass over the dictionary. *)
Definition sync_pass (s : SiMon) : result (bool * SiMon) :=
  for_each sync_node (dict_keys (sim_inst_dict s)) (false, s).

(** The [while update_needed and max_iter < 30] loop (lines 202-219),
    entered with [update_needed = True]; [bound] is what is left of the
    30 iterations.  It yields the final values of [max_iter] and
    [update_needed] with the monitor. *)
Fixpoint sync_loop (bound : nat) (max_iter : nat) (s : SiMon)
    : result (nat * bool * SiMon) :=
  match bound with
  | O => Ok (max_iter, true, s)
  | S bound' =>
      r ← sync_pass s;
      let '(inst_status_modified, s') := (r : bool * SiMon) in
      if inst_status_modified
      then sync_loop bound' (S max_iter) s'
      else Ok (S max_iter, false, s')
  end.

Definition sync_status_tree (s : SiMon) : result (nat * bool * SiMon) :=
  sync_loop 30 0 s.

(** [build_simulation_tree()] *)
Definition build_simulation_tree (w : World) (s : SiMon) : result SiMon :=
  s ← build_scan w s;
  r ← sync_status_tree s;
  Ok r.2.

(** ** The auto-scheduler *)

(** The body of the loop that counts the running simulations (lines
    352-358); the loop state is [sim_niceness_vec], [concurrent_jobs] and
    the monitor. *)
Definition poll_node (w : World) (i : Z) (acc : list Z * Z * SiMon)
    : result (list Z * Z * SiMon) :=
  let '(sim_niceness_vec, concurrent_jobs, s) := acc in
  inst ← inst_at s i;
  let sim_niceness_vec :=
    sim_niceness_vec ++ [SimulationTask.niceness (heap s inst)] in
  let s := probe w inst s in
  if bool_decide (SimulationTask.status (heap s inst) = STATUS_RUN)
     && bool_decide (SimulationTask.cid (heap s inst) = -1)
  then Ok (sim_niceness_vec, concurrent_jobs + 1, s)
  else Ok (sim_niceness_vec, concurrent_jobs, s).

Definition poll_all (w : World) (s : SiMon) : result (list Z * Z * SiMon) :=
  for_each (poll_node w) (dict_keys (sim_inst_dict s)) ([], 0, s).

(** The body of the loop over [index_niceness_sorted] (lines 361-364). *)
Definition schedule_node (s : SiMon) (ind : nat) (schedule_list : list loc)
    : result (list loc) :=
  a ← inst_at s (Z.of_nat ind);
  if bool_decide (SimulationTask.status (heap s a) ≠ STATUS_DONE) then
    b ← inst_at s (Z.of_nat ind);
    if bool_decide (0 < SimulationTask.id (heap s b)) then
      c ← inst_at s (Z.of_nat ind);
      Ok (schedule_list ++ [c])
    else Ok schedule_list
  else Ok schedule_list.

Definition make_schedule_list (s : SiMon) (index_niceness_sorted : list nat)
    : result (list loc) :=
  for_each (schedule_node s) index_niceness_sorted [].

(** The calls made on the capability provider, in the order of issue. *)
Inductive action : Type :=
  | DoBackup (sim : loc)
  | DoKill (sim : loc)
  | DoRestart (sim : loc)
  | DoStart (sim : loc).

(** The state of the dispatch loop: the counter, the monitor, the world
    and the provider calls issued so far. *)
Record sched : Type := mkSched {
  concurrent_jobs : Z;
  mon : SiMon;
  world : World;
  issued : list action
}.

(** [while current_inst.cid != -1: current_inst = self.sim_inst_dict[
    current_inst.cid]] (lines 382-384).  From the first hop on the walk
    is inside the dictionary and nothing is written, so a walk of more
    hops than the dictionary has entries has come back to a node it has
    already left and goes on for ever: [hops] counts down from the size
    of the dictionary. *)
Fixpoint restart_leaf (hops : nat) (s : SiMon) (current_inst : loc)
    : result loc :=
  if bool_decide (SimulationTask.cid (heap s current_inst) ≠ -1) then
    match hops with
    | O => Raise NonTermination
    | S hops' =>
        next ← inst_at s (SimulationTask.cid (heap s current_inst));
        restart_leaf hops' s next
    end
  else Ok current_inst.

(** The body of the loop over [schedule_list] (lines 367-395). *)
Definition dispatch (sim : loc) (st : sched) : result sched :=
  let s := mon st in
  let w := world st in
  if bool_decide (SimulationTask.id (heap s sim) = 0) then Ok st
  else
    let s := probe w sim s in
    match SimulationTask.status (heap s sim) with
    | STATUS_RUN =>
        Ok (mkSched (concurrent_jobs st) s
              (sim_backup_checkpoint w (heap s sim))
              (issued st ++ [DoBackup sim]))
    | STATUS_STALL =>
        let w := sim_kill w (heap s sim) in
        s ← build_simulation_tree w s;
        Ok (mkSched (concurrent_jobs st) s w (issued st ++ [DoKill sim]))
    | STATUS_STOP =>
        if (concurrent_jobs st <? max_concurrent_jobs s)
           && bool_decide (SimulationTask.level (heap s sim) = 1)
        then
          current_inst ← restart_leaf (length (sim_inst_dict s)) s sim;
          Ok (mkSched (concurrent_jobs st + 1) s
                (sim_restart w (heap s current_inst))
                (issued st ++ [DoRestart current_inst]))
        else Ok (mkSched (concurrent_jobs st) s w (issued st))
    | STATUS_NEW =>
        if concurrent_jobs st <? max_concurrent_jobs s then
          Ok (mkSched (concurrent_jobs st + 1) s
                (sim_start w (heap s sim))
                (issued st ++ [DoStart sim]))
        else Ok (mkSched (concurrent_jobs st) s w (issued st))
    | _ => Ok (mkSched (concurrent_jobs st) s w (issued st))
    end.

Definition dispatch_all (schedule_list : list loc) (st : sched)
    : result sched :=
  for_each dispatch schedule_list st.

(** [auto_scheduler()] *)
Definition auto_scheduler (w : World) (s : SiMon) : result sched :=
  s ← build_simulation_tree w s;
  r ← poll_all w s;
  let '(sim_niceness_vec, concurrent_jobs, s) := (r : list Z * Z * SiMon) in
  let index_niceness_sorted := argsort sim_niceness_vec in
  schedule_list ← make_schedule_list s index_niceness_sorted;
  dispatch_all schedule_list (mkSched concurrent_jobs s w []).

End Monitor.

(** ** numpy.argsort

    simon.py sorts the niceness vector with [numpy.argsort] and its default
    kind, numpy's quicksort: an introsort on the index array (npysort,
    [aquicksort]) that partitions around the median of three while a segment
    has more than [SMALL_QUICKSORT] + 1 elements, finishes segments by
    insertion sort, and hands a segment to heapsort ([aheapsort]) once the
    depth limit is used up.  It is rendered here on a list of positions
    ([tosort]) over the key array [v]; pointers are positions. *)
Module numpy.

Definition SMALL_QUICKSORT : nat := 16.

Section keys.

Variable v : list Z.

(** [v[*p]] *)
Definition key (tosort : list nat) (p : nat) : Z := v !!! (tosort !!! p).

Definition INTP_SWAP (tosort : list nat) (p q : nat) : list nat :=
  <[q := tosort !!! p]> (<[p := tosort !!! q]> tosort).

(** [do ++pi; while (v[*pi] < vp);] *)
Fixpoint scan_up (fuel : nat) (a : list nat) (vp : Z) (pi : nat) : nat :=
  let pi := S pi in
  match fuel with
  | O => pi
  | S fuel' => if key a pi <? vp then scan_up fuel' a vp pi else pi
  end.

(** [do --pj; while (vp < v[*pj]);] *)
Fixpoint scan_down (fuel : nat) (a : list nat) (vp : Z) (pj : nat) : nat :=
  let pj := Nat.pred pj in
  match fuel with
  | O => pj
  | S fuel' => if vp <? key a pj then scan_down fuel' a vp pj else pj
  end.

(** The [for (;;)] loop of the partition. *)
Fixpoint partition_loop (fuel : nat) (a : list nat) (vp : Z) (pi pj : nat)
    : list nat * nat :=
  match fuel with
  | O => (a, pi)
  | S fuel' =>
      let pi := scan_up (length a) a vp pi in
      let pj := scan_down (length a) a vp pj in
      if (pj <=? pi)%nat then (a, pi)
      else partition_loop fuel' (INTP_SWAP a pi pj) vp pi pj
  end.

(** The [while ((pr - pl) > SMALL_QUICKSORT)] loop: one partition per
    turn, the larger part pushed on the stack with the depth left. *)
Fixpoint partition_while (fuel : nat) (a : list nat) (pl pr : nat)
    (cdepth : Z) (stack : list (nat * nat * Z))
    : list nat * nat * nat * Z * list (nat * nat * Z) :=
  match fuel with
  | O => (a, pl, pr, cdepth, stack)
  | S fuel' =>
      if (SMALL_QUICKSORT <? pr - pl)%nat then
        let pm := (pl + (pr - pl) / 2)%nat in
        let a := if key a pm <? key a pl then INTP_SWAP a pm pl else a in
        let a := if key a pr <? key a pm then INTP_SWAP a pr pm else a in
        let a := if key a pm <? key a pl then INTP_SWAP a pm pl else a in
        let vp := key a pm in
        let a := INTP_SWAP a pm (pr - 1)%nat in
        let '(a, pi) := partition_loop (length a) a vp pl (pr - 1)%nat in
        let a := INTP_SWAP a pi (pr - 1)%nat in
        if (pi - pl <? pr - pi)%nat
        then partition_while fuel' a pl (pi - 1)%nat (cdepth - 1)
               (((pi + 1)%nat, pr, cdepth - 1) :: stack)
        else partition_while fuel' a (pi + 1)%nat pr (cdepth - 1)
               ((pl, (pi - 1)%nat, cdepth - 1) :: stack)
      else (a, pl, pr, cdepth, stack)
  end.

(** [while (pj > pl && vp < v[*pk]) *pj-- = *pk--;] with [pk = pj - 1] *)
Fixpoint shift_right (fuel : nat) (a : list nat) (pl : nat) (vp : Z)
    (pj : nat) : list nat * nat :=
  match fuel with
  | O => (a, pj)
  | S fuel' =>
      if (pl <? pj)%nat && (vp <? key a (pj - 1)) then
        shift_right fuel' (<[pj := a !!! (pj - 1)%nat]> a) pl vp (pj - 1)
      else (a, pj)
  end.

(** The insertion sort of the segment [pl .. pr]. *)
Definition insertion_sort (a : list nat) (pl pr : nat) : list nat :=
  foldl (λ a pi,
           let vi := a !!! pi in
           let '(a, pj) := shift_right (length a) a pl (v !!! vi) pi in
           <[pj := vi]> a)
        a (seq (pl + 1) (pr - pl)).

(** Heapsort of the [n] positions from [pl] on; [a[k]] of the C code,
    which offsets the array by one, is position [pl + k - 1]. *)
Fixpoint sift_down (fuel : nat) (a : list nat) (pl n : nat) (tmp : nat)
    (i j : nat) : list nat * nat :=
  match fuel with
  | O => (a, i)
  | S fuel' =>
      if (j <=? n)%nat then
        let j := if (j <? n)%nat && (key a (pl + j - 1) <? key a (pl + j))
                 then S j else j in
        if v !!! tmp <? key a (pl + j - 1) then
          sift_down fuel'
            (<[(pl + i - 1)%nat := a !!! (pl + j - 1)%nat]> a)
            pl n tmp j (j + j)
        else (a, i)
      else (a, i)
  end.

Definition sift (a : list nat) (pl n : nat) (tmp : nat) (i : nat)
    : list nat :=
  let '(a, i) := sift_down (S n) a pl n tmp i (i + i) in
  <[(pl + i - 1)%nat := tmp]> a.

Definition aheapsort (a : list nat) (pl n : nat) : list nat :=
  let a :=
    foldl (λ a l, sift a pl n (a !!! (pl + l - 1)%nat) l)
          a (rev (seq 1 (n / 2))) in
  foldl (λ a n,
           let tmp := a !!! (pl + n - 1)%nat in
           let a := <[(pl + n - 1)%nat := a !!! pl]> a in
           sift a pl (n - 1) tmp 1%nat)
        a (rev (seq 2 (n - 1))).

(** The outer [while (1)] loop with its stack of pending segments. *)
Fixpoint aquicksort_loop (fuel : nat) (a : list nat) (pl pr : nat)
    (cdepth : Z) (stack : list (nat * nat * Z)) : list nat :=
  match fuel with
  | O => a
  | S fuel' =>
      let '(a, stack) :=
        if cdepth <? 0 then (aheapsort a pl (pr - pl + 1), stack)
        else
          let '(a, pl, pr, _, stack) :=
            partition_while (length a) a pl pr cdepth stack in
          (insertion_sort a pl pr, stack) in
      match stack with
      | [] => a
      | (pl, pr, cdepth) :: stack' =>
          aquicksort_loop fuel' a pl pr cdepth stack'
      end
  end.

End keys.

(** [numpy.argsort(v)] *)
Definition argsort (v : list Z) : list nat :=
  let num := length v in
  aquicksort_loop v (S num) (seq 0 num) 0 (num - 1)
    (Z.log2 (Z.of_nat num) * 2) [].

End numpy.

(** * Specification vocabulary *)

(** The node registered under id [k]. *)
Definition node (s : SiMon) (k : Z) : option loc := dict_get (sim_inst_dict s) k.

Definition valid_name (n : string) : bool :=
  negb (bool_decide (n = "")) && negb (starts_with_slash n).

Fixpoint valid_entry (e : entry) : bool :=
  match e with
  | File _ => true
  | Dir n _ _ _ listing => valid_name n && forallb valid_entry listing
  end.

Record wf_tree (s : SiMon) : Prop := {
  wf_keys : dict_keys (sim_inst_dict s) = seqZ 0 (inst_id s + 1);
  wf_inst_id : 0 ≤ inst_id s;
  wf_fresh : ∀ k l, node s k = Some l → (l < next_loc s)%nat;
  wf_root : node s 0 = Some (sim_tree s);
  wf_id : ∀ k l, node s k = Some l → SimulationTask.id (heap s l) = k;
  wf_level : ∀ k l, node s k = Some l → 0 ≤ SimulationTask.level (heap s l);
  wf_parent : ∀ k l, node s k = Some l → k ≠ 0 →
    ∃ p, 0 ≤ SimulationTask.parent_id (heap s l) < k
         ∧ node s (SimulationTask.parent_id (heap s l)) = Some p
         ∧ SimulationTask.level (heap s l) = SimulationTask.level (heap s p) + 1;
  wf_cid : ∀ k l, node s k = Some l → SimulationTask.cid (heap s l) ≠ -1 →
    ∃ c, k < SimulationTask.cid (heap s l)
         ∧ node s (SimulationTask.cid (heap s l)) = Some c
         ∧ SimulationTask.parent_id (heap s c) = k
         ∧ SimulationTask.t (heap s l) < SimulationTask.t (heap s c)
}.

(** The directory [path] has been registered in the current cycle. *)
Definition registered (s : SiMon) (path : string) : Prop :=
  ∃ l k, sim_inst_parent_dict s !! path = Some l ∧ node s k = Some l.


(** What one registration leaves behind: the new node [l] under the new id,
    its parent [p] (registered under [kp]) updated, everything else as
    before. *)
Record registers {World : Type}
    (sim_get_status : World → task → Status * Z * Z) (w : World) (base filename : string) (nice : Z)
    (error_marker : bool) (p : loc) (kp : Z) (s s' : SiMon) : Prop := {
  reg_dict : sim_inst_dict s' = sim_inst_dict s ++ [(inst_id s + 1, next_loc s)];
  reg_inst_id : inst_id s' = inst_id s + 1;
  reg_next : next_loc s' = S (next_loc s);
  reg_tree : sim_tree s' = sim_tree s;
  reg_cwd : cwd s' = cwd s;
  reg_max : max_concurrent_jobs s' = max_concurrent_jobs s;
  reg_modules : module_dict s' = module_dict s;
  reg_paths : sim_inst_parent_dict s' =
              <[join base filename := next_loc s]> (sim_inst_parent_dict s);
  reg_frame : ∀ x, x ≠ next_loc s → x ≠ p → heap s' x = heap s x;
  reg_new :
    let o0 := SimulationTask.mk (inst_id s + 1) filename (join base filename)
                STATUS_NEW 0 0 (-1) (SimulationTask.level (heap s p) + 1) kp
                nice [] in
    heap s' (next_loc s) =
      SimulationTask.set_t_max_extended (sim_get_status w o0).2
        (SimulationTask.set_t (sim_get_status w o0).1.2
           (SimulationTask.set_status (sim_get_status w o0).1.1 o0));
  reg_parent :
    let c := heap s' (next_loc s) in
    let o := SimulationTask.set_status (SimulationTask.status c)
               (SimulationTask.set_restarts
                  (SimulationTask.restarts (heap s p) ++ [next_loc s])
                  (heap s p)) in
    heap s' p =
      if (SimulationTask.t (heap s p) <? SimulationTask.t c) && negb error_marker
      then SimulationTask.set_t_max_extended (SimulationTask.t_max_extended c)
             (SimulationTask.set_cid (inst_id s + 1) o)
      else o
}.

Definition dir_registered (s : SiMon) (top : string) (e : entry) : Prop :=
  match e with
  | File _ => True
  | Dir n _ _ _ _ => registered s (join top n)
  end.

Definition walk_ok {World : Type} (fnmatch : string → string → bool)
    (sim_get_status : World → task → Status * Z * Z) (w : World) (pattern : string) (e : entry) : Prop :=
  ∀ top s s',
    wf_tree s → valid_entry e = true → dir_registered s top e →
    walk_entry fnmatch sim_get_status w pattern top e s = Ok s' →
    wf_tree s' ∧ (∀ path, registered s path → registered s' path).

(** Induction over a directory tree. *)
Fixpoint entry_tree_ind (P : entry → Prop)
    (HFile : ∀ n, P (File n))
    (HDir : ∀ n conf nice err sub, Forall P sub → P (Dir n conf nice err sub))
    (e : entry) {struct e} : P e :=
  match e with
  | File n => HFile n
  | Dir n conf nice err sub =>
      HDir n conf nice err sub
        ((fix go (l : list entry) : Forall P l :=
            match l with
            | [] => Forall_nil_2 P
            | e' :: l' => Forall_cons_2 P e' l' (entry_tree_ind P HFile HDir e') (go l')
            end) sub)
  end.

(** ** The propagation seen on the status of each id

    The status propagator only reads and writes [status] fields, addressed
    by id; on a well-formed tree it is this iteration over the map from ids
    to statuses, given each node's [parent_id]. *)
Definition prop_step (par : Z → Z) (acc : bool * (Z → Status)) (k : Z)
    : bool * (Z → Status) :=
  if bool_decide (k = 0) then acc
  else if run_or_done (acc.2 k) && bool_decide (0 < par k)
          && bool_decide (acc.2 (par k) ≠ acc.2 k)
       then (true, <[par k := acc.2 k]> acc.2)
       else acc.

Definition prop_pass (par : Z → Z) (n : nat) (σ : Z → Status)
    : bool * (Z → Status) :=
  foldl (prop_step par) (false, σ) (seqZ 0 (Z.of_nat n)).

Fixpoint prop_loop (par : Z → Z) (n : nat) (bound max_iter : nat)
    (σ : Z → Status) : nat * bool * (Z → Status) :=
  match bound with
  | O => (max_iter, true, σ)
  | S bound' =>
      let '(modified, σ') := prop_pass par n σ in
      if modified then prop_loop par n bound' (S max_iter) σ'
      else (S max_iter, false, σ')
  end.

(** The state of a pass after the ids below [j]. *)
Definition upto (par : Z → Z) (j : nat) (σ : Z → Status) : bool * (Z → Status) :=
  foldl (prop_step par) (false, σ) (seqZ 0 (Z.of_nat j)).

(** An id [k] whose status is still to be pushed onto its parent. *)
Definition unstable (par : Z → Z) (σ : Z → Status) (k : Z) : Prop :=
  run_or_done (σ k) = true ∧ 0 < par k ∧ σ (par k) ≠ σ k.

(** A RUNNING or DONE id below a non-root parent that is neither. *)
Definition deficient (par : Z → Z) (n : nat) (σ : Z → Status) (k : Z) : Prop :=
  1 ≤ k < Z.of_nat n ∧ run_or_done (σ k) = true ∧ 0 < par k
  ∧ run_or_done (σ (par k)) = false.

Definition status_of (s : SiMon) (k : Z) : Status :=
  match node s k with
  | Some l => SimulationTask.status (heap s l)
  | None => STATUS_NEW
  end.

Definition parent_of (s : SiMon) (k : Z) : Z :=
  match node s k with
  | Some l => SimulationTask.parent_id (heap s l)
  | None => -1
  end.

Definition level_of (s : SiMon) (k : Z) : Z :=
  match node s k with
  | Some l => SimulationTask.level (heap s l)
  | None => 0
  end.

(** [s'] is [s] with some [status] attributes rewritten. *)
Definition same_shape (s s' : SiMon) : Prop :=
  ∃ h, s' = set_heap h s
       ∧ ∀ l, ∃ st, h l = SimulationTask.set_status st (heap s l).


(** [a] is a strict ancestor of [k]: reached from [k] along [parent_id]. *)
Inductive ancestor (s : SiMon) : Z → Z → Prop :=
  | ancestor_parent k l :
      node s k = Some l → k ≠ 0 →
      ancestor s (SimulationTask.parent_id (heap s l)) k
  | ancestor_further a k l :
      node s k = Some l → k ≠ 0 →
      ancestor s a (SimulationTask.parent_id (heap s l)) →
      ancestor s a k.

(** The scan conditions under which the walk registers every directory it
    enters: the pattern of the walk matches every name, the root path has
    no blanks around it, and names are real file names. *)
Definition scannable {World : Type} (fnmatch : string → string → bool)
    (listdir : World → string → list entry) (w : World) (s : SiMon) : Prop :=
  (∀ n, fnmatch n "*" = true)
  ∧ strip (cwd s) = cwd s
  ∧ forallb valid_entry (listdir w (cwd s)) = true.

(** Concrete worlds: a fixed directory tree, a status probe that reads a
    table by directory, provider actions without effect on the probe. *)
Module Example.

Definition world := string → Status * Z * Z.

Definition fnmatch_star (name pattern : string) : bool := true.

Definition probe_dir (w : world) (o : task) : Status * Z * Z :=
  w (SimulationTask.fulldir o).

Definition no_effect (w : world) (o : task) : world := w.

(** The monitor as [__init__] leaves it. *)
Definition monitor (cwd : string) (max_jobs : Z) : SiMon :=
  mkSiMon [("Nbody6", "module_nbody6")] [] ∅ 0%nat cwd 0 max_jobs
    (λ _, SimulationTask.init 0 "root" cwd STATUS_NEW) 1%nat.

Definition sim (n : string) (nice : Z) (l : list entry) : entry :=
  Dir n (ConfCode "Nbody6") nice false l.

Definition at_path (p : string) (r : Status * Z * Z) (w : world) : world :=
  λ q, if bool_decide (q = p) then r else w q.

Definition idle : world := λ _, (STATUS_NEW, 0, 0).

Definition scan (ls : list entry) :=
  build_scan fnmatch_star (λ (_ : world) (_ : string), ls) probe_dir.

Definition build (ls : list entry) :=
  build_simulation_tree fnmatch_star (λ (_ : world) (_ : string), ls) probe_dir.

Definition statuses (s : SiMon) : list (Z * Status) :=
  (λ kl, (kl.1, SimulationTask.status (heap s kl.2))) <$> sim_inst_dict s.

(** Two top-level simulations: [a] running, [b] stopped. *)
Definition two : list entry := [sim "a" 0 []; sim "b" 0 []].
Definition w_two : world :=
  at_path "/data/a" (STATUS_RUN, 10, 100)
    (at_path "/data/b" (STATUS_STOP, 5, 100) idle).

(** One top-level simulation [p] with two restarts: [a] running, [b] done. *)
Definition fork : list entry := [sim "p" 0 [sim "a" 0 []; sim "b" 0 []]].
Definition w_fork : world :=
  at_path "/data/p" (STATUS_STOP, 50, 100)
    (at_path "/data/p/a" (STATUS_RUN, 80, 100)
       (at_path "/data/p/b" (STATUS_DONE, 60, 100) idle)).

(** The result of a run that is known to succeed. *)
Definition the {A : Type} (r : result A) (default : A) : A :=
  match r with
  | Ok a => a
  | Raise _ => default
  end.

Definition two_scanned : SiMon :=
  the (scan two w_two (monitor "/data" 2)) (monitor "/data" 2).
Definition two_built : SiMon :=
  the (build two w_two (monitor "/data" 2)) (monitor "/data" 2).
Definition fork_scanned : SiMon :=
  the (scan fork w_fork (monitor "/data" 2)) (monitor "/data" 2).
Definition fork_built : SiMon :=
  the (build fork w_fork (monitor "/data" 2)) (monitor "/data" 2).

End Example.

(** A test on every node of the dictionary. *)
Definition all_nodes (P : Z → task → bool) (s : SiMon) : bool :=
  forallb (λ kl, P kl.1 (heap s kl.2)) (sim_inst_dict s).

(** A configuration for which lines 147-158 leave [sim_inst] at [None]. *)
Definition unrecognized (s : SiMon) (c : sim_conf) : Prop :=
  match c with
  | ConfAbsent => True
  | ConfNoSection => False
  | ConfNoOption => True
  | ConfCode code_name => code_name ∉ (module_dict s).*1
  end.

Definition p_scanned : SiMon :=
  Example.the (Example.scan [Example.sim "p" 0 []] Example.w_fork
                 (Example.monitor "/data" 2))
    (Example.monitor "/data" 2).
Definition p_a_visited : SiMon :=
  Example.the
    (visit Example.fnmatch_star Example.probe_dir Example.w_fork "*"
       "/data/p" (Example.sim "a" 0 []) p_scanned) p_scanned.

(** The configuration of the monitor, which no operation assigns to. *)
Definition same_config (s s' : SiMon) : Prop :=
  max_concurrent_jobs s' = max_concurrent_jobs s
  ∧ module_dict s' = module_dict s
  ∧ cwd s' = cwd s.

(** A start or a restart: the provider calls that take a slot. *)
Definition is_dispatch (a : action) : bool :=
  match a with
  | DoStart _ | DoRestart _ => true
  | DoBackup _ | DoKill _ => false
  end.

Definition dispatches (acts : list action) : Z :=
  Z.of_nat (length (filter (λ a, is_dispatch a = true) acts)).

(** The ids are 0 .. [inst_id], each node carries the id it is registered
    under, and a restart candidate is a registered id above the node's own. *)
Record linked (s : SiMon) : Prop := {
  linked_keys : dict_keys (sim_inst_dict s) = seqZ 0 (inst_id s + 1);
  linked_inst_id : 0 ≤ inst_id s;
  linked_id : ∀ k l, node s k = Some l → SimulationTask.id (heap s l) = k;
  linked_cid : ∀ k l, node s k = Some l → SimulationTask.cid (heap s l) ≠ -1 →
    k < SimulationTask.cid (heap s l) ≤ inst_id s
}.

(** [leaf] is reached from [l] along [cid] pointers. *)
Inductive cid_chain (s : SiMon) : loc → loc → Prop :=
  | chain_end l : cid_chain s l l
  | chain_hop l next leaf :
      SimulationTask.cid (heap s l) ≠ -1 →
      node s (SimulationTask.cid (heap s l)) = Some next →
      cid_chain s next leaf →
      cid_chain s l leaf.

(** [s'] is [s] after status probes: only [status], [t] and
    [t_max_extended] attributes differ. *)
Definition probed (s s' : SiMon) : Prop :=
  ∃ h, s' = set_heap h s
       ∧ ∀ l, ∃ st progress target,
           h l = SimulationTask.set_t_max_extended target
                   (SimulationTask.set_t progress
                      (SimulationTask.set_status st (heap s l))).

(** What lines 361-364 keep of the position [ind]. *)
Definition scheduled (s : SiMon) (ind : nat) : option loc :=
  match node s (Z.of_nat ind) with
  | Some l =>
      if bool_decide (SimulationTask.status (heap s l) ≠ STATUS_DONE)
         && bool_decide (0 < SimulationTask.id (heap s l))
      then Some l else None
  | None => None
  end.

(** Worlds for the scheduler. *)
Module Pass.

(** Three new simulations of niceness 2, 0 and 1, two slots. *)
Definition three : list entry :=
  [Example.sim "a" 2 []; Example.sim "b" 0 []; Example.sim "c" 1 []].

Definition three_built : SiMon :=
  Example.the (Example.build three Example.idle (Example.monitor "/data" 2))
    (Example.monitor "/data" 2).

Definition three_polled : list Z * Z * SiMon :=
  Example.the (poll_all Example.probe_dir Example.idle three_built)
    ([], 0, three_built).

Definition dispatch_all :=
  dispatch_all Example.fnmatch_star (λ (_ : Example.world) (_ : string), three)
    Example.probe_dir Example.no_effect Example.no_effect Example.no_effect
    Example.no_effect.

Definition three_start : sched :=
  mkSched 0 three_polled.2 Example.idle [].

Definition three_end : sched :=
  Example.the (dispatch_all [3%nat; 4%nat; 2%nat] three_start) three_start.

(** A stopped top-level run whose restart is stopped as well. *)
Definition chain : list entry :=
  [Example.sim "run_001" 0 [Example.sim "restart_01" 0 []]].
Definition w_chain : Example.world :=
  Example.at_path "/data/run_001" (STATUS_STOP, 50, 100)
    (Example.at_path "/data/run_001/restart_01" (STATUS_STOP, 80, 100)
       Example.idle).
Definition chain_built : SiMon :=
  Example.the (Example.build chain w_chain (Example.monitor "/data" 2))
    (Example.monitor "/data" 2).
Definition chain_start : sched := mkSched 0 chain_built w_chain [].

(** Seventeen new simulations of equal niceness. *)
Definition seventeen : list entry :=
  (λ n, Example.sim n 0 []) <$>
    ["run_01"; "run_02"; "run_03"; "run_04"; "run_05"; "run_06"; "run_07";
     "run_08"; "run_09"; "run_10"; "run_11"; "run_12"; "run_13"; "run_14";
     "run_15"; "run_16"; "run_17"].

End Pass.

(** ** The order of discovery

    The path under which one iteration of the scan registers an entry of
    the listing of [base], when the pattern matches every name. *)
Definition dir_path (base : string) (e : entry) : option string :=
  match e with
  | File _ => None
  | Dir n _ _ _ _ => Some (join base n)
  end.

(** The directories the walk below the entry [e] of [top] registers, in
    the order of registration: the sub-directories of [e] in sorted order,
    then what the walk of each sub-directory registers, in listing order. *)
Fixpoint discovered (top : string) (e : entry) : list string :=
  match e with
  | File _ => []
  | Dir n _ _ _ listing =>
      omap (dir_path (join top n)) (sorted listing)
      ++ flat_map (discovered (join top n)) listing
  end.

Definition discovery (top : string) (names : list entry) : list string :=
  omap (dir_path top) (sorted names) ++ flat_map (discovered top) names.

(** The registrations that lead from [s] to [s'], with the paths
    registered, oldest first. *)
Inductive scanned {World : Type}
    (sim_get_status : World → task → Status * Z * Z) (w : World)
    : SiMon → list string → SiMon → Prop :=
  | scanned_nil s : scanned sim_get_status w s [] s
  | scanned_snoc s tr s1 s' base filename nice err p kp :
      scanned sim_get_status w s tr s1 →
      wf_tree s1 →
      sim_inst_parent_dict s1 !! base = Some p →
      node s1 kp = Some p →
      valid_name filename = true →
      registers sim_get_status w base filename nice err p kp s1 s' →
      scanned sim_get_status w s (tr ++ [join base filename]) s'.

(** The monitor as lines 192-198 of [build_simulation_tree] leave it, before
    the walk. *)
Definition scan_start (s : SiMon) : SiMon :=
  mkSiMon (module_dict s) [(0, next_loc s)]
    (<[strip (cwd s) := next_loc s]> (sim_inst_parent_dict s)) (next_loc s)
    (cwd s) 0 (max_concurrent_jobs s)
    (heap_upd (heap s) (next_loc s)
       (λ _, SimulationTask.init 0 "root" (cwd s) STATUS_NEW))
    (S (next_loc s)).

(** [s'] is [s] with the [status] of some dictionary nodes rewritten. *)
Definition restatused (s s' : SiMon) : Prop :=
  same_shape s s'
  ∧ ∀ l, (∀ k, node s k ≠ Some l) → heap s' l = heap s l.


(** A second cycle: the directory tree [Example.fork] has been replaced by
    [Example.two] when the monitor that built the first looks again. *)
Module Cycle.
Definition fork_rebuilt : SiMon :=
  Example.the (Example.build Example.two Example.w_two Example.fork_built)
    Example.fork_built.
End Cycle.

(** ** The counting loop *)

(** The object after [sim_get_status()]. *)
Definition polled {World : Type}
    (sim_get_status : World → task → Status * Z * Z) (w : World) (o : task)
    : task :=
  SimulationTask.set_t_max_extended (sim_get_status w o).2
    (SimulationTask.set_t (sim_get_status w o).1.2
       (SimulationTask.set_status (sim_get_status w o).1.1 o)).

(** A node the counting loop takes for a running process (line 357). *)
Definition occupies (o : task) : bool :=
  bool_decide (SimulationTask.status o = STATUS_RUN)
  && bool_decide (SimulationTask.cid o = -1).

Definition count_running (s : SiMon) (d : list (Z * loc)) : Z :=
  Z.of_nat (length (filter (λ kl, occupies (heap s kl.2) = true) d)).

(** A stalled simulation. *)
Module Stalled.
Definition listing : list entry := [Example.sim "a" 0 []].
Definition w_stalled : Example.world :=
  Example.at_path "/data/a" (STATUS_STALL, 10, 100) Example.idle.
Definition built : SiMon :=
  Example.the (Example.build listing w_stalled (Example.monitor "/data" 2))
    (Example.monitor "/data" 2).
Definition start : sched := mkSched 0 built w_stalled [].
Definition after : sched :=
  Example.the
    (dispatch Example.fnmatch_star (λ _ _, listing) Example.probe_dir
       Example.no_effect Example.no_effect Example.no_effect
       Example.no_effect 2%nat start) start.
End Stalled.

(** ** The insertion sort of numpy on short arrays *)




(** ** Directories the builder can instantiate *)

(** Every directory of the tree has a SiMon.conf whose [Code_name] is one
    of [codes]. *)
Fixpoint recognized (codes : list string) (e : entry) : bool :=
  match e with
  | File _ => true
  | Dir _ conf _ _ listing =>
      match conf with
      | ConfCode code_name => bool_decide (code_name ∈ codes)
      | _ => false
      end
      && forallb (recognized codes) listing
  end.

(** ** A pass in a quiet world *)

(** A world without stalled simulations: every probe reports NEW, and
    the provider actions leave no trace. *)
Module Quiet.
Definition probe_new (w : unit) (o : task) : Status * Z * Z :=
  (STATUS_NEW, 0, 0).
Definition no_effect (w : unit) (o : task) : unit := w.
Definition auto_scheduler :=
  auto_scheduler Example.fnmatch_star (λ (_ : unit) (_ : string), Pass.three)
    probe_new no_effect no_effect no_effect no_effect numpy.argsort.
End Quiet.

(** * Properties *)

Set Warnings "-clear-no-such-hyp".

(** ** Basic facts *)

Lemma bind_Ok {A B} (r : result A) (f : A → result B) (b : B) :
  r ≫= f = Ok b → ∃ a, r = Ok a ∧ f a = Ok b.
Proof. destruct r as [a|e]; simpl; [eauto | discriminate]. Qed.

Lemma from_option_Ok {A} (e : exn) (o : option A) (a : A) :
  from_option e o = Ok a ↔ o = Some a.
Proof. destruct o; simpl; split; congruence. Qed.

Lemma for_each_app {A S} (body : A → S → result S) (xs ys : list A) (s : S) :
  for_each body (xs ++ ys) s = for_each body xs s ≫= for_each body ys.
Proof.
  revert s. induction xs as [|x xs IH]; intros s; simpl; [done|].
  destruct (body x s) as [s'|e]; simpl; [apply IH | done].
Qed.

Lemma heap_upd_eq (h : Heap) l f : heap_upd h l f l = f (h l).
Proof. unfold heap_upd. by rewrite decide_True. Qed.

Lemma heap_upd_ne (h : Heap) l f l' : l' ≠ l → heap_upd h l f l' = h l'.
Proof. intros. unfold heap_upd. by rewrite decide_False. Qed.

Lemma dict_get_Some_elem (d : dict) k l : dict_get d k = Some l → (k, l) ∈ d.
Proof.
  induction d as [|[k' v] d IH]; simpl; [done|].
  case_decide as Hk; [intros [= <-]; rewrite Hk; left | intros; right; auto].
Qed.

Lemma dict_get_Some_key (d : dict) k l : dict_get d k = Some l → k ∈ dict_keys d.
Proof.
  intros H%dict_get_Some_elem. unfold dict_keys.
  apply list_elem_of_fmap. by exists (k, l).
Qed.

Lemma dict_get_None (d : dict) k : dict_get d k = None ↔ k ∉ dict_keys d.
Proof.
  unfold dict_keys. induction d as [|[k' v] d IH]; simpl.
  - split; [intros _; apply not_elem_of_nil | done].
  - case_decide; subst.
    + split; [done | intros []; left].
    + rewrite IH, not_elem_of_cons. naive_solver.
Qed.

Lemma dict_get_is_Some (d : dict) k : is_Some (dict_get d k) ↔ k ∈ dict_keys d.
Proof.
  destruct (dict_get d k) eqn:E.
  - split; [intros _; by eapply dict_get_Some_key | eauto].
  - apply dict_get_None in E. split; [by intros [? ?] | done].
Qed.

Lemma dict_set_fresh (d : dict) k l :
  k ∉ dict_keys d → dict_set d k l = d ++ [(k, l)].
Proof.
  unfold dict_keys. induction d as [|[k' v] d IH]; simpl; [done|].
  rewrite not_elem_of_cons. intros [? ?]. rewrite decide_False by done.
  by rewrite IH.
Qed.

Lemma dict_get_app (d1 d2 : dict) k :
  dict_get (d1 ++ d2) k =
  match dict_get d1 k with Some l => Some l | None => dict_get d2 k end.
Proof.
  induction d1 as [|[k' v] d1 IH]; simpl; [done|]. by case_decide.
Qed.

Lemma dict_get_snoc_ne (d : dict) k l k' :
  k' ≠ k → dict_get (d ++ [(k, l)]) k' = dict_get d k'.
Proof.
  intros. rewrite dict_get_app. destruct (dict_get d k'); [done|].
  simpl. by rewrite decide_False.
Qed.

Lemma dict_get_snoc_eq (d : dict) k l :
  k ∉ dict_keys d → dict_get (d ++ [(k, l)]) k = Some l.
Proof.
  intros H%dict_get_None. rewrite dict_get_app, H. simpl.
  by rewrite decide_True.
Qed.

Lemma wf_node_dom s k :
  wf_tree s → is_Some (node s k) ↔ 0 ≤ k ≤ inst_id s.
Proof.
  intros Hwf. unfold node. rewrite dict_get_is_Some, (wf_keys _ Hwf), elem_of_seqZ.
  lia.
Qed.

Lemma wf_node_inj s k1 k2 l :
  wf_tree s → node s k1 = Some l → node s k2 = Some l → k1 = k2.
Proof.
  intros Hwf H1 H2. rewrite <-(wf_id _ Hwf _ _ H1). by apply (wf_id _ Hwf).
Qed.

Lemma join_ne (a b : string) : valid_name b = true → join a b ≠ a.
Proof.
  unfold valid_name, join. intros [Hne Hs]%andb_true_iff.
  apply negb_true_iff in Hs. rewrite Hs.
  apply negb_true_iff, bool_decide_eq_false in Hne.
  assert (Hlen : ∀ x y : string, y ≠ "" → x +:+ y ≠ x).
  { intros x y Hy. induction x as [|c x IH]; simpl; [done|].
    intros [= Heq]. by apply IH. }
  destruct (_ || _); [by apply Hlen|].
  apply Hlen. done.
Qed.

Ltac mon_simpl :=
  cbn [heap sim_inst_dict sim_inst_parent_dict sim_tree cwd inst_id
       max_concurrent_jobs next_loc module_dict modify set_heap
       set_sim_inst_dict set_sim_inst_parent_dict set_sim_tree set_inst_id
       alloc fst snd mbind result_bind from_option] in *.

Ltac heap_simpl :=
  repeat first
    [ rewrite heap_upd_eq
    | rewrite heap_upd_ne by (first [done | congruence | lia]) ].

(** ** The invariant of the tree builder *)



Section Builder.
Context {World : Type}.
Variable fnmatch : string → string → bool.
Variable listdir : World → string → list entry.
Variable sim_get_status : World → task → Status * Z * Z.


Lemma register_child_spec base fullpath l s s' p :
  sim_inst_parent_dict s !! base = Some p → fullpath ≠ base → p ≠ l →
  register_child base fullpath l s = Ok s' →
  ∃ H', s' = mkSiMon (module_dict s) (sim_inst_dict s)
               (<[fullpath := l]> (sim_inst_parent_dict s)) (sim_tree s)
               (cwd s) (inst_id s) (max_concurrent_jobs s) H' (next_loc s)
    ∧ H' l = SimulationTask.set_parent_id (SimulationTask.id (heap s p))
               (SimulationTask.set_level (SimulationTask.level (heap s p) + 1)
                  (heap s l))
    ∧ H' p = SimulationTask.set_restarts
               (SimulationTask.restarts (heap s p) ++ [l]) (heap s p)
    ∧ ∀ x, x ≠ l → x ≠ p → H' x = heap s x.
Proof.
  intros Hp Hne Hpl. unfold register_child, parent_at. simpl.
  rewrite Hp. simpl.
  rewrite lookup_insert_ne by done. rewrite Hp. simpl.
  intros [= <-]. eexists. split; [reflexivity|]. mon_simpl.
  repeat split; [| |intros x ? ?]; heap_simpl; done.
Qed.

Lemma mirror_status_spec w l s s' q :
  node s (SimulationTask.parent_id (heap s l)) = Some q → q ≠ l →
  mirror_status sim_get_status w l s = Ok s' →
  let c := SimulationTask.set_t_max_extended (sim_get_status w (heap s l)).2
             (SimulationTask.set_t (sim_get_status w (heap s l)).1.2
                (SimulationTask.set_status (sim_get_status w (heap s l)).1.1
                   (heap s l))) in
  ∃ H', s' = mkSiMon (module_dict s) (sim_inst_dict s)
               (sim_inst_parent_dict s) (sim_tree s)
               (cwd s) (inst_id s) (max_concurrent_jobs s) H' (next_loc s)
    ∧ H' l = c
    ∧ H' q = SimulationTask.set_status (SimulationTask.status c) (heap s q)
    ∧ ∀ x, x ≠ l → x ≠ q → H' x = heap s x.
Proof.
  intros Hq Hql. unfold mirror_status, inst_at, probe, node in *.
  destruct (sim_get_status w (heap s l)) as [[st tt] tm] eqn:E. simpl.
  heap_simpl. simpl. rewrite Hq. simpl.
  intros [= <-]. eexists. split; [reflexivity|]. mon_simpl.
  repeat split; [| |intros x ? ?]; heap_simpl; done.
Qed.

Lemma nominate_spec err l s s' q :
  node s (SimulationTask.parent_id (heap s l)) = Some q → q ≠ l →
  nominate err l s = Ok s' →
  ∃ H', s' = mkSiMon (module_dict s) (sim_inst_dict s)
               (sim_inst_parent_dict s) (sim_tree s)
               (cwd s) (inst_id s) (max_concurrent_jobs s) H' (next_loc s)
    ∧ H' q = (if (SimulationTask.t (heap s q) <? SimulationTask.t (heap s l))
                 && negb err
              then SimulationTask.set_t_max_extended
                     (SimulationTask.t_max_extended (heap s l))
                     (SimulationTask.set_cid (SimulationTask.id (heap s l))
                        (heap s q))
              else heap s q)
    ∧ ∀ x, x ≠ q → H' x = heap s x.
Proof.
  intros Hq Hql. unfold nominate, inst_at, node in *. rewrite Hq. simpl.
  destruct (_ && _) eqn:E.
  - simpl. heap_simpl. rewrite Hq. simpl.
    intros [= <-]. eexists. split; [reflexivity|]. mon_simpl.
    split; [|intros x ?]; heap_simpl; done.
  - intros [= <-]. exists (heap s). by destruct s.
Qed.

Lemma visit_Dir w pattern base filename conf nice err sub s s' p kp :
  wf_tree s →
  sim_inst_parent_dict s !! base = Some p →
  node s kp = Some p →
  valid_name filename = true →
  fnmatch filename pattern = true →
  visit fnmatch sim_get_status w pattern base (Dir filename conf nice err sub) s
    = Ok s' →
  registers sim_get_status w base filename nice err p kp s s'.
Proof.
  intros Hwf Hp Hkp Hname Hmatch Hv.
  assert (Hfresh : inst_id s + 1 ∉ dict_keys (sim_inst_dict s)).
  { rewrite (wf_keys _ Hwf), elem_of_seqZ. lia. }
  assert (Hlp : p ≠ next_loc s).
  { pose proof (wf_fresh _ Hwf _ _ Hkp). lia. }
  assert (Hidp : SimulationTask.id (heap s p) = kp) by by apply (wf_id _ Hwf).
  assert (Hkpne : kp ≠ inst_id s + 1).
  { intros ->. apply Hfresh. by eapply dict_get_Some_key. }
  unfold visit in Hv. rewrite Hmatch in Hv.
  apply bind_Ok in Hv as (oi & Hmk & Hv).
  destruct oi as [o|]; [|discriminate].
  assert (Ho : o = SimulationTask.set_niceness nice
                 (SimulationTask.init (inst_id s + 1) filename
                    (join base filename) STATUS_NEW)).
  { unfold make_instance in Hmk. destruct conf; simplify_eq/=.
    case_bool_decide; by simplify_eq/=. }
  subst o. clear Hmk.
  unfold new_instance in Hv. mon_simpl.
  rewrite dict_set_fresh in Hv by done.
  apply bind_Ok in Hv as (s1 & H1 & Hv).
  apply (register_child_spec _ _ _ _ _ p) in H1
    as (h1 & -> & H1l & H1p & H1f); mon_simpl;
    [|done|by apply join_ne|done].
  revert H1l H1p. heap_simpl. intros H1l H1p.
  apply bind_Ok in Hv as (s2 & H2 & Hv).
  assert (Hq : ∀ h, node (mkSiMon (module_dict s)
                   (sim_inst_dict s ++ [(inst_id s + 1, next_loc s)])
                   (<[join base filename:=next_loc s]> (sim_inst_parent_dict s))
                   (sim_tree s) (cwd s) (inst_id s + 1) (max_concurrent_jobs s)
                   h (S (next_loc s))) kp = Some p).
  { intros h. unfold node. mon_simpl. by rewrite dict_get_snoc_ne. }
  eapply (mirror_status_spec _ _ _ _ p) in H2; mon_simpl;
    [|rewrite H1l; simpl; rewrite Hidp; apply Hq|done].
  destruct H2 as (h2 & -> & H2l & H2p & H2f).
  eapply (nominate_spec _ _ _ _ p) in Hv; mon_simpl;
    [|rewrite H2l, H1l; simpl; rewrite Hidp; apply Hq|done].
  destruct Hv as (h3 & -> & H3p & H3f).
  split; mon_simpl; try done.
  - intros x ? ?. rewrite H3f, H2f, H1f by done. by heap_simpl.
  - rewrite H3f, H2l, H1l by done. by rewrite Hidp.
  - rewrite H3p, (H3f (next_loc s)), H2p, H2l, H1l, H1p by done.
    reflexivity.
Qed.

Section registers_facts.
Context {w : World} {base filename : string} {nice : Z} {err : bool}
        {p : loc} {kp : Z} {s s' : SiMon}.
Hypothesis Hwf : wf_tree s.
Hypothesis Hkp : node s kp = Some p.
Hypothesis Hreg : registers sim_get_status w base filename nice err p kp s s'.

Lemma reg_node x y :
  node s' x = Some y ↔
  (x = inst_id s + 1 ∧ y = next_loc s) ∨ (x ≠ inst_id s + 1 ∧ node s x = Some y).
Proof.
  unfold node. rewrite (reg_dict _ _ _ _ _ _ _ _ _ _ Hreg).
  assert (Hfresh : inst_id s + 1 ∉ dict_keys (sim_inst_dict s)).
  { rewrite (wf_keys _ Hwf), elem_of_seqZ. lia. }
  destruct (decide (x = inst_id s + 1)) as [->|Hx].
  - rewrite dict_get_snoc_eq by done. naive_solver.
  - rewrite dict_get_snoc_ne by done. naive_solver.
Qed.

Lemma reg_old_ne x y : node s x = Some y → y ≠ next_loc s ∧ x ≠ inst_id s + 1.
Proof.
  intros Hy. split.
  - pose proof (wf_fresh _ Hwf _ _ Hy). lia.
  - assert (is_Some (node s x)) as Hd%wf_node_dom by eauto; [lia|done].
Qed.

Lemma reg_new_fields :
  SimulationTask.id (heap s' (next_loc s)) = inst_id s + 1
  ∧ SimulationTask.parent_id (heap s' (next_loc s)) = kp
  ∧ SimulationTask.level (heap s' (next_loc s))
    = SimulationTask.level (heap s p) + 1
  ∧ SimulationTask.cid (heap s' (next_loc s)) = -1.
Proof. by rewrite (reg_new _ _ _ _ _ _ _ _ _ _ Hreg). Qed.

Lemma reg_parent_fields :
  SimulationTask.id (heap s' p) = SimulationTask.id (heap s p)
  ∧ SimulationTask.parent_id (heap s' p) = SimulationTask.parent_id (heap s p)
  ∧ SimulationTask.level (heap s' p) = SimulationTask.level (heap s p)
  ∧ SimulationTask.t (heap s' p) = SimulationTask.t (heap s p)
  ∧ (SimulationTask.cid (heap s' p) = SimulationTask.cid (heap s p)
     ∨ SimulationTask.cid (heap s' p) = inst_id s + 1
       ∧ SimulationTask.t (heap s p) < SimulationTask.t (heap s' (next_loc s))).
Proof.
  rewrite (reg_parent _ _ _ _ _ _ _ _ _ _ Hreg).
  destruct (_ && _) eqn:E; simpl; [|by auto 10].
  apply andb_true_iff in E as [E%Z.ltb_lt _]. auto 10.
Qed.

Lemma reg_old_fields x y :
  node s x = Some y →
  SimulationTask.id (heap s' y) = SimulationTask.id (heap s y)
  ∧ SimulationTask.parent_id (heap s' y) = SimulationTask.parent_id (heap s y)
  ∧ SimulationTask.level (heap s' y) = SimulationTask.level (heap s y)
  ∧ SimulationTask.t (heap s' y) = SimulationTask.t (heap s y)
  ∧ (SimulationTask.cid (heap s' y) = SimulationTask.cid (heap s y)
     ∨ y = p ∧ SimulationTask.cid (heap s' y) = inst_id s + 1
       ∧ SimulationTask.t (heap s y) < SimulationTask.t (heap s' (next_loc s))).
Proof.
  intros Hy. destruct (reg_old_ne _ _ Hy) as [Hl _].
  destruct (decide (y = p)) as [->|Hp].
  - pose proof reg_parent_fields. naive_solver.
  - rewrite (reg_frame _ _ _ _ _ _ _ _ _ _ Hreg) by done. auto 10.
Qed.

Lemma registers_wf : wf_tree s'.
Proof.
  pose proof (wf_inst_id _ Hwf) as Hn.
  destruct reg_new_fields as (Nid & Npar & Nlev & Ncid).
  assert (Hkp' : 0 ≤ kp ≤ inst_id s).
  { apply wf_node_dom; eauto. }
  assert (Hold : ∀ x y, node s x = Some y → node s' x = Some y).
  { intros x y Hy. apply reg_node. right. split; [|done].
    by eapply reg_old_ne. }
  split.
  - rewrite (reg_dict _ _ _ _ _ _ _ _ _ _ Hreg), (reg_inst_id _ _ _ _ _ _ _ _ _ _ Hreg).
    unfold dict_keys. rewrite fmap_app, seqZ_app by lia.
    fold (dict_keys (sim_inst_dict s)). rewrite (wf_keys _ Hwf).
    by f_equal.
  - rewrite (reg_inst_id _ _ _ _ _ _ _ _ _ _ Hreg). lia.
  - intros x y [[-> ->]|[_ Hy]]%reg_node;
      rewrite (reg_next _ _ _ _ _ _ _ _ _ _ Hreg); [lia|].
    pose proof (wf_fresh _ Hwf _ _ Hy). lia.
  - rewrite (reg_tree _ _ _ _ _ _ _ _ _ _ Hreg). apply Hold, (wf_root _ Hwf).
  - intros x y [[-> ->]|[_ Hy]]%reg_node; [done|].
    destruct (reg_old_fields _ _ Hy) as (-> & _). by apply (wf_id _ Hwf).
  - intros x y [[-> ->]|[_ Hy]]%reg_node.
    + rewrite Nlev. pose proof (wf_level _ Hwf _ _ Hkp). lia.
    + destruct (reg_old_fields _ _ Hy) as (_ & _ & -> & _).
      by apply (wf_level _ Hwf _ _ Hy).
  - intros x y [[-> ->]|[Hx Hy]]%reg_node Hx0.
    + exists p. rewrite Npar, Nlev. split; [lia|]. split; [by apply Hold|].
      by destruct (reg_old_fields _ _ Hkp) as (_ & _ & -> & _).
    + destruct (wf_parent _ Hwf _ _ Hy Hx0) as (q & Hq1 & Hq2 & Hq3).
      destruct (reg_old_fields _ _ Hy) as (_ & -> & -> & _).
      exists q. split; [done|]. split; [by apply Hold|].
      by destruct (reg_old_fields _ _ Hq2) as (_ & _ & -> & _).
  - intros x y [[-> ->]|[Hx Hy]]%reg_node Hc; [done|].
    destruct (reg_old_fields _ _ Hy) as (_ & _ & _ & Ht & [Hcid|(-> & Hcid & Hlt)]).
    + rewrite Hcid in Hc |- *. rewrite Ht.
      destruct (wf_cid _ Hwf _ _ Hy Hc) as (c & Hc1 & Hc2 & Hc3 & Hc4).
      exists c. split; [done|]. split; [by apply Hold|].
      by destruct (reg_old_fields _ _ Hc2) as (_ & -> & _ & -> & _).
    + rewrite Hcid, Ht. exists (next_loc s).
      assert (x = kp) as -> by by eapply wf_node_inj.
      split; [lia|]. split; [apply reg_node; by left|]. done.
Qed.

Lemma registers_registered path :
  registered s path → registered s' path.
Proof.
  intros (l & k & Hl & Hk). unfold registered.
  rewrite (reg_paths _ _ _ _ _ _ _ _ _ _ Hreg).
  destruct (decide (join base filename = path)) as [<-|Hne].
  - exists (next_loc s), (inst_id s + 1). rewrite lookup_insert_eq.
    split; [done|]. apply reg_node. by left.
  - exists l, k. rewrite lookup_insert_ne by done. split; [done|].
    apply reg_node. right. split; [|done]. by eapply reg_old_ne.
Qed.

Lemma registers_new_registered : registered s' (join base filename).
Proof.
  exists (next_loc s), (inst_id s + 1).
  rewrite (reg_paths _ _ _ _ _ _ _ _ _ _ Hreg), lookup_insert_eq.
  split; [done|]. apply reg_node. by left.
Qed.

End registers_facts.

Lemma insert_sorted_perm e es : insert_sorted e es ≡ₚ e :: es.
Proof.
  induction es as [|e' es IH]; simpl; [done|].
  case_match; [done|]. by rewrite IH, Permutation_swap.
Qed.

Lemma sorted_perm es : sorted es ≡ₚ es.
Proof.
  unfold sorted. rewrite <-(app_nil_l es) at 2. generalize (@nil entry).
  induction es as [|e es IH]; intros acc; simpl.
  - by rewrite app_nil_r.
  - rewrite IH, insert_sorted_perm. simpl. apply Permutation_middle.
Qed.

(** The invariant of the scan over one directory listing. *)
Lemma visit_wf w pattern base e s s' :
  (∀ n, fnmatch n pattern = true) →
  wf_tree s → registered s base → valid_entry e = true →
  visit fnmatch sim_get_status w pattern base e s = Ok s' →
  wf_tree s'
  ∧ (∀ path, registered s path → registered s' path)
  ∧ registered s' (match e with
                   | File _ => base
                   | Dir n _ _ _ _ => join base n
                   end).
Proof.
  intros Hmatch Hwf Hbase Hvalid Hv. destruct e as [n|n conf nice err sub].
  - simpl in Hv. by simplify_eq.
  - destruct Hbase as (p & kp & Hp & Hkp).
    simpl in Hvalid. apply andb_true_iff in Hvalid as [Hn _].
    pose proof (visit_Dir _ _ _ _ _ _ _ _ _ _ _ _ Hwf Hp Hkp Hn (Hmatch n) Hv)
      as Hreg.
    split; [by eapply registers_wf|].
    split; [intros path; by eapply registers_registered|].
    by eapply registers_new_registered.
Qed.

Lemma visit_all_wf w pattern base es s s' :
  (∀ n, fnmatch n pattern = true) →
  wf_tree s → registered s base → Forall (λ e, valid_entry e = true) es →
  for_each (visit fnmatch sim_get_status w pattern base) es s = Ok s' →
  wf_tree s'
  ∧ (∀ path, registered s path → registered s' path)
  ∧ ∀ n conf nice err sub,
      Dir n conf nice err sub ∈ es → registered s' (join base n).
Proof.
  intros Hmatch Hwf Hbase Hvalid. revert s Hwf Hbase.
  induction Hvalid as [|e es He Hes IH]; intros s Hwf Hbase Hv; simpl in Hv.
  - simplify_eq. split; [done|]. split; [done|].
    intros ????? []%elem_of_nil.
  - apply bind_Ok in Hv as (s1 & H1 & Hv).
    destruct (visit_wf _ _ _ _ _ _ Hmatch Hwf Hbase He H1) as (Hwf1 & Hm1 & Hr1).
    destruct (IH s1 Hwf1 (Hm1 _ Hbase) Hv) as (Hwf' & Hm' & Hr').
    split; [done|]. split; [by auto|].
    intros n conf nice err sub [<-|Hin]%elem_of_cons; [by apply Hm'|eauto].
Qed.

Lemma traverse_wf w pattern base files s s' :
  (∀ n, fnmatch n pattern = true) →
  wf_tree s → registered s base → Forall (λ e, valid_entry e = true) files →
  traverse_simulation_dir_tree fnmatch sim_get_status w pattern base files s
    = Ok s' →
  wf_tree s'
  ∧ (∀ path, registered s path → registered s' path)
  ∧ ∀ n conf nice err sub,
      Dir n conf nice err sub ∈ files → registered s' (join base n).
Proof.
  intros Hmatch Hwf Hbase Hvalid Hv. unfold traverse_simulation_dir_tree in Hv.
  apply visit_all_wf in Hv as (? & ? & Hr); try done.
  - split; [done|]. split; [done|]. intros n c ni er sb Hin.
    eapply Hr. rewrite sorted_perm. exact Hin.
  - by rewrite sorted_perm.
Qed.


Lemma walk_entry_Dir w pattern top n conf nice err sub s :
  walk_entry fnmatch sim_get_status w pattern top (Dir n conf nice err sub) s =
  traverse_simulation_dir_tree fnmatch sim_get_status w pattern (join top n) sub s
  ≫= for_each (walk_entry fnmatch sim_get_status w pattern (join top n)) sub.
Proof.
  simpl. destruct (traverse_simulation_dir_tree _ _ _ _ _ _ _) as [s1|]; [|done].
  simpl. generalize s1. clear.
  induction sub as [|e l IH]; intros s2; simpl; [done|].
  destruct (walk_entry _ _ _ _ _ e s2); simpl; [apply IH|done].
Qed.

Lemma valid_entry_Dir n conf nice err sub :
  valid_entry (Dir n conf nice err sub) = true →
  valid_name n = true ∧ Forall (λ e, valid_entry e = true) sub.
Proof.
  simpl. intros [? Hs]%andb_true_iff. split; [done|].
  apply Forall_forall. intros e He. rewrite forallb_forall in Hs.
  apply Hs. by apply list_elem_of_In.
Qed.



Lemma walk_all_wf w pattern top l s s' :
  Forall (walk_ok fnmatch sim_get_status w pattern) l →
  Forall (λ e, valid_entry e = true) l →
  wf_tree s → (∀ e, e ∈ l → dir_registered s top e) →
  for_each (walk_entry fnmatch sim_get_status w pattern top) l s = Ok s' →
  wf_tree s' ∧ (∀ path, registered s path → registered s' path).
Proof.
  intros Hok. revert s.
  induction Hok as [|e l He Hl IH]; intros s Hvalid Hwf Hreg Hw; simpl in Hw.
  - by simplify_eq.
  - apply bind_Ok in Hw as (s1 & H1 & Hw).
    apply Forall_cons in Hvalid as [Hve Hvl].
    destruct (He top s s1 Hwf Hve) as [Hwf1 Hm1]; [apply Hreg; left|done|].
    destruct (IH s1 Hvl Hwf1) as [Hwf' Hm']; [|done|by auto].
    intros e' He'. specialize (Hreg e' (list_elem_of_further _ _ _ He')).
    destruct e'; simpl in *; auto.
Qed.

Lemma walk_entry_wf w pattern e :
  (∀ n, fnmatch n pattern = true) → walk_ok fnmatch sim_get_status w pattern e.
Proof.
  intros Hmatch. induction e as [n|n conf nice err sub IH] using entry_tree_ind;
    intros top s s' Hwf Hvalid Hreg Hw.
  - simpl in Hw. by simplify_eq.
  - rewrite walk_entry_Dir in Hw. apply bind_Ok in Hw as (s1 & H1 & Hw).
    apply valid_entry_Dir in Hvalid as [_ Hsub]. simpl in Hreg.
    apply traverse_wf in H1 as (Hwf1 & Hm1 & Hr1); [|done..].
    apply walk_all_wf in Hw as [Hwf' Hm']; [by auto|done..|].
    intros [|n' c' ni' er' sb'] Hin; simpl; eauto.
Qed.

Lemma strip_root_registered s :
  strip (cwd s) = cwd s →
  let s0 := set_sim_inst_dict [] s in
  let s1 := (alloc (SimulationTask.init 0 "root" (cwd s0) STATUS_NEW) s0).2 in
  let s2 := set_sim_tree (next_loc s) s1 in
  let s3 := set_sim_inst_dict (dict_set (sim_inst_dict s2) 0 (sim_tree s2)) s2 in
  let s4 := set_sim_inst_parent_dict
              (<[strip (cwd s3) := sim_tree s3]> (sim_inst_parent_dict s3)) s3 in
  let s5 := set_inst_id 0 s4 in
  wf_tree s5 ∧ registered s5 (cwd s5).
Proof.
  intros Hstrip. mon_simpl. split.
  - split; unfold node; mon_simpl; simpl.
    + done.
    + done.
    + intros k l. case_decide; [|done]. intros [= <-]. lia.
    + done.
    + intros k l. case_decide; [|done]. intros [= <-]. by heap_simpl.
    + intros k l. case_decide; [|done]. intros [= <-]. by heap_simpl.
    + intros k l. case_decide; [|done]. by intros [= <-].
    + intros k l. case_decide; [|done]. intros [= <-]. by heap_simpl.
  - exists (next_loc s), 0. unfold node. mon_simpl. rewrite Hstrip.
    rewrite lookup_insert_eq. done.
Qed.

Lemma build_scan_wf w s s' :
  (∀ n, fnmatch n "*" = true) →
  strip (cwd s) = cwd s →
  Forall (λ e, valid_entry e = true) (listdir w (cwd s)) →
  build_scan fnmatch listdir sim_get_status w s = Ok s' →
  wf_tree s'.
Proof.
  intros Hmatch Hstrip Hvalid Hb. unfold build_scan in Hb.
  destruct (strip_root_registered _ Hstrip) as [Hwf0 Hreg0].
  mon_simpl. unfold os_path_walk in Hb. mon_simpl.
  apply bind_Ok in Hb as (s1 & H1 & Hb).
  apply traverse_wf in H1 as (Hwf1 & Hm1 & Hr1); [|done..].
  apply walk_all_wf in Hb as [Hwf' _]; [done| |done..|].
  - apply Forall_forall. intros e _. by apply walk_entry_wf.
  - intros [|n' c' ni' er' sb'] Hin; simpl; eauto.
Qed.

End Builder.

(** ** The iteration on statuses *)


Section Propagation.
Variable par : Z → Z.
Hypothesis par_lt : ∀ k, 1 ≤ k → par k < k.

Implicit Types σ : Z → Status.

Lemma prop_step_status m σ k x :
  (prop_step par (m, σ) k).2 x =
  if bool_decide (k ≠ 0) && run_or_done (σ k) && bool_decide (0 < par k)
     && bool_decide (x = par k)
  then σ k else σ x.
Proof.
  unfold prop_step. simpl. case_bool_decide as Hk; simpl.
  { rewrite (bool_decide_false (k ≠ 0)) by naive_solver. done. }
  rewrite (bool_decide_true (k ≠ 0)) by done. simpl.
  destruct (run_or_done (σ k)); simpl; [|done].
  case_bool_decide as Hp; simpl; [|done].
  case_bool_decide as Hne; simpl.
  - case_bool_decide as Hx; [subst; by rewrite fn_lookup_insert|].
    by rewrite fn_lookup_insert_ne.
  - case_bool_decide as Hx; [|done]. by subst.
Qed.

Lemma prop_step_flag m σ k :
  (prop_step par (m, σ) k).1 =
  m || (bool_decide (k ≠ 0) && run_or_done (σ k) && bool_decide (0 < par k)
        && bool_decide (σ (par k) ≠ σ k)).
Proof.
  unfold prop_step. simpl. case_bool_decide as Hk; simpl.
  { rewrite (bool_decide_false (k ≠ 0)) by naive_solver. by rewrite orb_false_r. }
  rewrite (bool_decide_true (k ≠ 0)) by done. simpl.
  destruct (_ && _ && _); simpl; [by rewrite orb_true_r | by rewrite orb_false_r].
Qed.


Lemma upto_S j σ :
  upto par (S j) σ = prop_step par (upto par j σ) (Z.of_nat j).
Proof. unfold upto. by rewrite seqZ_S, foldl_app. Qed.


Lemma upto_spec j σ :
  (* ids not yet visited are untouched *)
  (∀ x, Z.of_nat j ≤ x + 1 → (upto par j σ).2 x = σ x)
  (* a status that is RUNNING or DONE stays so *)
  ∧ (∀ x, run_or_done (σ x) = true → run_or_done ((upto par j σ).2 x) = true)
  (* the parents of the RUNNING or DONE ids visited are RUNNING or DONE *)
  ∧ (∀ k, 1 ≤ k < Z.of_nat j → run_or_done (σ k) = true → 0 < par k →
       run_or_done ((upto par j σ).2 (par k)) = true)
  (* whatever has become RUNNING or DONE is such a parent *)
  ∧ (∀ x, run_or_done ((upto par j σ).2 x) = true →
       run_or_done (σ x) = true
       ∨ ∃ c, 1 ≤ c < Z.of_nat j ∧ par c = x ∧ 0 < x ∧ run_or_done (σ c) = true)
  (* the flag is raised exactly when a visited id was unstable par *)
  ∧ ((upto par j σ).1 = false →
       (∀ x, (upto par j σ).2 x = σ x)
       ∧ ∀ k, 1 ≤ k < Z.of_nat j → ¬ unstable par σ k)
  ∧ ((∀ k, 1 ≤ k < Z.of_nat j → ¬ unstable par σ k) → (upto par j σ).1 = false)
  (* a status absent from the non-root ids stays absent *)
  ∧ (∀ y, (∀ x, 1 ≤ x → σ x ≠ y) → ∀ x, 1 ≤ x → (upto par j σ).2 x ≠ y).
Proof.
  induction j as [|j (I1 & I2 & I3 & I4 & I5 & I6 & I7)].
  { unfold upto. simpl. repeat split; auto; intros; lia. }
  rewrite upto_S. destruct (upto par j σ) as [m τ] eqn:E. simpl in *.
  assert (Hj : τ (Z.of_nat j) = σ (Z.of_nat j)) by (apply I1; lia).
  assert (Hmono : ∀ x, run_or_done (τ x) = true →
            run_or_done ((prop_step par (m, τ) (Z.of_nat j)).2 x) = true).
  { intros x Hx. rewrite prop_step_status.
    destruct (bool_decide (Z.of_nat j ≠ 0) && run_or_done (τ (Z.of_nat j))) eqn:E1;
      simpl; [|done].
    apply andb_true_iff in E1 as [_ E1]. by repeat case_bool_decide. }
  split; [|split; [|split; [|split; [|split; [|split]]]]].
  - intros x Hx. rewrite prop_step_status.
    destruct (decide (1 ≤ Z.of_nat j)) as [Hj1|Hj0].
    + pose proof (par_lt _ Hj1).
      rewrite (bool_decide_false (x = _)) by lia.
      rewrite andb_false_r. apply I1. lia.
    + rewrite (bool_decide_false (Z.of_nat j ≠ 0)) by lia. simpl. apply I1. lia.
  - intros x Hx. by apply Hmono, I2.
  - intros k Hk Hrd Hp.
    destruct (decide (k = Z.of_nat j)) as [->|Hne].
    + rewrite prop_step_status.
      rewrite bool_decide_true by lia. rewrite Hj, Hrd.
      rewrite !bool_decide_true by done. done.
    + apply Hmono, I3; [lia|done..].
  - intros x. rewrite prop_step_status.
    destruct (bool_decide (Z.of_nat j ≠ 0) && run_or_done (τ (Z.of_nat j))
              && bool_decide (0 < par (Z.of_nat j))
              && bool_decide (x = par (Z.of_nat j))) eqn:E1.
    + apply andb_true_iff in E1 as [E1 Hx%bool_decide_eq_true].
      apply andb_true_iff in E1 as [E1 Hp%bool_decide_eq_true].
      apply andb_true_iff in E1 as [Hj0%bool_decide_eq_true Hrd].
      intros _. right. exists (Z.of_nat j). rewrite <-Hj. split; [lia|].
      split; [done|]. split; [lia|done].
    + intros [?|(c & ? & ? & ? & ?)]%I4; [by left|].
      right. exists c. split; [lia|done].
  - rewrite prop_step_flag. intros [-> Hc]%orb_false_iff.
    destruct (I5 eq_refl) as [I5a I5b]. split.
    + intros x. rewrite prop_step_status.
      destruct (bool_decide (Z.of_nat j ≠ 0) && run_or_done (τ (Z.of_nat j))
                && bool_decide (0 < par (Z.of_nat j))) eqn:E1;
        simpl in *; [|apply I5a].
      apply bool_decide_eq_false, dec_stable in Hc.
      destruct (decide (x = par (Z.of_nat j))) as [->|Hx].
      * rewrite bool_decide_true by done. rewrite <-Hc. apply I5a.
      * rewrite bool_decide_false by done. apply I5a.
    + intros k Hk Hun.
      destruct (decide (k = Z.of_nat j)) as [->|Hne]; [|apply (I5b k); [lia|done]].
      destruct Hun as (Hrd & Hp & Hne).
      rewrite !I5a, Hrd in Hc. rewrite !bool_decide_true in Hc by (done || lia).
      done.
  - intros Hst. rewrite prop_step_flag.
    rewrite I6 by (intros k ?; apply Hst; lia). simpl.
    destruct (I5 (I6 (λ k Hk, Hst k ltac:(lia)))) as [I5a _].
    apply not_true_is_false. intros Hc.
    apply andb_true_iff in Hc as [Hc Hne%bool_decide_eq_true].
    apply andb_true_iff in Hc as [Hc Hp%bool_decide_eq_true].
    apply andb_true_iff in Hc as [Hj0%bool_decide_eq_true Hrd].
    apply (Hst (Z.of_nat j)); [lia|]. rewrite !I5a in *. by repeat split.
  - intros y Hy x Hx. rewrite prop_step_status.
    destruct (_ && _ && _ && _) eqn:E1; [|by apply I7].
    apply andb_true_iff in E1 as [E1 _].
    apply andb_true_iff in E1 as [E1 _].
    apply andb_true_iff in E1 as [Hj0%bool_decide_eq_true _].
    apply I7; [done|lia].
Qed.

Variable n : nat.
Variable lev : Z → Z.
Hypothesis par_ge : ∀ k, 1 ≤ k < Z.of_nat n → 0 ≤ par k.
Hypothesis lev_par : ∀ k, 1 ≤ k < Z.of_nat n → lev k = lev (par k) + 1.
Hypothesis lev_ge : ∀ k, 0 ≤ k < Z.of_nat n → 0 ≤ lev k.


Lemma deficient_ext σ τ k :
  (∀ x, τ x = σ x) → deficient par n τ k → deficient par n σ k.
Proof. unfold deficient. intros H. by rewrite !H. Qed.

Lemma deficient_lev σ k : deficient par n σ k → 2 ≤ lev k.
Proof.
  intros (Hk & _ & Hp & _). pose proof (par_lt k ltac:(lia)).
  pose proof (par_lt (par k) ltac:(lia)).
  pose proof (par_ge (par k) ltac:(lia)).
  rewrite (lev_par k), (lev_par (par k)) by lia.
  pose proof (lev_ge (par (par k)) ltac:(lia)). lia.
Qed.

Lemma deficient_unstable σ k : deficient par n σ k → unstable par σ k.
Proof.
  intros (Hk & Hrd & Hp & Hrdp). repeat split; [done..|].
  intros Heq. rewrite Heq in Hrdp. congruence.
Qed.

Lemma pass_deficient σ x :
  deficient par n (prop_pass par n σ).2 x → ∃ c, par c = x ∧ deficient par n σ c.
Proof.
  intros (Hx & Hrd & Hp & Hrdp).
  destruct (upto_spec n σ) as (_ & _ & I3 & I4 & _).
  fold (prop_pass par n σ) in *.
  destruct (I4 _ Hrd) as [Hrd0|(c & Hc & Hpc & Hx0 & Hrdc)].
  - rewrite I3 in Hrdp; [done|lia|done..].
  - exists c. split; [done|]. split; [lia|]. split; [done|].
    split; [lia|]. subst x.
    destruct (run_or_done (σ (par c))) eqn:E; [|done].
    rewrite I3 in Hrdp; [done|lia|done..].
Qed.

Lemma pass_bound σ B :
  (∀ k, deficient par n σ k → lev k ≤ B) →
  ∀ k, deficient par n (prop_pass par n σ).2 k → lev k ≤ B - 1.
Proof.
  intros HB k Hk. destruct (pass_deficient _ _ Hk) as (c & <- & Hc).
  specialize (HB _ Hc). destruct Hc as (Hc & _). rewrite (lev_par c) in HB; lia.
Qed.

Lemma pass_unmodified σ :
  (prop_pass par n σ).1 = false →
  (∀ x, (prop_pass par n σ).2 x = σ x) ∧ ∀ k, ¬ deficient par n σ k.
Proof.
  intros Hm. destruct (upto_spec n σ) as (_ & _ & _ & _ & I5 & _).
  destruct (I5 Hm) as [Heq Hst]. split; [done|].
  intros k Hk. apply (Hst k); [apply Hk|by apply deficient_unstable].
Qed.

(** The closure: after the loop, whatever the number of passes, a forest
    whose deficient par n ids sat at most [bound + 1] levels deep has none left. *)
Lemma loop_closure bound : ∀ max_iter σ B,
  (∀ k, deficient par n σ k → lev k ≤ B) → B ≤ Z.of_nat bound + 1 →
  ∀ k, ¬ deficient par n (prop_loop par n bound max_iter σ).2 k.
Proof.
  induction bound as [|bound IH]; intros max_iter σ B HB Hle k Hk; simpl in Hk.
  - pose proof (deficient_lev _ _ Hk). specialize (HB _ Hk). lia.
  - destruct (prop_pass par n σ) as [m σ'] eqn:E. destruct m.
    + eapply (IH (S max_iter) σ' (B - 1)); [|lia|exact Hk].
      intros k' Hk'. apply (pass_bound σ B HB). by rewrite E.
    + simpl in Hk. destruct (pass_unmodified σ) as [Heq Hno]; [by rewrite E|].
      rewrite E in Heq. by eapply Hno, deficient_ext.
Qed.

(** Convergence, when one of RUNNING and DONE is absent below the root. *)
Lemma run_or_done_iff st :
  run_or_done st = true ↔ st = STATUS_RUN ∨ st = STATUS_DONE.
Proof. destruct st; unfold run_or_done; simpl; split; intros; intuition congruence. Qed.

Lemma absent_stable σ y :
  (y = STATUS_RUN ∨ y = STATUS_DONE) →
  (∀ x, 1 ≤ x → σ x ≠ y) →
  (∀ k, ¬ deficient par n σ k) →
  ∀ k, 1 ≤ k < Z.of_nat n → ¬ unstable par σ k.
Proof.
  intros Hy Habs Hno k Hk (Hrd & Hp & Hne).
  destruct (run_or_done (σ (par k))) eqn:Hrdp; [|by apply (Hno k)].
  pose proof (Habs k ltac:(lia)) as H1.
  pose proof (Habs (par k) ltac:(lia)) as H2.
  apply run_or_done_iff in Hrd, Hrdp.
  destruct Hy, Hrd, Hrdp; congruence.
Qed.

Lemma loop_converges bound : ∀ max_iter σ B y,
  (y = STATUS_RUN ∨ y = STATUS_DONE) →
  (∀ x, 1 ≤ x → σ x ≠ y) →
  (∀ k, deficient par n σ k → lev k ≤ B) →
  B ≤ Z.of_nat bound → (1 ≤ bound)%nat →
  ∃ it σ', prop_loop par n bound max_iter σ = (it, false, σ')
           ∧ Z.of_nat it ≤ Z.of_nat max_iter + Z.max B 1.
Proof.
  induction bound as [|bound IH]; intros max_iter σ B y Hy Habs HB Hle Hb;
    [lia|].
  simpl. destruct (prop_pass par n σ) as [m σ'] eqn:E. destruct m.
  - assert (2 ≤ B) as HB2.
    { destruct (decide (2 ≤ B)) as [|HB1]; [done|]. exfalso.
      destruct (upto_spec n σ) as (_ & _ & _ & _ & _ & I6 & _).
      change (upto par n σ) with (prop_pass par n σ) in I6.
      rewrite E in I6. simpl in I6.
      enough (true = false) by done. apply I6.
      intros k Hk. apply (absent_stable σ y Hy Habs); [|lia].
      intros k' Hk'. pose proof (deficient_lev _ _ Hk').
      specialize (HB _ Hk'). lia. }
    destruct (IH (S max_iter) σ' (B - 1) y) as (it & σ'' & Heq & Hit);
      [done| | |lia|lia|].
    + destruct (upto_spec n σ) as (_ & _ & _ & _ & _ & _ & I7).
      change (upto par n σ) with (prop_pass par n σ) in I7.
      rewrite E in I7. by apply I7.
    + intros k Hk. apply (pass_bound σ B HB). by rewrite E.
    + exists it, σ''. split; [done|]. lia.
  - exists (S max_iter), σ'. split; [done|]. lia.
Qed.

End Propagation.

(** ** The propagator on a well-formed tree *)

Lemma same_shape_refl s : same_shape s s.
Proof.
  exists (heap s). split; [by destruct s|].
  intros l. exists (SimulationTask.status (heap s l)). by destruct (heap s l).
Qed.

Lemma same_shape_trans s1 s2 s3 :
  same_shape s1 s2 → same_shape s2 s3 → same_shape s1 s3.
Proof.
  intros (h & -> & H1) (h' & -> & H2). exists h'. split; [done|].
  intros l. destruct (H2 l) as [st ->]. simpl. destruct (H1 l) as [st' ->].
  by exists st.
Qed.

Lemma same_shape_modify s p st :
  same_shape s (modify p (SimulationTask.set_status st) s).
Proof.
  eexists. split; [reflexivity|]. intros l. unfold heap_upd.
  case_decide; subst; [by eexists|].
  exists (SimulationTask.status (heap s l)). by destruct (heap s l).
Qed.

Lemma same_shape_node s s' k : same_shape s s' → node s' k = node s k.
Proof. by intros (h & -> & _). Qed.

Lemma same_shape_fields s s' l :
  same_shape s s' →
  SimulationTask.id (heap s' l) = SimulationTask.id (heap s l)
  ∧ SimulationTask.parent_id (heap s' l) = SimulationTask.parent_id (heap s l)
  ∧ SimulationTask.level (heap s' l) = SimulationTask.level (heap s l)
  ∧ SimulationTask.cid (heap s' l) = SimulationTask.cid (heap s l)
  ∧ SimulationTask.t (heap s' l) = SimulationTask.t (heap s l).
Proof. intros (h & -> & H). simpl. by destruct (H l) as [st ->]. Qed.

Lemma same_shape_parent_of s s' k : same_shape s s' → parent_of s' k = parent_of s k.
Proof.
  intros H. unfold parent_of. rewrite (same_shape_node _ _ _ H).
  destruct (node s k); [|done]. by destruct (same_shape_fields _ _ l H) as (_ & -> & _).
Qed.

Lemma same_shape_level_of s s' k : same_shape s s' → level_of s' k = level_of s k.
Proof.
  intros H. unfold level_of. rewrite (same_shape_node _ _ _ H).
  destruct (node s k); [|done]. by destruct (same_shape_fields _ _ l H) as (_ & _ & -> & _).
Qed.

Lemma same_shape_wf s s' : same_shape s s' → wf_tree s → wf_tree s'.
Proof.
  intros H Hwf.
  assert (Hn : ∀ k, node s' k = node s k) by (intros; by apply same_shape_node).
  pose proof (λ l, same_shape_fields s s' l H) as Hf.
  destruct H as (h & -> & _).
  split; try setoid_rewrite Hn.
  - apply (wf_keys _ Hwf).
  - apply (wf_inst_id _ Hwf).
  - apply (wf_fresh _ Hwf).
  - apply (wf_root _ Hwf).
  - intros k l Hl. destruct (Hf l) as (-> & _). by apply (wf_id _ Hwf).
  - intros k l Hl. destruct (Hf l) as (_ & _ & -> & _). by apply (wf_level _ Hwf _ _ Hl).
  - intros k l Hl Hk. destruct (wf_parent _ Hwf _ _ Hl Hk) as (p & ? & ? & ?).
    destruct (Hf l) as (_ & -> & -> & _). exists p.
    by destruct (Hf p) as (_ & _ & -> & _).
  - intros k l Hl. destruct (Hf l) as (_ & _ & _ & -> & ->). intros Hc.
    destruct (wf_cid _ Hwf _ _ Hl Hc) as (c & ? & ? & ? & ?). exists c.
    by destruct (Hf c) as (_ & -> & _ & _ & ->).
Qed.

Lemma parent_of_lt s k : wf_tree s → 1 ≤ k → parent_of s k < k.
Proof.
  intros Hwf Hk. unfold parent_of. destruct (node s k) as [l|] eqn:E; [|lia].
  destruct (wf_parent _ Hwf _ _ E) as (p & ? & _); lia.
Qed.

Lemma parent_of_ge s k : wf_tree s → 1 ≤ k < inst_id s + 1 → 0 ≤ parent_of s k.
Proof.
  intros Hwf Hk. unfold parent_of. destruct (node s k) as [l|] eqn:E.
  - destruct (wf_parent _ Hwf _ _ E) as (p & ? & _); lia.
  - assert (is_Some (node s k)) as [? ?]; [apply wf_node_dom; [done|lia]|congruence].
Qed.

Lemma level_of_parent s k :
  wf_tree s → 1 ≤ k < inst_id s + 1 → level_of s k = level_of s (parent_of s k) + 1.
Proof.
  intros Hwf Hk. unfold level_of, parent_of.
  destruct (node s k) as [l|] eqn:E.
  - destruct (wf_parent _ Hwf _ _ E) as (p & ? & -> & ->); [lia|done].
  - assert (is_Some (node s k)) as [? ?]; [apply wf_node_dom; [done|lia]|congruence].
Qed.

Lemma level_of_ge s k : wf_tree s → 0 ≤ level_of s k.
Proof.
  intros Hwf. unfold level_of. destruct (node s k) as [l|] eqn:E; [|done].
  by apply (wf_level _ Hwf _ _ E).
Qed.

(** *** The propagator refines the iteration on statuses *)

Lemma prop_step_ext par m σ τ k :
  (∀ x, σ x = τ x) →
  (prop_step par (m, σ) k).1 = (prop_step par (m, τ) k).1
  ∧ ∀ x, (prop_step par (m, σ) k).2 x = (prop_step par (m, τ) k).2 x.
Proof.
  intros H. split; [|intros x].
  - by rewrite !prop_step_flag, !H.
  - by rewrite !prop_step_status, !H.
Qed.

Lemma sync_node_refines par s m σ k :
  wf_tree s → (∀ x, parent_of s x = par x) → (∀ x, status_of s x = σ x) →
  0 ≤ k ≤ inst_id s →
  ∃ s', sync_node k (m, s) = Ok ((prop_step par (m, σ) k).1, s')
        ∧ same_shape s s'
        ∧ ∀ x, status_of s' x = (prop_step par (m, σ) k).2 x.
Proof.
  intros Hwf Hpar' Hσ Hk.
  destruct (prop_step_ext par m σ (status_of s) k) as [-> Hext];
    [done|].
  setoid_rewrite Hext. clear Hext Hσ σ.
  unfold sync_node, prop_step. simpl. rewrite <-!Hpar'.
  case_bool_decide as Hk0.
  { exists s. split; [done|]. split; [apply same_shape_refl|done]. }
  assert (is_Some (node s k)) as [l Hl] by by apply wf_node_dom.
  unfold inst_at. fold (node s k). rewrite Hl. simpl.
  assert (Hst : status_of s k = SimulationTask.status (heap s l))
    by (unfold status_of; by rewrite Hl).
  assert (Hpar : parent_of s k = SimulationTask.parent_id (heap s l))
    by (unfold parent_of; by rewrite Hl).
  rewrite <-Hst, <-Hpar.
  destruct (run_or_done (status_of s k)); simpl;
    [|exists s; split; [done|]; split; [apply same_shape_refl|done]].
  case_bool_decide as Hp; simpl;
    [|exists s; split; [done|]; split; [apply same_shape_refl|done]].
  destruct (wf_parent _ Hwf _ _ Hl Hk0) as (p & Hrange & Hnp & _).
  rewrite <-Hpar in Hnp, Hrange. fold (node s (parent_of s k)). rewrite Hnp. simpl.
  assert (Hstp : status_of s (parent_of s k) = SimulationTask.status (heap s p))
    by (unfold status_of; by rewrite Hnp).
  rewrite <-Hstp.
  case_bool_decide as Hne; simpl;
    [|exists s; split; [done|]; split; [apply same_shape_refl|done]].
  eexists. split; [reflexivity|]. split; [apply same_shape_modify|].
  intros x. unfold status_of at 1. unfold node. simpl. fold (node s x).
  destruct (decide (x = parent_of s k)) as [->|Hx].
  - rewrite Hnp, heap_upd_eq, fn_lookup_insert. done.
  - rewrite fn_lookup_insert_ne by done. unfold status_of.
    destruct (node s x) as [lx|] eqn:Hlx; [|done].
    rewrite heap_upd_ne; [done|]. intros ->. apply Hx.
    by eapply wf_node_inj.
Qed.

Lemma sync_nodes_refine par ks : ∀ s m σ,
  wf_tree s → (∀ x, parent_of s x = par x) → (∀ x, status_of s x = σ x) →
  Forall (λ k, 0 ≤ k ≤ inst_id s) ks →
  ∃ s', for_each sync_node ks (m, s)
          = Ok ((foldl (prop_step par) (m, σ) ks).1, s')
        ∧ same_shape s s'
        ∧ ∀ x, status_of s' x = (foldl (prop_step par) (m, σ) ks).2 x.
Proof.
  induction ks as [|k ks IH]; intros s m σ Hwf Hpar Hσ Hks; cbn [for_each foldl].
  { exists s. split; [done|]. split; [apply same_shape_refl|done]. }
  inversion_clear Hks as [|?? Hk Hks'].
  destruct (sync_node_refines par s m σ k Hwf Hpar Hσ Hk) as (s1 & -> & Hsh & Hσ1).
  cbn [mbind result_bind]. destruct (prop_step par (m, σ) k) as [m1 σ1] eqn:E.
  cbn [fst snd] in *.
  destruct (IH s1 m1 σ1) as (s' & Heq & Hsh' & Hσ').
  - by eapply same_shape_wf.
  - intros x. by rewrite (same_shape_parent_of _ _ _ Hsh).
  - done.
  - destruct Hsh as (h & -> & _). done.
  - exists s'. split; [done|]. split; [by eapply same_shape_trans|done].
Qed.

Lemma sync_pass_refines par s σ :
  wf_tree s → (∀ x, parent_of s x = par x) → (∀ x, status_of s x = σ x) →
  ∃ s', sync_pass s
          = Ok ((prop_pass par (Z.to_nat (inst_id s + 1)) σ).1, s')
        ∧ same_shape s s'
        ∧ ∀ x, status_of s' x
               = (prop_pass par (Z.to_nat (inst_id s + 1)) σ).2 x.
Proof.
  intros Hwf Hpar Hσ. unfold sync_pass, prop_pass. rewrite (wf_keys _ Hwf).
  pose proof (wf_inst_id _ Hwf). rewrite Z2Nat.id by lia.
  apply sync_nodes_refine; [done..|].
  apply list.Forall_forall. intros k Hk%elem_of_seqZ. lia.
Qed.

Lemma sync_loop_refines par bound : ∀ max_iter s σ,
  wf_tree s → (∀ x, parent_of s x = par x) → (∀ x, status_of s x = σ x) →
  ∃ s', sync_loop bound max_iter s
          = Ok ((prop_loop par (Z.to_nat (inst_id s + 1)) bound max_iter σ).1, s')
        ∧ same_shape s s'
        ∧ ∀ x, status_of s' x
               = (prop_loop par (Z.to_nat (inst_id s + 1)) bound max_iter σ).2 x.
Proof.
  induction bound as [|bound IH]; intros max_iter s σ Hwf Hpar Hσ;
    cbn [sync_loop prop_loop].
  { exists s. split; [done|]. split; [apply same_shape_refl|done]. }
  destruct (sync_pass_refines par s σ Hwf Hpar Hσ) as (s1 & -> & Hsh & Hσ1).
  cbn [mbind result_bind].
  destruct (prop_pass _ _ _) as [m σ1] eqn:E. cbn [fst snd] in *.
  destruct m; [|exists s1; by repeat split].
  assert (Hid : inst_id s1 = inst_id s) by (by destruct Hsh as (h & -> & _)).
  destruct (IH (S max_iter) s1 σ1) as (s' & Heq & Hsh' & Hσ').
  - by eapply same_shape_wf.
  - intros x. by rewrite (same_shape_parent_of _ _ _ Hsh).
  - done.
  - rewrite Hid in Heq, Hσ'. exists s'. split; [done|].
    split; [by eapply same_shape_trans|done].
Qed.

Section Claims.
Context {World : Type}.
Variable fnmatch : string → string → bool.
Variable listdir : World → string → list entry.
Variable sim_get_status : World → task → Status * Z * Z.

Lemma scannable_wf w s s' :
  scannable fnmatch listdir w s →
  build_scan fnmatch listdir sim_get_status w s = Ok s' → wf_tree s'.
Proof.
  intros (Hm & Hs & Hv) Hb. eapply build_scan_wf; [done..| |done].
  apply list.Forall_forall. intros e He. rewrite forallb_forall in Hv.
  apply Hv. by apply list_elem_of_In.
Qed.

Lemma prop_pass_root par n σ : (prop_pass par n σ).2 0 = σ 0.
Proof.
  unfold prop_pass. generalize false.
  revert σ. induction (seqZ 0 (Z.of_nat n)) as [|k ks IH]; intros σ m; [done|].
  cbn [foldl]. destruct (prop_step par (m, σ) k) as [m1 σ1] eqn:E.
  rewrite IH. change σ1 with (m1, σ1).2. rewrite <-E, prop_step_status.
  destruct (decide (0 = par k)) as [Hp|Hp].
  - rewrite (bool_decide_false (0 < par k)) by lia. by rewrite andb_false_r.
  - rewrite (bool_decide_false (0 = par k)) by done. by rewrite andb_false_r.
Qed.

Lemma prop_loop_root par n bound : ∀ max_iter σ,
  (prop_loop par n bound max_iter σ).2 0 = σ 0.
Proof.
  induction bound as [|bound IH]; intros max_iter σ; cbn [prop_loop]; [done|].
  destruct (prop_pass par n σ) as [m σ1] eqn:E.
  assert (σ1 0 = σ 0) as <- by (change σ1 with (m, σ1).2; rewrite <-E; apply prop_pass_root).
  destruct m; [apply IH|done].
Qed.

Lemma same_shape_status_eq s s' l :
  same_shape s s' →
  SimulationTask.status (heap s' l) = SimulationTask.status (heap s l) →
  heap s' l = heap s l.
Proof.
  intros (h & -> & H). simpl. destruct (H l) as [st ->]. simpl. intros ->.
  by destruct (heap s l).
Qed.

(** C10: the closure loop of [build_simulation_tree] leaves the synthetic
    root untouched.  After the scan of a directory tree, the loop ends with
    the root object (id 0, [sim_tree]) exactly as the scan left it: the
    status of a top-level node is never pushed onto the root, whose status
    is set only by the assignments made during discovery. *)
Theorem C10_closure_never_touches_root w s s1 it update_needed s2 :
  scannable fnmatch listdir w s →
  build_scan fnmatch listdir sim_get_status w s = Ok s1 →
  sync_status_tree s1 = Ok (it, update_needed, s2) →
  sim_tree s2 = sim_tree s1
  ∧ node s2 0 = Some (sim_tree s2)
  ∧ heap s2 (sim_tree s2) = heap s1 (sim_tree s1).
Proof.
  intros Hscan Hb Hsync. pose proof (scannable_wf _ _ _ Hscan Hb) as Hwf.
  destruct (sync_loop_refines (parent_of s1) 30 0 s1 (status_of s1) Hwf)
    as (s' & Heq & Hsh & Hσ); [done..|].
  unfold sync_status_tree in Hsync. rewrite Heq in Hsync.
  injection Hsync as _ ->. clear Heq.
  pose proof (Hσ 0) as H0. rewrite prop_loop_root in H0.
  assert (sim_tree s2 = sim_tree s1) as Ht by (by destruct Hsh as (h & -> & _)).
  rewrite Ht. split; [done|].
  split; [rewrite (same_shape_node _ _ _ Hsh); apply (wf_root _ Hwf)|].
  apply same_shape_status_eq; [done|].
  unfold status_of in H0. rewrite (same_shape_node _ _ _ Hsh) in H0.
  by rewrite (wf_root _ Hwf) in H0.
Qed.

End Claims.

Lemma C10_witness :
  Example.scan Example.two Example.w_two (Example.monitor "/data" 2)
    = Ok Example.two_scanned
  ∧ sync_status_tree Example.two_scanned = Ok (1%nat, false, Example.two_built)
  ∧ Example.statuses Example.two_built
    = [(0, STATUS_STOP); (1, STATUS_RUN); (2, STATUS_STOP)]
  ∧ sim_tree Example.two_built = sim_tree Example.two_scanned
  ∧ node Example.two_built 0 = Some (sim_tree Example.two_built)
  ∧ heap Example.two_built (sim_tree Example.two_built)
    = heap Example.two_scanned (sim_tree Example.two_scanned).
Proof.
  split; [vm_compute; reflexivity|].
  split; [vm_compute; reflexivity|]. split; [vm_compute; reflexivity|].
  apply (C10_closure_never_touches_root Example.fnmatch_star
           (λ _ _, Example.two) Example.probe_dir Example.w_two
           (Example.monitor "/data" 2) Example.two_scanned 1%nat false).
  - split; [done|]. split; vm_compute; reflexivity.
  - vm_compute. reflexivity.
  - vm_compute. reflexivity.
Defined.

(** *** The closure loop, whatever the state *)

Lemma sync_node_only_status k m s m' s' :
  sync_node k (m, s) = Ok (m', s') →
  (s' = s ∧ m' = m)
  ∨ ∃ p st, run_or_done st = true ∧ m' = true
            ∧ SimulationTask.status (heap s p) ≠ st
            ∧ s' = modify p (SimulationTask.set_status st) s.
Proof.
  unfold sync_node. case_bool_decide as Hk; [intros [= <- <-]; by left|].
  intros (inst & _ & Hi)%bind_Ok. revert Hi.
  destruct (run_or_done _) eqn:Hrd; [|intros [= <- <-]; by left].
  case_bool_decide as Hpid; [|intros [= <- <-]; by left].
  intros (p & Hp & Hi)%bind_Ok. revert Hi.
  case_bool_decide as Hne; [|intros [= <- <-]; by left].
  intros (p' & Hp' & [= <- <-])%bind_Ok. right.
  rewrite Hp in Hp'. injection Hp' as <-. eauto 10.
Qed.

Lemma sync_nodes_keep_run_or_done ks : ∀ m s m' s',
  for_each sync_node ks (m, s) = Ok (m', s') →
  ∀ l, run_or_done (SimulationTask.status (heap s l)) = true →
       run_or_done (SimulationTask.status (heap s' l)) = true.
Proof.
  induction ks as [|k ks IH]; intros m s m' s' H l Hl; cbn [for_each] in H.
  { by simplify_eq. }
  apply bind_Ok in H as ([m1 s1] & H1 & H).
  apply (IH _ _ _ _ H).
  apply sync_node_only_status in H1 as [[-> _]|(p & st & Hst & _ & _ & ->)];
    [done|].
  cbn [heap modify set_heap]. unfold heap_upd. by case_decide.
Qed.

Lemma sync_loop_keeps_run_or_done bound : ∀ max_iter s it un s',
  sync_loop bound max_iter s = Ok (it, un, s') →
  ∀ l, run_or_done (SimulationTask.status (heap s l)) = true →
       run_or_done (SimulationTask.status (heap s' l)) = true.
Proof.
  induction bound as [|bound IH]; intros max_iter s it un s' H l Hl;
    cbn [sync_loop] in H.
  { by simplify_eq. }
  apply bind_Ok in H as ([m s1] & H1 & H).
  pose proof (sync_nodes_keep_run_or_done _ _ _ _ _ H1 l Hl).
  destruct m; [by eapply IH|by simplify_eq].
Qed.

(** C7 (as amended): within the closure loop of one tree build, a status
    that is RUNNING or DONE is never replaced by a status other than RUNNING
    or DONE, neither by a later step of a pass nor by a later pass; the loop
    may still turn RUNNING into DONE and back. *)
Theorem C7_closure_loop_keeps_running_or_done :
  (∀ ks m s m' s' l,
     for_each sync_node ks (m, s) = Ok (m', s') →
     run_or_done (SimulationTask.status (heap s l)) = true →
     run_or_done (SimulationTask.status (heap s' l)) = true)
  ∧ (∀ s it update_needed s' l,
       sync_status_tree s = Ok (it, update_needed, s') →
       run_or_done (SimulationTask.status (heap s l)) = true →
       run_or_done (SimulationTask.status (heap s' l)) = true).
Proof.
  split.
  - intros. by eapply sync_nodes_keep_run_or_done.
  - intros. by eapply sync_loop_keeps_run_or_done.
Qed.

Lemma C7_witness :
  sync_status_tree Example.fork_scanned = Ok (30%nat, true, Example.fork_built)
  ∧ run_or_done (SimulationTask.status (heap Example.fork_scanned 2%nat)) = true
  ∧ run_or_done (SimulationTask.status (heap Example.fork_built 2%nat)) = true.
Proof.
  split; [vm_compute; reflexivity|]. split; [vm_compute; reflexivity|].
  apply (proj2 C7_closure_loop_keeps_running_or_done
           Example.fork_scanned 30%nat true Example.fork_built 2%nat);
    vm_compute; reflexivity.
Defined.

(** C7, as stated, fails in both mechanisms.  In the closure loop: [p]
    (id 1) is set to RUNNING by its restart [a] (id 2) and two steps later,
    in the same pass, to DONE by its restart [b] (id 3).  In the discovery:
    a root that mirrors the running [a] is overwritten with STOPPED by the
    next top-level directory [b]. *)
Lemma C7_counterexample :
  (∃ s1 s2 s3 p,
     Example.scan Example.fork Example.w_fork (Example.monitor "/data" 2) = Ok s1
     ∧ node s1 1 = Some p
     ∧ for_each sync_node [0; 1; 2] (false, s1) = Ok (true, s2)
     ∧ SimulationTask.status (heap s1 p) = STATUS_DONE
     ∧ SimulationTask.status (heap s2 p) = STATUS_RUN
     ∧ sync_node 3 (true, s2) = Ok (true, s3)
     ∧ SimulationTask.status (heap s3 p) = STATUS_DONE)
  ∧ (∃ s0 s1 s2,
       let visit := visit Example.fnmatch_star Example.probe_dir
                      Example.w_two "*" "/data" in
       Example.scan [] Example.w_two (Example.monitor "/data" 2) = Ok s0
       ∧ visit (Example.sim "a" 0 []) s0 = Ok s1
       ∧ SimulationTask.status (heap s1 (sim_tree s1)) = STATUS_RUN
       ∧ visit (Example.sim "b" 0 []) s1 = Ok s2
       ∧ SimulationTask.status (heap s2 (sim_tree s2)) = STATUS_STOP).
Proof.
  split.
  - eexists _, _, _, _.
    do 6 (split; [vm_compute; reflexivity|]). vm_compute; reflexivity.
  - eexists _, _, _. cbv zeta.
    do 4 (split; [vm_compute; reflexivity|]). vm_compute; reflexivity.
Qed.

Lemma sync_nodes_unmodified ks : ∀ m s s',
  for_each sync_node ks (m, s) = Ok (false, s') → s' = s ∧ m = false.
Proof.
  induction ks as [|k ks IH]; intros m s s' H; cbn [for_each] in H.
  { by simplify_eq. }
  apply bind_Ok in H as ([m1 s1] & H1 & H).
  apply IH in H as [-> ->].
  apply sync_node_only_status in H1 as [[-> ->]|(p & st & _ & ? & _)]; done.
Qed.

Lemma sync_pass_unmodified s s' : sync_pass s = Ok (false, s') → s' = s.
Proof. intros H. by apply sync_nodes_unmodified in H as [-> _]. Qed.

Lemma sync_loop_count bound : ∀ max_iter s it un s',
  sync_loop bound max_iter s = Ok (it, un, s') →
  (max_iter ≤ it ≤ max_iter + bound)%nat
  ∧ (un = true → it = (max_iter + bound)%nat)
  ∧ (un = false → sync_pass s' = Ok (false, s')).
Proof.
  induction bound as [|bound IH]; intros max_iter s it un s' H;
    cbn [sync_loop] in H.
  { simplify_eq. split; [lia|]. split; [lia|done]. }
  apply bind_Ok in H as ([m s1] & H1 & H). destruct m.
  - apply IH in H as (? & ? & ?). split; [lia|]. split; [|done].
    intros. subst. lia.
  - pose proof (sync_pass_unmodified _ _ H1) as ->. simplify_eq.
    split; [lia|]. by split.
Qed.

Section Closure.
Context {World : Type}.
Variable fnmatch : string → string → bool.
Variable listdir : World → string → list entry.
Variable sim_get_status : World → task → Status * Z * Z.

(** The hypotheses of the iteration on statuses hold on a well-formed
    tree. *)
Lemma wf_deficient_bound s D :
  wf_tree s →
  (∀ k l, node s k = Some l → SimulationTask.level (heap s l) ≤ D) →
  ∀ k, deficient (parent_of s) (Z.to_nat (inst_id s + 1)) (status_of s) k →
       level_of s k ≤ D.
Proof.
  intros Hwf HD k (Hk & _). unfold level_of.
  destruct (node s k) as [l|] eqn:E; [by eapply HD|].
  pose proof (wf_inst_id _ Hwf).
  assert (is_Some (node s k)) as [? ?]; [apply wf_node_dom; [done|lia]|congruence].
Qed.

Lemma wf_no_deficient s bound max_iter D :
  wf_tree s →
  (∀ k l, node s k = Some l → SimulationTask.level (heap s l) ≤ D) →
  D ≤ Z.of_nat bound + 1 →
  ∀ k, ¬ deficient (parent_of s) (Z.to_nat (inst_id s + 1))
           (prop_loop (parent_of s) (Z.to_nat (inst_id s + 1)) bound max_iter
              (status_of s)).2 k.
Proof.
  intros Hwf HD Hle. pose proof (wf_inst_id _ Hwf).
  apply (loop_closure (parent_of s) (λ k, parent_of_lt s k Hwf)
           (Z.to_nat (inst_id s + 1)) (level_of s)) with (B := D).
  - intros k Hk. apply parent_of_ge; [done|lia].
  - intros k Hk. apply level_of_parent; [done|lia].
  - intros k _. by apply level_of_ge.
  - by apply wf_deficient_bound.
  - done.
Qed.

(** C2 (as amended): after [build_simulation_tree], in a forest of depth at
    most 31, every strict ancestor other than the synthetic root of a
    RUNNING or DONE node is RUNNING or DONE.  (The root, id 0, is left out
    by the guard [inst.parent_id > 0].) *)
Theorem C2_closure_below_the_root w s s' :
  scannable fnmatch listdir w s →
  build_simulation_tree fnmatch listdir sim_get_status w s = Ok s' →
  (∀ k l, node s' k = Some l → SimulationTask.level (heap s' l) ≤ 31) →
  ∀ k l a la,
    node s' k = Some l →
    run_or_done (SimulationTask.status (heap s' l)) = true →
    ancestor s' a k → a ≠ 0 →
    node s' a = Some la →
    run_or_done (SimulationTask.status (heap s' la)) = true.
Proof.
  intros Hscan Hb Hdepth. unfold build_simulation_tree in Hb.
  apply bind_Ok in Hb as (s1 & Hb & Hs).
  apply bind_Ok in Hs as ([[it un] s2] & Hs & [= <-]).
  pose proof (scannable_wf _ _ _ _ _ _ Hscan Hb) as Hwf.
  destruct (sync_loop_refines (parent_of s1) 30 0 s1 (status_of s1) Hwf)
    as (s2' & Heq & Hsh & Hσ); [done..|].
  unfold sync_status_tree in Hs. rewrite Heq in Hs.
  injection Hs as _ ->. clear Heq it un.
  pose proof (same_shape_wf _ _ Hsh Hwf) as Hwf2.
  assert (Hno : ∀ k, ¬ deficient (parent_of s1) (Z.to_nat (inst_id s1 + 1))
                         (status_of s2) k).
  { intros k Hk. eapply (wf_no_deficient s1 30 0 31 Hwf); [|lia|].
    - intros k' l' Hl'. rewrite <-(same_shape_node _ _ _ Hsh) in Hl'.
      destruct (same_shape_fields _ _ l' Hsh) as (_ & _ & <- & _).
      by eapply Hdepth.
    - eapply deficient_ext; [|exact Hk]. intros x. by rewrite Hσ. }
  assert (Hstep : ∀ k l p,
            node s2 k = Some l → k ≠ 0 →
            run_or_done (SimulationTask.status (heap s2 l)) = true →
            SimulationTask.parent_id (heap s2 l) ≠ 0 →
            node s2 (SimulationTask.parent_id (heap s2 l)) = Some p →
            run_or_done (SimulationTask.status (heap s2 p)) = true).
  { intros k l p Hl Hk0 Hrd Hp0 Hp.
    destruct (run_or_done (SimulationTask.status (heap s2 p))) eqn:E; [done|].
    exfalso. apply (Hno k).
    destruct (wf_parent _ Hwf2 _ _ Hl Hk0) as (p' & Hrange & Hp' & _).
    assert (is_Some (node s2 k)) as Hd%wf_node_dom by eauto; [|done].
    assert (inst_id s2 = inst_id s1) as Hid by (by destruct Hsh as (h & -> & _)).
    unfold deficient, status_of.
    rewrite <-(same_shape_parent_of _ _ _ Hsh). unfold parent_of.
    rewrite Hl, Hp, Hrd, E. repeat split; lia. }
  intros k l a la Hl Hrd Hanc. revert l la Hl Hrd.
  induction Hanc as [k l0 Hl0 Hk0|a k l0 Hl0 Hk0 Hanc IH];
    intros l la Hl Hrd Ha Hla; simplify_eq.
  - by apply (Hstep k l0 la).
  - assert (SimulationTask.parent_id (heap s2 l0) ≠ 0) as Hp0.
    { intros Heq0. rewrite Heq0 in Hanc. by inversion Hanc. }
    destruct (wf_parent _ Hwf2 _ _ Hl0 Hk0) as (p & _ & Hp & _).
    apply (IH p la); [done| |done..]. by apply (Hstep k l0 p).
Qed.

(** C8 (as amended): the closure loop makes at most 30 passes, ends with
    [update_needed] false only after a pass that changes nothing, and then
    stands at a fixed point; for a scanned forest of depth at most [D],
    1 <= D <= 30, in which RUNNING and DONE do not both occur below the
    root, it reaches that fixed point within [D] passes. *)
Theorem C8_bounded_passes_and_fixed_point :
  (∀ s it update_needed s',
     sync_status_tree s = Ok (it, update_needed, s') →
     (it ≤ 30)%nat
     ∧ (update_needed = true → it = 30%nat)
     ∧ (update_needed = false → sync_pass s' = Ok (false, s')))
  ∧ (∀ w s s1 D y,
       scannable fnmatch listdir w s →
       build_scan fnmatch listdir sim_get_status w s = Ok s1 →
       1 ≤ D ≤ 30 →
       (∀ k l, node s1 k = Some l → SimulationTask.level (heap s1 l) ≤ D) →
       y = STATUS_RUN ∨ y = STATUS_DONE →
       (∀ k l, node s1 k = Some l → k ≠ 0 →
               SimulationTask.status (heap s1 l) ≠ y) →
       ∃ it s2, sync_status_tree s1 = Ok (it, false, s2)
                ∧ Z.of_nat it ≤ D
                ∧ sync_pass s2 = Ok (false, s2)).
Proof.
  split.
  - intros s it un s' H. apply sync_loop_count in H as (? & ? & ?).
    split; [lia|]. split; [|done]. intros. subst. lia.
  - intros w s s1 D y Hscan Hb HD Hdepth Hy Habs.
    pose proof (scannable_wf _ _ _ _ _ _ Hscan Hb) as Hwf.
    pose proof (wf_inst_id _ Hwf).
    destruct (sync_loop_refines (parent_of s1) 30 0 s1 (status_of s1) Hwf)
      as (s2 & Heq & Hsh & Hσ); [done..|].
    destruct (loop_converges (parent_of s1) (λ k, parent_of_lt s1 k Hwf)
                (Z.to_nat (inst_id s1 + 1)) (level_of s1)) with
      (bound := 30%nat) (max_iter := 0%nat) (σ := status_of s1) (B := D) (y := y)
      as (it & σ' & Hloop & Hit); try done; try lia.
    + intros k Hk. apply parent_of_ge; [done|lia].
    + intros k Hk. apply level_of_parent; [done|lia].
    + intros k _. by apply level_of_ge.
    + intros x Hx. unfold status_of.
      destruct (node s1 x) as [l|] eqn:E; [eapply Habs; [done|lia]|].
      destruct Hy; by subst.
    + by apply wf_deficient_bound.
    + rewrite Hloop in Heq. unfold sync_status_tree. rewrite Heq.
      exists it, s2. split; [done|]. split; [lia|].
      by apply sync_loop_count in Heq as (_ & _ & ->).
Qed.

End Closure.

Lemma all_nodes_spec P s :
  all_nodes P s = true → ∀ k l, node s k = Some l → P k (heap s l) = true.
Proof.
  unfold all_nodes. rewrite forallb_forall. intros H k l Hl.
  apply (H (k, l)). apply list_elem_of_In. by apply dict_get_Some_elem.
Qed.

Lemma ancestor_parent_is s a k l :
  node s k = Some l → k ≠ 0 → SimulationTask.parent_id (heap s l) = a →
  ancestor s a k.
Proof. intros ?? <-. by eapply ancestor_parent. Qed.

Lemma C2_witness :
  node Example.fork_built 2 = Some 3%nat
  ∧ run_or_done (SimulationTask.status (heap Example.fork_built 3%nat)) = true
  ∧ ancestor Example.fork_built 1 2
  ∧ node Example.fork_built 1 = Some 2%nat
  ∧ run_or_done (SimulationTask.status (heap Example.fork_built 2%nat)) = true.
Proof.
  assert (ancestor Example.fork_built 1 2) as Hanc.
  { apply (ancestor_parent_is _ _ _ 3%nat); [vm_compute; reflexivity|done|].
    vm_compute; reflexivity. }
  split; [vm_compute; reflexivity|]. split; [vm_compute; reflexivity|].
  split; [done|]. split; [vm_compute; reflexivity|].
  apply (C2_closure_below_the_root Example.fnmatch_star (λ _ _, Example.fork)
           Example.probe_dir Example.w_fork (Example.monitor "/data" 2)
           Example.fork_built) with (k := 2) (l := 3%nat) (a := 1).
  - split; [done|]. split; vm_compute; reflexivity.
  - vm_compute; reflexivity.
  - intros k l Hl. apply Z.leb_le.
    apply (all_nodes_spec (λ _ o, SimulationTask.level o <=? 31)
             Example.fork_built ltac:(vm_compute; reflexivity) k l Hl).
  - vm_compute; reflexivity.
  - vm_compute; reflexivity.
  - done.
  - done.
  - vm_compute; reflexivity.
Defined.

(** C2, as stated, fails at the root: with a running [a] and a stopped [b]
    directly under the scan root, the build ends with [a] (id 1) RUNNING
    and its ancestor, the root (id 0), STOPPED. *)
Lemma C2_counterexample :
  Example.build Example.two Example.w_two (Example.monitor "/data" 2)
    = Ok Example.two_built
  ∧ node Example.two_built 1 = Some 2%nat
  ∧ SimulationTask.status (heap Example.two_built 2%nat) = STATUS_RUN
  ∧ ancestor Example.two_built 0 1
  ∧ node Example.two_built 0 = Some 1%nat
  ∧ SimulationTask.status (heap Example.two_built 1%nat) = STATUS_STOP.
Proof.
  split; [vm_compute; reflexivity|]. split; [vm_compute; reflexivity|].
  split; [vm_compute; reflexivity|].
  split; [|split; vm_compute; reflexivity].
  apply (ancestor_parent_is _ _ _ 2%nat); [vm_compute; reflexivity|done|].
  vm_compute; reflexivity.
Qed.

Lemma C8_witness :
  ∃ it s2, sync_status_tree Example.two_scanned = Ok (it, false, s2)
           ∧ Z.of_nat it ≤ 1
           ∧ sync_pass s2 = Ok (false, s2).
Proof.
  apply (proj2 (C8_bounded_passes_and_fixed_point Example.fnmatch_star
                  (λ _ _, Example.two) Example.probe_dir)
           Example.w_two (Example.monitor "/data" 2) Example.two_scanned 1
           STATUS_DONE).
  - split; [done|]. split; vm_compute; reflexivity.
  - vm_compute; reflexivity.
  - lia.
  - intros k l Hl. apply Z.leb_le.
    apply (all_nodes_spec (λ _ o, SimulationTask.level o <=? 1)
             Example.two_scanned ltac:(vm_compute; reflexivity) k l Hl).
  - by right.
  - assert (all_nodes
              (λ _ o, bool_decide (SimulationTask.status o ≠ STATUS_DONE))
              Example.two_scanned = true) as Hall by (vm_compute; reflexivity).
    intros k l Hl _.
    exact (bool_decide_eq_true_1 _ (all_nodes_spec _ _ Hall k l Hl)).
Defined.

(** C8, as stated, fails in a forest of depth 2: [p] with a RUNNING and a
    DONE restart is rewritten twice in every pass, so all 30 passes modify a
    status and the state the loop ends in is no fixed point. *)
Lemma C8_counterexample :
  all_nodes (λ _ o, SimulationTask.level o <=? 2) Example.fork_scanned = true
  ∧ sync_status_tree Example.fork_scanned
    = Ok (30%nat, true, Example.fork_built)
  ∧ ∃ s, sync_pass Example.fork_built = Ok (true, s).
Proof.
  split; [vm_compute; reflexivity|]. split; [vm_compute; reflexivity|].
  eexists. vm_compute; reflexivity.
Qed.

Section Discovery.
Context {World : Type}.
Variable fnmatch : string → string → bool.
Variable listdir : World → string → list entry.
Variable sim_get_status : World → task → Status * Z * Z.

(** C5 (as amended): a newly discovered node is nominated as its parent's
    restart candidate (the parent's [cid] becomes the node's id, its
    [t_max_extended] the node's) exactly when the node's progress strictly
    exceeds the parent's own progress and its directory holds no ERROR
    marker; otherwise both attributes of the parent stay as they are.
    Consequently, after a build, a set [cid] names a child of the node whose
    progress strictly exceeds the node's own. *)
Theorem C5_nomination_against_parent_progress :
  (∀ w pattern base filename conf nice error_marker sub s s' p kp,
     wf_tree s →
     sim_inst_parent_dict s !! base = Some p →
     node s kp = Some p →
     valid_name filename = true →
     fnmatch filename pattern = true →
     visit fnmatch sim_get_status w pattern base
       (Dir filename conf nice error_marker sub) s = Ok s' →
     let c := next_loc s in
     node s' (inst_id s + 1) = Some c
     ∧ SimulationTask.parent_id (heap s' c) = kp
     ∧ if (SimulationTask.t (heap s p) <? SimulationTask.t (heap s' c))
          && negb error_marker
       then SimulationTask.cid (heap s' p) = inst_id s + 1
            ∧ SimulationTask.t_max_extended (heap s' p)
              = SimulationTask.t_max_extended (heap s' c)
       else SimulationTask.cid (heap s' p) = SimulationTask.cid (heap s p)
            ∧ SimulationTask.t_max_extended (heap s' p)
              = SimulationTask.t_max_extended (heap s p))
  ∧ (∀ w s s',
       scannable fnmatch listdir w s →
       build_simulation_tree fnmatch listdir sim_get_status w s = Ok s' →
       ∀ k l, node s' k = Some l → SimulationTask.cid (heap s' l) ≠ -1 →
         ∃ c, node s' (SimulationTask.cid (heap s' l)) = Some c
              ∧ SimulationTask.parent_id (heap s' c) = k
              ∧ SimulationTask.t (heap s' l) < SimulationTask.t (heap s' c)).
Proof.
  split.
  - intros w pattern base filename conf nice err sub s s' p kp
      Hwf Hp Hkp Hname Hmatch Hv.
    pose proof (visit_Dir _ _ _ _ _ _ _ _ _ _ _ _ _ _ Hwf Hp Hkp Hname Hmatch Hv)
      as Hreg.
    cbv zeta. split; [eapply reg_node; [done..|by left]|].
    destruct (reg_new_fields _ Hreg) as (_ & -> & _).
    split; [done|].
    rewrite (reg_parent _ _ _ _ _ _ _ _ _ _ Hreg).
    by destruct (_ && _).
  - intros w s s' Hscan Hb k l Hl Hc. unfold build_simulation_tree in Hb.
    apply bind_Ok in Hb as (s1 & Hb & Hs).
    apply bind_Ok in Hs as ([[it un] s2] & Hs & [= <-]).
    pose proof (scannable_wf _ _ _ _ _ _ Hscan Hb) as Hwf.
    destruct (sync_loop_refines (parent_of s1) 30 0 s1 (status_of s1) Hwf)
      as (s2' & Heq & Hsh & _); [done..|].
    unfold sync_status_tree in Hs. rewrite Heq in Hs. injection Hs as _ ->.
    pose proof (same_shape_wf _ _ Hsh Hwf) as Hwf2.
    destruct (wf_cid _ Hwf2 _ _ Hl Hc) as (c & _ & ? & ? & ?). by exists c.
Qed.

(** C4: a directory whose SiMon.conf is absent, lacks the Code_name option
    or names a code that is not registered leaves [sim_inst] at [None], and
    the first attribute assignment on it raises AttributeError: the visit
    does not return, and neither does the scan of the listing it is in. *)
Theorem C4_unrecognized_directory_raises w pattern base filename conf nice
    error_marker sub files s :
  fnmatch filename pattern = true →
  unrecognized s conf →
  visit fnmatch sim_get_status w pattern base
    (Dir filename conf nice error_marker sub) s = Raise AttributeError
  ∧ for_each (visit fnmatch sim_get_status w pattern base)
      (Dir filename conf nice error_marker sub :: files) s
    = Raise AttributeError.
Proof.
  intros Hmatch Hconf.
  assert (visit fnmatch sim_get_status w pattern base
            (Dir filename conf nice error_marker sub) s = Raise AttributeError)
    as Hv.
  { unfold visit. rewrite Hmatch. unfold make_instance.
    destruct conf; simpl in *; try done.
    by rewrite bool_decide_false. }
  split; [done|]. cbn [for_each]. by rewrite Hv.
Qed.

End Discovery.

Lemma C5_witness :
  let s := p_scanned in
  let s' := p_a_visited in
  let c := next_loc s in
  node s' (inst_id s + 1) = Some c
  ∧ SimulationTask.parent_id (heap s' c) = 1
  ∧ if (SimulationTask.t (heap s 2%nat) <? SimulationTask.t (heap s' c))
       && negb false
    then SimulationTask.cid (heap s' 2%nat) = inst_id s + 1
         ∧ SimulationTask.t_max_extended (heap s' 2%nat)
           = SimulationTask.t_max_extended (heap s' c)
    else SimulationTask.cid (heap s' 2%nat) = SimulationTask.cid (heap s 2%nat)
         ∧ SimulationTask.t_max_extended (heap s' 2%nat)
           = SimulationTask.t_max_extended (heap s 2%nat).
Proof.
  cbv zeta.
  apply (proj1 (C5_nomination_against_parent_progress Example.fnmatch_star
                  (λ _ _, []) Example.probe_dir)
           Example.w_fork "*" "/data/p" "a" (ConfCode "Nbody6") 0 false []
           p_scanned p_a_visited 2%nat 1).
  - apply (scannable_wf Example.fnmatch_star
             (λ _ _, [Example.sim "p" 0 []]) Example.probe_dir Example.w_fork
             (Example.monitor "/data" 2)).
    + split; [done|]. split; vm_compute; reflexivity.
    + vm_compute; reflexivity.
  - vm_compute; reflexivity.
  - vm_compute; reflexivity.
  - vm_compute; reflexivity.
  - done.
  - vm_compute; reflexivity.
Defined.

(** C5, as stated, fails: [p] (progress 50) has the restarts [a] (80) and
    [b] (60), none with an ERROR marker.  [a] is nominated first; [b],
    whose progress does not exceed that of the recorded candidate [a], is
    nominated all the same, so the build ends with [p.cid] naming [b], which
    is not the most advanced error-free child. *)
Lemma C5_counterexample :
  ∃ s0 s1 s2,
    let visit := visit Example.fnmatch_star Example.probe_dir Example.w_fork
                   "*" "/data/p" in
    Example.scan [Example.sim "p" 0 []] Example.w_fork
      (Example.monitor "/data" 2) = Ok s0
    ∧ visit (Example.sim "a" 0 []) s0 = Ok s1
    ∧ SimulationTask.cid (heap s1 2%nat) = 2
    ∧ SimulationTask.t (heap s1 3%nat) = 80
    ∧ visit (Example.sim "b" 0 []) s1 = Ok s2
    ∧ SimulationTask.t (heap s2 4%nat) = 60
    ∧ SimulationTask.cid (heap s2 2%nat) = 3
    ∧ node Example.fork_built 1 = Some 2%nat
    ∧ SimulationTask.cid (heap Example.fork_built 2%nat) = 3.
Proof.
  eexists _, _, _. cbv zeta.
  do 8 (split; [vm_compute; reflexivity|]). vm_compute; reflexivity.
Qed.

Lemma C4_witness :
  for_each (visit Example.fnmatch_star Example.probe_dir Example.idle "*" "/data")
    [Dir "a" ConfAbsent 0 false []; Example.sim "b" 0 []]
    (Example.the (Example.scan [] Example.idle (Example.monitor "/data" 2))
       (Example.monitor "/data" 2))
  = Raise AttributeError
  ∧ Example.build [Dir "a" ConfAbsent 0 false []; Example.sim "b" 0 []]
      Example.idle (Example.monitor "/data" 2) = Raise AttributeError.
Proof.
  split; [|vm_compute; reflexivity].
  eapply (proj2 (C4_unrecognized_directory_raises Example.fnmatch_star
                   Example.probe_dir Example.idle "*" "/data" "a" ConfAbsent
                   0 false [] [Example.sim "b" 0 []] _ eq_refl I)).
Defined.

(** C9: the path-to-node map is not part of what [build_simulation_tree]
    sets up anew.  A cycle that sees the directory [a] followed by a cycle
    after [a] has been deleted leaves the entry of [a]'s path in
    [sim_inst_parent_dict], and it still refers to the node object created
    in the first cycle. *)
Theorem C9_stale_node_in_parent_map :
  ∃ s1 s2 l,
    Example.build [Example.sim "a" 0 []] Example.idle
      (Example.monitor "/data" 2) = Ok s1
    ∧ Example.build [] Example.idle s1 = Ok s2
    ∧ sim_inst_parent_dict s2 !! "/data/a" = Some l
    ∧ (l < next_loc s1)%nat
    ∧ heap s2 l = heap s1 l
    ∧ SimulationTask.fulldir (heap s2 l) = "/data/a"
    ∧ sim_inst_dict s2 = [(0, next_loc s1)].
Proof.
  eexists _, _, _.
  do 6 (split; [vm_compute; reflexivity|]). vm_compute; reflexivity.
Qed.

Lemma same_config_refl s : same_config s s.
Proof. done. Qed.

Lemma same_config_trans s1 s2 s3 :
  same_config s1 s2 → same_config s2 s3 → same_config s1 s3.
Proof. unfold same_config. intros (-> & -> & ->) (-> & -> & ->). done. Qed.

Lemma for_each_preserves {A S} (R : S → S → Prop) (body : A → S → result S) xs :
  (∀ s, R s s) → (∀ s1 s2 s3, R s1 s2 → R s2 s3 → R s1 s3) →
  (∀ x s s', body x s = Ok s' → R s s') →
  ∀ s s', for_each body xs s = Ok s' → R s s'.
Proof.
  intros Hrefl Htrans Hbody. induction xs as [|x xs IH]; intros s s' H;
    cbn [for_each] in H; [by simplify_eq|].
  apply bind_Ok in H as (s1 & H1 & H). eauto.
Qed.

Ltac unfold_dispatch := unfold dispatch.
Ltac unfold_dispatch_all := unfold dispatch_all.

Section Config.
Context {World : Type}.
Variable fnmatch : string → string → bool.
Variable listdir : World → string → list entry.
Variable sim_get_status : World → task → Status * Z * Z.
Variables sim_start sim_restart sim_kill sim_backup_checkpoint
  : World → task → World.

Lemma probe_config w l s : same_config s (probe sim_get_status w l s).
Proof. unfold probe. by destruct (sim_get_status w (heap s l)) as [[? ?] ?]. Qed.

Lemma visit_config w pattern base e s s' :
  visit fnmatch sim_get_status w pattern base e s = Ok s' → same_config s s'.
Proof.
  destruct e as [n|n conf nice err sub]; simpl; [by intros [= <-]|].
  destruct (fnmatch n pattern); [|by intros [= <-]].
  intros (oi & _ & H)%bind_Ok. destruct oi as [o|]; [|done].
  unfold new_instance in H. cbn [alloc] in H.
  apply bind_Ok in H as (s1 & H1 & H).
  apply bind_Ok in H as (s2 & H2 & H).
  unfold register_child in H1.
  apply bind_Ok in H1 as (p1 & _ & H1). apply bind_Ok in H1 as (p2 & _ & H1).
  apply bind_Ok in H1 as (p3 & _ & [= <-]).
  unfold mirror_status in H2. apply bind_Ok in H2 as (q & _ & [= <-]).
  unfold nominate in H. apply bind_Ok in H as (q1 & _ & H).
  destruct (_ && _).
  - apply bind_Ok in H as (q2 & _ & H). apply bind_Ok in H as (q3 & _ & [= <-]).
    unfold same_config, probe. simpl.
    by destruct (sim_get_status w _) as [[? ?] ?].
  - injection H as <-. unfold same_config, probe. simpl.
    by destruct (sim_get_status w _) as [[? ?] ?].
Qed.

Lemma walk_entry_config w pattern e :
  ∀ top s s',
    walk_entry fnmatch sim_get_status w pattern top e s = Ok s' →
    same_config s s'.
Proof.
  induction e as [n|n conf nice err sub IH] using entry_tree_ind;
    intros top s s' H.
  - simpl in H. by simplify_eq.
  - rewrite walk_entry_Dir in H. apply bind_Ok in H as (s1 & H1 & H).
    assert (same_config s s1) as Hc1.
    { eapply (for_each_preserves same_config); [apply same_config_refl
        |apply same_config_trans| |exact H1].
      intros ???. apply visit_config. }
    eapply same_config_trans; [exact Hc1|]. clear H1 Hc1. revert s1 H.
    induction IH as [|e sub He Hsub IH'];
      intros s1 H; cbn [for_each] in H; [by simplify_eq|].
    apply bind_Ok in H as (s2 & H2 & H).
    eapply same_config_trans; [by eapply He|by apply IH'].
Qed.

Lemma build_scan_config w s s' :
  build_scan fnmatch listdir sim_get_status w s = Ok s' → same_config s s'.
Proof.
  unfold build_scan, os_path_walk. cbn [alloc].
  intros (s1 & H1 & H)%bind_Ok.
  eapply (same_config_trans _ s1).
  - eapply (for_each_preserves same_config) in H1;
      [|apply same_config_refl|apply same_config_trans
       |intros ???; apply visit_config].
    exact H1.
  - eapply (for_each_preserves same_config); [apply same_config_refl
      |apply same_config_trans| |exact H].
    intros ???. apply walk_entry_config.
Qed.

Lemma sync_loop_config bound : ∀ max_iter s it un s',
  sync_loop bound max_iter s = Ok (it, un, s') → same_config s s'.
Proof.
  induction bound as [|bound IH]; intros max_iter s it un s' H;
    cbn [sync_loop] in H; [by simplify_eq|].
  apply bind_Ok in H as ([m s1] & H1 & H).
  assert (same_config s s1) as Hc.
  { unfold sync_pass in H1. revert H1. generalize false.
    generalize (dict_keys (sim_inst_dict s)). intros ks. revert s.
    induction ks as [|k ks IHks]; intros s m0 H1; cbn [for_each] in H1;
      [by simplify_eq|].
    apply bind_Ok in H1 as ([m2 s2] & H2 & H1).
    eapply same_config_trans; [|by eapply IHks].
    by apply sync_node_only_status in H2 as [[-> _]|(p & st & _ & _ & _ & ->)]. }
  destruct m; [|by simplify_eq].
  eapply same_config_trans; [done|by eapply IH].
Qed.

Lemma build_simulation_tree_config w s s' :
  build_simulation_tree fnmatch listdir sim_get_status w s = Ok s' →
  same_config s s'.
Proof.
  unfold build_simulation_tree. intros (s1 & H1 & H)%bind_Ok.
  apply bind_Ok in H as ([[it un] s2] & H2 & [= <-]).
  eapply same_config_trans; [by eapply build_scan_config|].
  by eapply sync_loop_config.
Qed.

Local Abbreviation dispatch :=
  (dispatch fnmatch listdir sim_get_status sim_start sim_restart sim_kill
     sim_backup_checkpoint).
Local Abbreviation dispatch_all :=
  (dispatch_all fnmatch listdir sim_get_status sim_start sim_restart sim_kill
     sim_backup_checkpoint).

Lemma dispatch_step sim st st' :
  dispatch sim st = Ok st' →
  max_concurrent_jobs (mon st') = max_concurrent_jobs (mon st)
  ∧ ∃ acts, issued st' = issued st ++ acts
      ∧ ((dispatches acts = 0 ∧ concurrent_jobs st' = concurrent_jobs st)
         ∨ (dispatches acts = 1
            ∧ concurrent_jobs st < max_concurrent_jobs (mon st)
            ∧ concurrent_jobs st' = concurrent_jobs st + 1)).
Proof.
  unfold_dispatch. case_bool_decide as Hid.
  { intros [= <-]. split; [done|]. exists []. rewrite app_nil_r. by auto. }
  pose proof (probe_config (world st) sim (mon st)) as (Hmax & _).
  destruct (SimulationTask.status _).
  - (* NEW *)
    destruct (_ <? _) eqn:E; intros [= <-]; cbn; (split; [done|]).
    + eexists. split; [done|]. right. rewrite <-Hmax. split; [done|].
      split; [by apply Z.ltb_lt|done].
    + exists []. rewrite app_nil_r. by auto.
  - (* STOP *)
    destruct (_ && _) eqn:E.
    + intros (leaf & _ & [= <-])%bind_Ok. cbn. split; [done|].
      eexists. split; [done|]. right. rewrite <-Hmax. split; [done|].
      apply andb_true_iff in E as [E%Z.ltb_lt _]. done.
    + intros [= <-]. cbn. split; [done|]. exists []. rewrite app_nil_r. by auto.
  - (* RUN *)
    intros [= <-]. cbn. split; [done|]. eexists. split; [done|]. by left.
  - (* STALL *)
    intros (s1 & H1 & [= <-])%bind_Ok. cbn.
    apply build_simulation_tree_config in H1 as (-> & _).
    split; [done|]. eexists. split; [done|]. by left.
  - intros [= <-]. cbn. split; [done|]. exists []. rewrite app_nil_r. by auto.
  - intros [= <-]. cbn. split; [done|]. exists []. rewrite app_nil_r. by auto.
Qed.

Lemma dispatches_app (a b : list action) :
  dispatches (a ++ b) = dispatches a + dispatches b.
Proof. unfold dispatches. rewrite filter_app, length_app. lia. Qed.

Lemma dispatch_all_steps schedule_list : ∀ st st',
  dispatch_all schedule_list st = Ok st' →
  max_concurrent_jobs (mon st') = max_concurrent_jobs (mon st)
  ∧ ∃ acts, issued st' = issued st ++ acts
      ∧ concurrent_jobs st' = concurrent_jobs st + dispatches acts
      ∧ (0 < dispatches acts →
         concurrent_jobs st' ≤ max_concurrent_jobs (mon st)).
Proof.
  unfold_dispatch_all.
  induction schedule_list as [|sim l IH]; intros st st' H; cbn [for_each] in H.
  { simplify_eq. split; [done|]. exists []. rewrite app_nil_r.
    split; [done|]. split; [by unfold dispatches; simpl; lia|].
    unfold dispatches. simpl. lia. }
  apply bind_Ok in H as (st1 & H1 & H).
  apply dispatch_step in H1 as (Hmax1 & acts1 & Hi1 & Hc1).
  apply IH in H as (Hmax & acts & Hi & Hc & Hle).
  split; [congruence|]. exists (acts1 ++ acts).
  rewrite Hi, Hi1, <-app_assoc. split; [done|]. rewrite dispatches_app.
  assert (0 ≤ dispatches acts) by (unfold dispatches; lia).
  rewrite Hmax1 in Hle.
  destruct Hc1 as [[Hd Hcj]|(Hd & Hlt & Hcj)]; rewrite Hd; split; lia.
Qed.

(** C1: in a scheduling pass a start or a restart is triggered only while
    [concurrent_jobs] is strictly below [max_concurrent_jobs], and each one
    increments the counter by one; every other step leaves the counter as it
    is.  So over the whole dispatch loop the counter grows by the number of
    starts and restarts issued, and once one has been issued it is at most
    [max_concurrent_jobs]. *)
Theorem C1_concurrency_ceiling :
  (∀ sim st st',
     dispatch sim st = Ok st' →
     max_concurrent_jobs (mon st') = max_concurrent_jobs (mon st)
     ∧ ∃ acts, issued st' = issued st ++ acts
         ∧ ((dispatches acts = 0 ∧ concurrent_jobs st' = concurrent_jobs st)
            ∨ (dispatches acts = 1
               ∧ concurrent_jobs st < max_concurrent_jobs (mon st)
               ∧ concurrent_jobs st' = concurrent_jobs st + 1)))
  ∧ (∀ schedule_list st st',
       dispatch_all schedule_list st = Ok st' →
       ∃ acts, issued st' = issued st ++ acts
         ∧ concurrent_jobs st' = concurrent_jobs st + dispatches acts
         ∧ (0 < dispatches acts →
            concurrent_jobs st' ≤ max_concurrent_jobs (mon st))).
Proof.
  split.
  - apply dispatch_step.
  - intros l st st' H. by apply dispatch_all_steps in H as (_ & H).
Qed.

End Config.

Lemma wf_linked s : wf_tree s → linked s.
Proof.
  intros Hwf. split.
  - apply (wf_keys _ Hwf).
  - apply (wf_inst_id _ Hwf).
  - apply (wf_id _ Hwf).
  - intros k l Hl Hc. destruct (wf_cid _ Hwf _ _ Hl Hc) as (c & ? & Hn & _).
    assert (is_Some (node s (SimulationTask.cid (heap s l)))) as Hd%wf_node_dom
      by eauto; [lia|done].
Qed.

Lemma linked_node_dom s k : linked s → is_Some (node s k) ↔ 0 ≤ k ≤ inst_id s.
Proof.
  intros H. unfold node. rewrite dict_get_is_Some, (linked_keys _ H), elem_of_seqZ.
  lia.
Qed.

Lemma linked_length s : linked s → Z.of_nat (length (sim_inst_dict s)) = inst_id s + 1.
Proof.
  intros H. pose proof (linked_inst_id _ H).
  rewrite <-(length_fmap fst). fold (dict_keys (sim_inst_dict s)).
  rewrite (linked_keys _ H), length_seqZ. lia.
Qed.

Lemma probed_refl s : probed s s.
Proof.
  exists (heap s). split; [by destruct s|]. intros l.
  exists (SimulationTask.status (heap s l)), (SimulationTask.t (heap s l)),
    (SimulationTask.t_max_extended (heap s l)). by destruct (heap s l).
Qed.

Lemma probed_trans s1 s2 s3 : probed s1 s2 → probed s2 s3 → probed s1 s3.
Proof.
  intros (h & -> & H1) (h' & -> & H2). exists h'. split; [done|].
  intros l. destruct (H2 l) as (st & p & tg & ->). simpl.
  destruct (H1 l) as (st' & p' & tg' & ->). by exists st, p, tg.
Qed.

Lemma probed_node s s' k : probed s s' → node s' k = node s k.
Proof. by intros (h & -> & _). Qed.

Lemma probed_fields s s' l :
  probed s s' →
  SimulationTask.id (heap s' l) = SimulationTask.id (heap s l)
  ∧ SimulationTask.cid (heap s' l) = SimulationTask.cid (heap s l)
  ∧ SimulationTask.level (heap s' l) = SimulationTask.level (heap s l)
  ∧ SimulationTask.parent_id (heap s' l) = SimulationTask.parent_id (heap s l)
  ∧ SimulationTask.niceness (heap s' l) = SimulationTask.niceness (heap s l).
Proof. intros (h & -> & H). simpl. by destruct (H l) as (st & p & tg & ->). Qed.

Lemma probed_linked s s' : probed s s' → linked s → linked s'.
Proof.
  intros H Hl.
  assert (Hn : ∀ k, node s' k = node s k) by (intros; by apply probed_node).
  pose proof (λ l, probed_fields s s' l H) as Hf.
  destruct H as (h & -> & _).
  split; try setoid_rewrite Hn.
  - apply (linked_keys _ Hl).
  - apply (linked_inst_id _ Hl).
  - intros k l Hk. destruct (Hf l) as (-> & _). by apply (linked_id _ Hl).
  - intros k l Hk. destruct (Hf l) as (_ & -> & _). by apply (linked_cid _ Hl).
Qed.

Section Scheduler.
Context {World : Type}.
Variable fnmatch : string → string → bool.
Variable listdir : World → string → list entry.
Variable sim_get_status : World → task → Status * Z * Z.
Variable argsort : list Z → list nat.

Lemma probe_probed w l s : probed s (probe sim_get_status w l s).
Proof.
  unfold probe. destruct (sim_get_status w (heap s l)) as [[st p] tg].
  eexists. split; [reflexivity|]. intros l'. unfold heap_upd.
  case_decide; subst; [by eexists _, _, _|].
  exists (SimulationTask.status (heap s l')), (SimulationTask.t (heap s l')),
    (SimulationTask.t_max_extended (heap s l')). by destruct (heap s l').
Qed.

(** *** The counting loop and the schedule list *)

Lemma poll_node_spec w i vec cj s vec' cj' s' :
  poll_node sim_get_status w i (vec, cj, s) = Ok (vec', cj', s') →
  ∃ l, node s i = Some l
       ∧ vec' = vec ++ [SimulationTask.niceness (heap s l)]
       ∧ probed s s'.
Proof.
  unfold poll_node. intros (l & Hl%from_option_Ok & H)%bind_Ok.
  exists l. split; [done|].
  pose proof (probe_probed w l s).
  destruct (_ && _); injection H as <- <- <-; by split.
Qed.

Lemma poll_nodes_spec w ks : ∀ vec cj s vec' cj' s',
  for_each (poll_node sim_get_status w) ks (vec, cj, s) = Ok (vec', cj', s') →
  probed s s'
  ∧ Forall2 (λ k n, ∃ l, node s k = Some l
                         ∧ n = SimulationTask.niceness (heap s l))
      ks (drop (length vec) vec')
  ∧ take (length vec) vec' = vec.
Proof.
  induction ks as [|k ks IH]; intros vec cj s vec' cj' s' H; cbn [for_each] in H.
  { simplify_eq. split; [apply probed_refl|].
    rewrite drop_all, firstn_all. by split. }
  apply bind_Ok in H as ([[vec1 cj1] s1] & H1 & H).
  apply poll_node_spec in H1 as (l & Hl & -> & Hp1).
  apply IH in H as (Hp & HF & Htake).
  split; [by eapply probed_trans|].
  rewrite length_app in HF, Htake. simpl in HF, Htake.
  assert (vec' = vec ++ SimulationTask.niceness (heap s l)
                    :: drop (length vec + 1) vec') as Hvec.
  { rewrite <-(take_drop (length vec + 1) vec') at 1.
    rewrite Htake, <-app_assoc. done. }
  split.
  - rewrite Hvec at 1. rewrite drop_app_length. constructor; [by eauto|].
    eapply Forall2_impl; [exact HF|]. intros k' n (l' & Hl' & ->).
    exists l'. rewrite <-(probed_node _ _ _ Hp1). split; [done|].
    by destruct (probed_fields _ _ l' Hp1) as (_ & _ & _ & _ & ->).
  - rewrite Hvec. by rewrite take_app_length.
Qed.

Lemma poll_all_spec w s vec cj s' :
  poll_all sim_get_status w s = Ok (vec, cj, s') →
  probed s s'
  ∧ Forall2 (λ k n, ∃ l, node s k = Some l
                         ∧ n = SimulationTask.niceness (heap s l))
      (dict_keys (sim_inst_dict s)) vec.
Proof.
  intros H. apply poll_nodes_spec in H as (? & ? & _). by split.
Qed.

Lemma schedule_node_spec s i acc :
  is_Some (node s (Z.of_nat i)) →
  schedule_node s i acc = Ok (acc ++ omap (scheduled s) [i]).
Proof.
  intros [l Hl]. unfold schedule_node, scheduled, inst_at, node in *.
  cbn [omap list_omap]. rewrite Hl. cbn [from_option mbind result_bind].
  case_bool_decide; cbn [andb]; [|by rewrite app_nil_r].
  case_bool_decide; [done|by rewrite app_nil_r].
Qed.

Lemma make_schedule_list_spec s idx : ∀ acc,
  Forall (λ i, is_Some (node s (Z.of_nat i))) idx →
  for_each (schedule_node s) idx acc = Ok (acc ++ omap (scheduled s) idx).
Proof.
  induction idx as [|i idx IH]; intros acc Hidx; cbn [for_each].
  { by rewrite app_nil_r. }
  inversion_clear Hidx as [|?? Hi Hidx'].
  rewrite (schedule_node_spec s i acc Hi). cbn [mbind result_bind].
  rewrite IH by done. rewrite <-app_assoc. f_equal. f_equal.
  change (i :: idx) with ([i] ++ idx). by rewrite omap_app.
Qed.

Lemma NoDup_omap_inj {A B} (f : A → option B) (l : list A) :
  (∀ x y b, f x = Some b → f y = Some b → x = y) →
  NoDup l → NoDup (omap f l).
Proof.
  intros Hinj. induction 1 as [|x l Hx Hl IH]; cbn [omap list_omap];
    [constructor|].
  fold (omap f l). destruct (f x) as [b|] eqn:E; [|done].
  constructor; [|done]. intros (y & Hin & Hy)%list_elem_of_omap.
  by rewrite (Hinj _ _ _ E Hy) in Hx.
Qed.

Lemma StronglySorted_omap {A B} (R : relation A) (R' : relation B)
    (f : A → option B) (l : list A) :
  (∀ x y a b, x ∈ l → y ∈ l → f x = Some a → f y = Some b → R x y → R' a b) →
  StronglySorted R l → StronglySorted R' (omap f l).
Proof.
  intros HR. induction 1 as [|x l Hl IH Hx]; cbn [omap list_omap];
    [constructor|].
  fold (omap f l).
  assert (StronglySorted R' (omap f l)) as IH'.
  { apply IH. intros ???? ??. apply HR; by right. }
  destruct (f x) as [a|] eqn:E; [|done].
  constructor; [done|]. apply list.Forall_forall.
  intros b (y & Hin & Hy)%list_elem_of_omap.
  apply (HR x y); [by left|by right|done..|].
  rewrite list.Forall_forall in Hx. by apply Hx.
Qed.

Lemma build_simulation_tree_wf w s s' :
  scannable fnmatch listdir w s →
  build_simulation_tree fnmatch listdir sim_get_status w s = Ok s' →
  wf_tree s'.
Proof.
  intros Hscan Hb. unfold build_simulation_tree in Hb.
  apply bind_Ok in Hb as (s1 & Hb & Hs).
  apply bind_Ok in Hs as ([[it un] s2] & Hs & [= <-]).
  pose proof (scannable_wf _ _ _ _ _ _ Hscan Hb) as Hwf.
  destruct (sync_loop_refines (parent_of s1) 30 0 s1 (status_of s1) Hwf)
    as (s2' & Heq & Hsh & _); [done..|].
  unfold sync_status_tree in Hs. rewrite Heq in Hs. injection Hs as _ ->.
  by eapply same_shape_wf.
Qed.

(** C6 (as amended): the dispatch list holds exactly the non-root nodes
    whose status is not DONE, each once, in ascending order of niceness;
    this for every result of the sort that is a permutation of the
    positions ordering the niceness vector (the order among nodes of equal
    niceness is the one the sort yields). *)
Theorem C6_schedule_list_by_niceness w s0 s sim_niceness_vec cj s1 :
  scannable fnmatch listdir w s0 →
  build_simulation_tree fnmatch listdir sim_get_status w s0 = Ok s →
  poll_all sim_get_status w s = Ok (sim_niceness_vec, cj, s1) →
  argsort sim_niceness_vec ≡ₚ seq 0 (length sim_niceness_vec) →
  StronglySorted (λ i j, sim_niceness_vec !!! i ≤ sim_niceness_vec !!! j)
    (argsort sim_niceness_vec) →
  ∃ schedule_list,
    make_schedule_list s1 (argsort sim_niceness_vec) = Ok schedule_list
    ∧ NoDup schedule_list
    ∧ (∀ l, l ∈ schedule_list ↔
            ∃ k, node s1 k = Some l ∧ k ≠ 0
                 ∧ SimulationTask.status (heap s1 l) ≠ STATUS_DONE)
    ∧ StronglySorted
        (λ a b, SimulationTask.niceness (heap s1 a)
                ≤ SimulationTask.niceness (heap s1 b)) schedule_list.
Proof.
  intros Hscan Hb Hpoll Hperm Hsorted.
  pose proof (wf_linked _ (build_simulation_tree_wf _ _ _ Hscan Hb)) as Hl.
  apply poll_all_spec in Hpoll as (Hp & HF).
  pose proof (probed_linked _ _ Hp Hl) as Hl1.
  pose proof (linked_inst_id _ Hl1) as Hn0.
  assert (Hid : inst_id s1 = inst_id s) by (by destruct Hp as (h & -> & _)).
  assert (Hlen : Z.of_nat (length sim_niceness_vec) = inst_id s1 + 1).
  { rewrite <-(Forall2_length _ _ _ HF), (linked_keys _ Hl), length_seqZ. lia. }
  assert (Hin : ∀ i, i ∈ argsort sim_niceness_vec ↔ 0 ≤ Z.of_nat i ≤ inst_id s1).
  { intros i. rewrite Hperm, elem_of_seq. lia. }
  assert (Hvec : ∀ i l, node s1 (Z.of_nat i) = Some l →
            sim_niceness_vec !!! i = SimulationTask.niceness (heap s1 l)).
  { intros i l Hi.
    assert (0 ≤ Z.of_nat i ≤ inst_id s1) as Hr by (apply linked_node_dom; eauto).
    assert (dict_keys (sim_inst_dict s) !! i = Some (Z.of_nat i)) as Hk.
    { rewrite (linked_keys _ Hl), lookup_seqZ. lia. }
    destruct (Forall2_lookup_l _ _ _ _ _ HF Hk) as (n & Hn & l' & Hl' & ->).
    rewrite (list_lookup_total_correct _ _ _ Hn).
    rewrite (probed_node _ _ _ Hp) in Hi. simplify_eq.
    by destruct (probed_fields _ _ l Hp) as (_ & _ & _ & _ & ->). }
  assert (Hsch : ∀ i l, scheduled s1 i = Some l ↔
            node s1 (Z.of_nat i) = Some l
            ∧ SimulationTask.status (heap s1 l) ≠ STATUS_DONE
            ∧ Z.of_nat i ≠ 0).
  { intros i l. unfold scheduled.
    destruct (node s1 (Z.of_nat i)) as [l'|] eqn:E; [|naive_solver].
    rewrite (linked_id _ Hl1 _ _ E).
    case_bool_decide; cbn [andb]; [|naive_solver].
    case_bool_decide; [naive_solver lia|naive_solver lia]. }
  exists (omap (scheduled s1) (argsort sim_niceness_vec)).
  split; [|split; [|split]].
  - unfold make_schedule_list. rewrite make_schedule_list_spec; [done|].
    apply list.Forall_forall. intros i Hi%Hin. by apply linked_node_dom.
  - apply NoDup_omap_inj; [|rewrite Hperm; apply NoDup_seq].
    intros x y l [Hx _]%Hsch [Hy _]%Hsch.
    apply Nat2Z.inj. rewrite <-(linked_id _ Hl1 _ _ Hx). by apply (linked_id _ Hl1).
  - intros l. rewrite list_elem_of_omap. split.
    + intros (i & _ & (? & ? & ?)%Hsch). by exists (Z.of_nat i).
    + intros (k & Hk & Hk0 & Hst).
      assert (0 ≤ k ≤ inst_id s1) as Hr by (apply linked_node_dom; eauto).
      exists (Z.to_nat k). rewrite Hin, Hsch, Z2Nat.id by lia.
      split; [lia|]. split; [done|]. split; [done|lia].
  - eapply StronglySorted_omap; [|exact Hsorted].
    intros x y a b _ _ [Hx _]%Hsch [Hy _]%Hsch. cbn beta.
    by rewrite (Hvec _ _ Hx), (Hvec _ _ Hy).
Qed.

(** *** The dispatcher *)

Variables sim_start sim_restart sim_kill sim_backup_checkpoint
  : World → task → World.

Local Abbreviation dispatch :=
  (dispatch fnmatch listdir sim_get_status sim_start sim_restart sim_kill
     sim_backup_checkpoint).

(** The walk along the restart candidates ends, within as many hops as the
    dictionary has entries, at a node without a candidate. *)
Lemma restart_leaf_total s : linked s → ∀ hops current_inst,
  (SimulationTask.cid (heap s current_inst) = -1
   ∨ (0 ≤ SimulationTask.cid (heap s current_inst) ≤ inst_id s
      ∧ inst_id s - SimulationTask.cid (heap s current_inst) < Z.of_nat hops)) →
  ∃ leaf, restart_leaf hops s current_inst = Ok leaf
          ∧ SimulationTask.cid (heap s leaf) = -1
          ∧ cid_chain s current_inst leaf.
Proof.
  intros Hl. induction hops as [|hops IH]; intros cur Hcur; cbn [restart_leaf].
  - destruct Hcur as [Hc|[? ?]]; [|lia].
    rewrite bool_decide_false by (intros Hne; by apply Hne).
    exists cur. split; [done|]. split; [done|constructor].
  - case_bool_decide as Hc.
    + destruct Hcur as [?|[Hr Hh]]; [done|].
      assert (is_Some (node s (SimulationTask.cid (heap s cur)))) as [next Hn]
        by by apply linked_node_dom.
      unfold inst_at. fold (node s (SimulationTask.cid (heap s cur))).
      rewrite Hn. cbn [from_option mbind result_bind].
      destruct (IH next) as (leaf & Hleaf & Hcid & Hchain).
      { destruct (decide (SimulationTask.cid (heap s next) = -1)) as [|Hne];
          [by left|right].
        pose proof (linked_cid _ Hl _ _ Hn Hne). lia. }
      exists leaf. split; [done|]. split; [done|]. by eapply chain_hop.
    + exists cur. split; [done|].
      split; [first [done|by apply dec_stable]|constructor].
Qed.

(** C3: a STOPPED node met by the dispatch loop is restarted only if a slot
    is free and it is top-level; the restart then goes to the node reached
    by following [cid] from it until a node whose [cid] is -1, and to no
    other node.  A STOPPED node that is not top-level, or met without a
    free slot, triggers nothing. *)
Theorem C3_restart_goes_to_the_leaf_of_the_chain sim st :
  let s := probe sim_get_status (world st) sim (mon st) in
  linked (mon st) →
  SimulationTask.cid (heap s sim) = -1
  ∨ is_Some (node s (SimulationTask.cid (heap s sim))) →
  SimulationTask.id (heap (mon st) sim) ≠ 0 →
  SimulationTask.status (heap s sim) = STATUS_STOP →
  if (concurrent_jobs st <? max_concurrent_jobs s)
     && bool_decide (SimulationTask.level (heap s sim) = 1)
  then ∃ leaf,
         dispatch sim st
         = Ok (mkSched (concurrent_jobs st + 1) s
                 (sim_restart (world st) (heap s leaf))
                 (issued st ++ [DoRestart leaf]))
         ∧ SimulationTask.cid (heap s leaf) = -1
         ∧ cid_chain s sim leaf
  else dispatch sim st
       = Ok (mkSched (concurrent_jobs st) s (world st) (issued st)).
Proof.
  intros s Hl Hcid Hid Hst.
  pose proof (probed_linked _ _ (probe_probed (world st) sim (mon st)) Hl) as Hl'.
  fold s in Hl'. unfold_dispatch.
  rewrite (bool_decide_false (SimulationTask.id (heap (mon st) sim) = 0))
    by done.
  fold s. rewrite Hst.
  destruct (_ && _) eqn:E; [|done].
  destruct (restart_leaf_total s Hl' (length (sim_inst_dict s)) sim)
    as (leaf & -> & Hleaf & Hchain).
  { destruct Hcid as [?|Hdom%linked_node_dom]; [by left|right|done].
    split; [done|]. rewrite (linked_length _ Hl'). lia. }
  exists leaf. by repeat split.
Qed.

End Scheduler.

Lemma C1_witness :
  ∃ acts, issued Pass.three_end = issued Pass.three_start ++ acts
    ∧ concurrent_jobs Pass.three_end
      = concurrent_jobs Pass.three_start + dispatches acts
    ∧ (0 < dispatches acts →
       concurrent_jobs Pass.three_end
       ≤ max_concurrent_jobs (mon Pass.three_start)).
Proof.
  apply (proj2 (C1_concurrency_ceiling Example.fnmatch_star
                  (λ _ _, Pass.three) Example.probe_dir Example.no_effect
                  Example.no_effect Example.no_effect Example.no_effect)
           [3%nat; 4%nat; 2%nat] Pass.three_start Pass.three_end).
  vm_compute; reflexivity.
Defined.

Lemma C3_witness :
  let st := Pass.chain_start in
  let s := probe Example.probe_dir (world st) 2%nat (mon st) in
  ((concurrent_jobs st <? max_concurrent_jobs s)
   && bool_decide (SimulationTask.level (heap s 2%nat) = 1) = true)
  ∧ if (concurrent_jobs st <? max_concurrent_jobs s)
       && bool_decide (SimulationTask.level (heap s 2%nat) = 1)
    then ∃ leaf,
           dispatch Example.fnmatch_star (λ _ _, Pass.chain) Example.probe_dir
             Example.no_effect Example.no_effect Example.no_effect
             Example.no_effect 2%nat st
           = Ok (mkSched (concurrent_jobs st + 1) s
                   (Example.no_effect (world st) (heap s leaf))
                   (issued st ++ [DoRestart leaf]))
           ∧ SimulationTask.cid (heap s leaf) = -1
           ∧ cid_chain s 2%nat leaf
    else dispatch Example.fnmatch_star (λ _ _, Pass.chain) Example.probe_dir
           Example.no_effect Example.no_effect Example.no_effect
           Example.no_effect 2%nat st
         = Ok (mkSched (concurrent_jobs st) s (world st) (issued st)).
Proof.
  cbv zeta. split; [vm_compute; reflexivity|].
  apply (C3_restart_goes_to_the_leaf_of_the_chain Example.fnmatch_star
           (λ _ _, Pass.chain) Example.probe_dir Example.no_effect
           Example.no_effect Example.no_effect Example.no_effect
           2%nat Pass.chain_start).
  - apply wf_linked.
    apply (build_simulation_tree_wf Example.fnmatch_star (λ _ _, Pass.chain)
             Example.probe_dir Pass.w_chain (Example.monitor "/data" 2)).
    + split; [done|]. split; vm_compute; reflexivity.
    + vm_compute; reflexivity.
  - right. vm_compute. by eexists.
  - vm_compute. done.
  - vm_compute; reflexivity.
Defined.

Lemma C6_witness :
  ∃ schedule_list,
    make_schedule_list Pass.three_polled.2
      (numpy.argsort Pass.three_polled.1.1) = Ok schedule_list
    ∧ NoDup schedule_list
    ∧ (∀ l, l ∈ schedule_list ↔
         ∃ k, node Pass.three_polled.2 k = Some l ∧ k ≠ 0
              ∧ SimulationTask.status (heap Pass.three_polled.2 l)
                ≠ STATUS_DONE)
    ∧ StronglySorted
        (λ a b, SimulationTask.niceness (heap Pass.three_polled.2 a)
                ≤ SimulationTask.niceness (heap Pass.three_polled.2 b))
        schedule_list.
Proof.
  apply (C6_schedule_list_by_niceness Example.fnmatch_star
           (λ _ _, Pass.three) Example.probe_dir numpy.argsort
           Example.idle (Example.monitor "/data" 2) Pass.three_built
           Pass.three_polled.1.1 Pass.three_polled.1.2 Pass.three_polled.2).
  - split; [done|]. split; vm_compute; reflexivity.
  - vm_compute; reflexivity.
  - vm_compute; reflexivity.
  - vm_compute.
    change ([0; 2; 3; 1]%nat ≡ₚ [0; 1; 2; 3]%nat).
    apply perm_skip. symmetry.
    apply (Permutation_cons_append [2; 3]%nat 1%nat).
  - vm_compute numpy.argsort. vm_compute (Pass.three_polled.1.1).
    repeat (apply SSorted_cons; [|repeat constructor; vm_compute; congruence]).
    constructor.
Defined.

(** [C6] - counterexample: with eighteen dictionary entries of one
    niceness, numpy's default argsort puts the node of id 15 first and the
    node of id 1 sixteenth, so equal niceness is not served in the order
    of the ids. *)
Lemma C6_counterexample :
  ∃ s vec cj s1 schedule_list,
    Example.build Pass.seventeen Example.idle (Example.monitor "/data" 2)
    = Ok s
    ∧ poll_all Example.probe_dir Example.idle s = Ok (vec, cj, s1)
    ∧ vec = replicate 18 0
    ∧ make_schedule_list s1 (numpy.argsort vec) = Ok schedule_list
    ∧ (λ l, SimulationTask.id (heap s1 l)) <$> schedule_list
      = [15; 14; 13; 12; 11; 10; 9; 8; 7; 6; 5; 4; 3; 2; 1; 16; 17].
Proof.
  do 5 eexists.
  do 4 (split; [vm_compute; reflexivity|]).
  vm_compute; reflexivity.
Defined.

(** ** The scan as a sequence of registrations *)

Section Trace.
Context {World : Type}.
Variable fnmatch : string → string → bool.
Variable listdir : World → string → list entry.
Variable sim_get_status : World → task → Status * Z * Z.

Local Abbreviation scanned := (scanned sim_get_status).

Lemma scanned_app w s t1 s1 t2 s2 :
  scanned w s t1 s1 → scanned w s1 t2 s2 → scanned w s (t1 ++ t2) s2.
Proof.
  intros H1 H2. induction H2 as [|s1 tr s2 s3 ???????? IH].
  - by rewrite app_nil_r.
  - rewrite app_assoc. eapply scanned_snoc; eauto.
Qed.

Lemma scanned_one w s base filename nice err p kp s' :
  wf_tree s → sim_inst_parent_dict s !! base = Some p → node s kp = Some p →
  valid_name filename = true →
  registers sim_get_status w base filename nice err p kp s s' →
  scanned w s [join base filename] s'.
Proof.
  intros. eapply (scanned_snoc _ _ s [] s); [constructor|eassumption..].
Qed.


Lemma visit_scanned w pattern base e s s' :
  (∀ n, fnmatch n pattern = true) →
  wf_tree s → registered s base → valid_entry e = true →
  visit fnmatch sim_get_status w pattern base e s = Ok s' →
  scanned w s (option_list (dir_path base e)) s'.
Proof.
  intros Hmatch Hwf Hbase Hvalid Hv. destruct e as [n|n conf nice err sub].
  - simpl in Hv. simplify_eq. constructor.
  - destruct Hbase as (p & kp & Hp & Hkp).
    simpl in Hvalid. apply andb_true_iff in Hvalid as [Hn _].
    pose proof (visit_Dir fnmatch sim_get_status _ _ _ _ _ _ _ _ _ _ _ _ Hwf Hp Hkp Hn (Hmatch n) Hv)
      as Hreg.
    simpl. by eapply scanned_one.
Qed.

Lemma visit_all_scanned w pattern base es : ∀ s s',
  (∀ n, fnmatch n pattern = true) →
  wf_tree s → registered s base → Forall (λ e, valid_entry e = true) es →
  for_each (visit fnmatch sim_get_status w pattern base) es s = Ok s' →
  scanned w s (omap (dir_path base) es) s'.
Proof.
  induction es as [|e es IH]; intros s s' Hmatch Hwf Hbase Hvalid Hv;
    simpl in Hv.
  - simplify_eq. constructor.
  - apply bind_Ok in Hv as (s1 & H1 & Hv).
    apply Forall_cons in Hvalid as [He Hes].
    destruct (visit_wf fnmatch listdir sim_get_status _ _ _ _ _ _ Hmatch Hwf Hbase He H1)
      as (Hwf1 & Hm1 & _).
    pose proof (visit_scanned _ _ _ _ _ _ Hmatch Hwf Hbase He H1) as Hs1.
    pose proof (IH _ _ Hmatch Hwf1 (Hm1 _ Hbase) Hes Hv) as Hs2.
    pose proof (scanned_app _ _ _ _ _ _ Hs1 Hs2) as Hs.
    simpl. by destruct (dir_path base e).
Qed.

Lemma traverse_scanned w pattern base files s s' :
  (∀ n, fnmatch n pattern = true) →
  wf_tree s → registered s base → Forall (λ e, valid_entry e = true) files →
  traverse_simulation_dir_tree fnmatch sim_get_status w pattern base files s
    = Ok s' →
  scanned w s (omap (dir_path base) (sorted files)) s'.
Proof.
  intros Hmatch Hwf Hbase Hvalid Hv. unfold traverse_simulation_dir_tree in Hv.
  apply visit_all_scanned in Hv; try done. by rewrite sorted_perm.
Qed.

Lemma walk_all_scanned w pattern top l : ∀ s s',
  (∀ n, fnmatch n pattern = true) →
  Forall (λ e, ∀ top s s',
    wf_tree s → valid_entry e = true → dir_registered s top e →
    walk_entry fnmatch sim_get_status w pattern top e s = Ok s' →
    scanned w s (discovered top e) s') l →
  Forall (λ e, valid_entry e = true) l →
  wf_tree s → (∀ e, e ∈ l → dir_registered s top e) →
  for_each (walk_entry fnmatch sim_get_status w pattern top) l s = Ok s' →
  scanned w s (flat_map (discovered top) l) s'.
Proof.
  induction l as [|e l IH]; intros s s' Hmatch Hok Hvalid Hwf Hreg Hw;
    simpl in Hw.
  - simplify_eq. constructor.
  - apply bind_Ok in Hw as (s1 & H1 & Hw).
    apply Forall_cons in Hvalid as [Hve Hvl].
    apply Forall_cons in Hok as [He Hl].
    assert (dir_registered s top e) as Hre by (apply Hreg; left).
    destruct (walk_entry_wf fnmatch listdir sim_get_status w pattern e Hmatch
                top s s1 Hwf Hve Hre H1) as [Hwf1 Hm1].
    pose proof (He top s s1 Hwf Hve Hre H1) as Hs1.
    simpl. eapply scanned_app; [exact Hs1|].
    apply IH; try done.
    intros e' He'. specialize (Hreg e' (list_elem_of_further _ _ _ He')).
    destruct e'; simpl in *; auto.
Qed.

Lemma walk_entry_scanned w pattern e :
  (∀ n, fnmatch n pattern = true) →
  ∀ top s s',
    wf_tree s → valid_entry e = true → dir_registered s top e →
    walk_entry fnmatch sim_get_status w pattern top e s = Ok s' →
    scanned w s (discovered top e) s'.
Proof.
  intros Hmatch. induction e as [n|n conf nice err sub IH] using entry_tree_ind;
    intros top s s' Hwf Hvalid Hreg Hw.
  - simpl in Hw. simplify_eq. constructor.
  - rewrite walk_entry_Dir in Hw. apply bind_Ok in Hw as (s1 & H1 & Hw).
    apply valid_entry_Dir in Hvalid as [_ Hsub]. simpl in Hreg.
    pose proof (traverse_scanned _ _ _ _ _ _ Hmatch Hwf Hreg Hsub H1) as Hs1.
    apply (traverse_wf fnmatch listdir) in H1 as (Hwf1 & Hm1 & Hr1); [|done..].
    simpl. eapply scanned_app; [exact Hs1|].
    apply (walk_all_scanned w pattern); try done.
    intros [|n' c' ni' er' sb'] Hin; simpl; eauto.
Qed.

Lemma scan_start_wf s :
  strip (cwd s) = cwd s → wf_tree (scan_start s) ∧ registered (scan_start s) (cwd s).
Proof. intros Hs. apply (strip_root_registered s Hs). Qed.

(** The scan of [build_simulation_tree] is the sequence of registrations
    in the order of discovery. *)
Lemma build_scan_scanned w s s' :
  scannable fnmatch listdir w s →
  build_scan fnmatch listdir sim_get_status w s = Ok s' →
  scanned w (scan_start s) (discovery (cwd s) (listdir w (cwd s))) s'.
Proof.
  intros (Hmatch & Hstrip & Hvalid) Hb. unfold build_scan in Hb.
  destruct (scan_start_wf _ Hstrip) as [Hwf0 Hreg0].
  assert (Forall (λ e, valid_entry e = true) (listdir w (cwd s))) as Hval.
  { apply Forall_forall. intros e He. rewrite forallb_forall in Hvalid.
    apply Hvalid. by apply list_elem_of_In. }
  unfold scan_start in *.
  mon_simpl. unfold os_path_walk in Hb. mon_simpl.
  apply bind_Ok in Hb as (s1 & H1 & Hb).
  pose proof (traverse_scanned _ _ _ _ _ _ Hmatch Hwf0 Hreg0 Hval H1) as Hs1.
  apply (traverse_wf fnmatch listdir) in H1 as (Hwf1 & Hm1 & Hr1); [|done..].
  unfold discovery. eapply scanned_app; [exact Hs1|].
  apply (walk_all_scanned w "*"); try done.
  - apply Forall_forall. intros e _. by apply walk_entry_scanned.
  - intros [|n' c' ni' er' sb'] Hin; simpl; eauto.
Qed.

End Trace.

(** ** What a sequence of registrations leaves behind *)

Section TraceFacts.
Context {World : Type}.
Variable fnmatch : string → string → bool.
Variable listdir : World → string → list entry.
Variable sim_get_status : World → task → Status * Z * Z.

Local Abbreviation scanned := (scanned sim_get_status).

Lemma reg_old_attrs w base filename nice err p kp s s' x y :
  wf_tree s →
  registers sim_get_status w base filename nice err p kp s s' →
  node s x = Some y →
  SimulationTask.fulldir (heap s' y) = SimulationTask.fulldir (heap s y)
  ∧ SimulationTask.name (heap s' y) = SimulationTask.name (heap s y)
  ∧ SimulationTask.niceness (heap s' y) = SimulationTask.niceness (heap s y).
Proof.
  intros Hwf Hreg Hy.
  assert (y ≠ next_loc s) by (pose proof (wf_fresh _ Hwf _ _ Hy); lia).
  destruct (decide (y = p)) as [->|Hp].
  - rewrite (reg_parent _ _ _ _ _ _ _ _ _ _ Hreg).
    by destruct (_ && _).
  - by rewrite (reg_frame _ _ _ _ _ _ _ _ _ _ Hreg).
Qed.

Lemma scanned_count w s tr s' :
  scanned w s tr s' →
  inst_id s' = inst_id s + Z.of_nat (length tr)
  ∧ next_loc s' = (next_loc s + length tr)%nat
  ∧ sim_tree s' = sim_tree s.
Proof.
  induction 1 as [|s tr s1 s' base filename nice err p kp _ (IH1 & IH2 & IH3)
                    _ _ _ _ Hreg].
  - simpl. split; [lia|]. split; [lia|done].
  - rewrite (reg_inst_id _ _ _ _ _ _ _ _ _ _ Hreg),
      (reg_next _ _ _ _ _ _ _ _ _ _ Hreg),
      (reg_tree _ _ _ _ _ _ _ _ _ _ Hreg), length_app. simpl.
    split; [lia|]. split; [lia|done].
Qed.


Lemma scanned_new w s tr s' :
  scanned w s tr s' →
  ∀ k l, node s' k = Some l → node s k = Some l ∨ (next_loc s ≤ l)%nat.
Proof.
  induction 1 as [|s tr s1 s' base filename nice err p kp Hsc IH
                    Hwf1 _ Hkp _ Hreg]; [by left|].
  intros k l [[-> ->]|[_ Hl]]%(reg_node fnmatch listdir sim_get_status Hwf1 Hreg).
  - right. destruct (scanned_count _ _ _ _ Hsc) as (_ & -> & _). lia.
  - by apply IH.
Qed.

Lemma scanned_nodes w s tr s' :
  scanned w s tr s' →
  ∀ i path, tr !! i = Some path →
    ∃ l, node s' (inst_id s + 1 + Z.of_nat i) = Some l
         ∧ SimulationTask.id (heap s' l) = inst_id s + 1 + Z.of_nat i
         ∧ SimulationTask.fulldir (heap s' l) = path.
Proof.
  induction 1 as [|s tr s1 s' base filename nice err p kp Hsc IH
                    Hwf1 _ Hkp _ Hreg]; [done|].
  intros i path Hi.
  destruct (scanned_count _ _ _ _ Hsc) as (Hid & _ & _).
  apply lookup_app_Some in Hi as [Hi|[Hlen Hi]].
  - destruct (IH i path Hi) as (l & Hl & Hlid & Hlf).
    exists l.
    assert (inst_id s + 1 + Z.of_nat i ≠ inst_id s1 + 1).
    { assert (is_Some (node s1 (inst_id s + 1 + Z.of_nat i)))
        as Hd%wf_node_dom by eauto; [lia|done]. }
    split; [|split].
    + apply (reg_node fnmatch listdir sim_get_status Hwf1 Hreg). by right.
    + rewrite <-Hlid.
      by destruct (reg_old_fields fnmatch listdir sim_get_status Hwf1 Hreg
                     _ _ Hl) as (-> & _).
    + rewrite <-Hlf.
      by destruct (reg_old_attrs _ _ _ _ _ _ _ _ _ _ _ Hwf1 Hreg Hl) as (-> & _).
  - apply list_lookup_singleton_Some in Hi as [Hi <-].
    assert (Z.of_nat i = Z.of_nat (length tr)) as -> by lia.
    exists (next_loc s1).
    replace (inst_id s + 1 + Z.of_nat (length tr)) with (inst_id s1 + 1) by lia.
    split; [|split].
    + apply (reg_node fnmatch listdir sim_get_status Hwf1 Hreg). by left.
    + by rewrite (reg_new _ _ _ _ _ _ _ _ _ _ Hreg).
    + by rewrite (reg_new _ _ _ _ _ _ _ _ _ _ Hreg).
Qed.

Lemma scanned_frame w s tr s' :
  scanned w s tr s' →
  ∀ l, (l < next_loc s)%nat → (∀ k, node s k ≠ Some l) →
       heap s' l = heap s l.
Proof.
  induction 1 as [|s tr s1 s' base filename nice err p kp Hsc IH
                    Hwf1 _ Hkp _ Hreg]; [done|].
  intros l Hl Hnode. rewrite <-(IH l Hl Hnode).
  destruct (scanned_count _ _ _ _ Hsc) as (_ & Hnext & _).
  apply (reg_frame _ _ _ _ _ _ _ _ _ _ Hreg); [lia|].
  intros ->. destruct (scanned_new _ _ _ _ Hsc _ _ Hkp) as [?|?]; [|lia].
  by eapply Hnode.
Qed.

Lemma scanned_paths w s tr s' :
  scanned w s tr s' →
  ∀ path, path ∉ tr →
    sim_inst_parent_dict s' !! path = sim_inst_parent_dict s !! path.
Proof.
  induction 1 as [|s tr s1 s' base filename nice err p kp Hsc IH
                    Hwf1 _ Hkp _ Hreg]; [done|].
  intros path Hpath. rewrite not_elem_of_app, not_elem_of_cons in Hpath.
  destruct Hpath as (Hpath & Hne & _).
  rewrite (reg_paths _ _ _ _ _ _ _ _ _ _ Hreg), lookup_insert_ne by done.
  by apply IH.
Qed.

Lemma scanned_registered w s tr s' :
  scanned w s tr s' →
  (∀ path, registered s path → registered s' path)
  ∧ ∀ path, path ∈ tr → registered s' path.
Proof.
  induction 1 as [|s tr s1 s' base filename nice err p kp Hsc [IH1 IH2]
                    Hwf1 _ Hkp _ Hreg].
  - split; [done|]. by intros path ?%elem_of_nil.
  - pose proof (registers_registered fnmatch listdir sim_get_status Hwf1 Hreg)
      as Hold.
    split; [by auto|].
    intros path [Hin| ->%list_elem_of_singleton]%elem_of_app; [by auto|].
    by eapply (registers_new_registered fnmatch listdir sim_get_status).
Qed.

(** *** The status propagator writes to dictionary nodes only *)

Lemma sync_node_writes k m s m' s' :
  sync_node k (m, s) = Ok (m', s') →
  s' = s
  ∨ ∃ kp p st, node s kp = Some p
               ∧ s' = modify p (SimulationTask.set_status st) s.
Proof.
  unfold sync_node. case_bool_decide as Hk; [intros [= <- <-]; by left|].
  intros (inst & _ & Hi)%bind_Ok. revert Hi.
  destruct (run_or_done _) eqn:Hrd; [|intros [= <- <-]; by left].
  case_bool_decide as Hpid; [|intros [= <- <-]; by left].
  intros (p & Hp & Hi)%bind_Ok. revert Hi.
  case_bool_decide as Hne; [|intros [= <- <-]; by left].
  intros (p' & Hp' & [= <- <-])%bind_Ok. right.
  rewrite Hp in Hp'. injection Hp' as <-.
  apply from_option_Ok in Hp. eauto 10.
Qed.

Lemma restatused_refl s : restatused s s.
Proof. split; [apply same_shape_refl|done]. Qed.

Lemma restatused_trans s1 s2 s3 :
  restatused s1 s2 → restatused s2 s3 → restatused s1 s3.
Proof.
  intros [H1 F1] [H2 F2]. split; [by eapply same_shape_trans|].
  intros l Hl. rewrite F2, F1; [done..|].
  intros k. rewrite (same_shape_node _ _ _ H1). apply Hl.
Qed.

Lemma sync_nodes_restatused ks : ∀ m s m' s',
  for_each sync_node ks (m, s) = Ok (m', s') → restatused s s'.
Proof.
  induction ks as [|k ks IH]; intros m s m' s' H; cbn [for_each] in H.
  { simplify_eq. apply restatused_refl. }
  apply bind_Ok in H as ([m1 s1] & H1 & H).
  eapply restatused_trans; [|by eapply IH].
  apply sync_node_writes in H1 as [->|(kp & p & st & Hp & ->)];
    [apply restatused_refl|].
  split; [apply same_shape_modify|].
  intros l Hl. cbn [heap modify set_heap]. rewrite heap_upd_ne; [done|].
  intros ->. by eapply Hl.
Qed.

Lemma sync_loop_restatused bound : ∀ max_iter s it un s',
  sync_loop bound max_iter s = Ok (it, un, s') → restatused s s'.
Proof.
  induction bound as [|bound IH]; intros max_iter s it un s' H;
    cbn [sync_loop] in H.
  { simplify_eq. apply restatused_refl. }
  apply bind_Ok in H as ([m s1] & H1 & H).
  apply sync_nodes_restatused in H1.
  destruct m; [|simplify_eq; done].
  eapply restatused_trans; [done|by eapply IH].
Qed.

(** *** The build as a whole *)

Lemma build_simulation_tree_scanned w s s' :
  scannable fnmatch listdir w s →
  build_simulation_tree fnmatch listdir sim_get_status w s = Ok s' →
  ∃ s1, scanned w (scan_start s) (discovery (cwd s) (listdir w (cwd s))) s1
        ∧ wf_tree s1 ∧ restatused s1 s'.
Proof.
  intros Hscan Hb. unfold build_simulation_tree in Hb.
  apply bind_Ok in Hb as (s1 & Hb & Hs).
  apply bind_Ok in Hs as ([[it un] s2] & Hs & [= <-]).
  exists s1. split; [by apply (build_scan_scanned fnmatch listdir)|].
  split; [by eapply scannable_wf|].
  by eapply sync_loop_restatused.
Qed.

Lemma scan_start_node s k l :
  node (scan_start s) k = Some l ↔ k = 0 ∧ l = next_loc s.
Proof.
  unfold node, scan_start. simpl. case_decide; naive_solver.
Qed.

(** X1: the tree builder numbers the directories in the order of
    discovery: after a build there is one node per directory below the
    root directory, the ids are 0 .. [inst_id] without a gap, and the node
    of id [i + 1] stands for the [i]-th directory of the walk - for every
    directory its sub-directories in sorted order, then the sub-trees in
    listing order. *)
Theorem X1_ids_follow_the_order_of_discovery w s s' :
  scannable fnmatch listdir w s →
  build_simulation_tree fnmatch listdir sim_get_status w s = Ok s' →
  let paths := discovery (cwd s) (listdir w (cwd s)) in
  inst_id s' = Z.of_nat (length paths)
  ∧ dict_keys (sim_inst_dict s') = seqZ 0 (Z.of_nat (length paths) + 1)
  ∧ ∀ i path, paths !! i = Some path →
      ∃ l, node s' (Z.of_nat i + 1) = Some l
           ∧ SimulationTask.id (heap s' l) = Z.of_nat i + 1
           ∧ SimulationTask.fulldir (heap s' l) = path.
Proof.
  intros Hscan Hb paths.
  destruct (build_simulation_tree_scanned _ _ _ Hscan Hb)
    as (s1 & Hsc & Hwf1 & Hsh & _).
  destruct (scanned_count _ _ _ _ Hsc) as (Hid & _ & _).
  assert (inst_id s' = inst_id s1) as Hid'
    by (by destruct Hsh as (h & -> & _)).
  assert (sim_inst_dict s' = sim_inst_dict s1) as Hd'
    by (by destruct Hsh as (h & -> & _)).
  fold paths in Hid, Hsc. simpl in Hid.
  split; [lia|]. split.
  - rewrite Hd', (wf_keys _ Hwf1). f_equal. lia.
  - intros i path Hi.
    destruct (scanned_nodes _ _ _ _ Hsc i path Hi) as (l & Hl & Hlid & Hlf).
    simpl in Hl, Hlid. exists l.
    rewrite (same_shape_node _ _ _ Hsh).
    destruct Hsh as (h & -> & Hh). simpl. destruct (Hh l) as [st ->]. simpl.
    replace (Z.of_nat i + 1) with (0 + 1 + Z.of_nat i) by lia. done.
Qed.

(** X2: after a build the id dictionary holds only objects created by
    this build, one object per id. *)
Theorem X2_dictionary_holds_fresh_objects w s s' :
  scannable fnmatch listdir w s →
  build_simulation_tree fnmatch listdir sim_get_status w s = Ok s' →
  (∀ k l, node s' k = Some l → (next_loc s ≤ l < next_loc s')%nat)
  ∧ ∀ k1 k2 l, node s' k1 = Some l → node s' k2 = Some l → k1 = k2.
Proof.
  intros Hscan Hb.
  destruct (build_simulation_tree_scanned _ _ _ Hscan Hb)
    as (s1 & Hsc & Hwf1 & Hsh & _).
  assert (next_loc s' = next_loc s1) as Hn
    by (by destruct Hsh as (h & -> & _)).
  split.
  - intros k l. rewrite (same_shape_node _ _ _ Hsh), Hn. intros Hl.
    split; [|by apply (wf_fresh _ Hwf1 _ _ Hl)].
    destruct (scanned_new _ _ _ _ Hsc _ _ Hl) as [[_ ->]%scan_start_node|Hge];
      [done|].
    simpl in Hge. lia.
  - intros k1 k2 l. rewrite !(same_shape_node _ _ _ Hsh).
    by apply wf_node_inj.
Qed.

(** X3: a build writes to no object of an earlier cycle, and leaves the
    configuration of the monitor alone. *)
Theorem X3_objects_of_earlier_cycles_are_not_written w s s' :
  scannable fnmatch listdir w s →
  build_simulation_tree fnmatch listdir sim_get_status w s = Ok s' →
  (∀ l, (l < next_loc s)%nat → heap s' l = heap s l)
  ∧ max_concurrent_jobs s' = max_concurrent_jobs s
  ∧ module_dict s' = module_dict s
  ∧ cwd s' = cwd s.
Proof.
  intros Hscan Hb. split; [|by eapply build_simulation_tree_config].
  destruct (build_simulation_tree_scanned _ _ _ Hscan Hb)
    as (s1 & Hsc & Hwf1 & Hsh & Hfr).
  intros l Hl.
  assert (∀ k, node s1 k ≠ Some l) as Hnot.
  { intros k Hk.
    destruct (scanned_new _ _ _ _ Hsc _ _ Hk) as [[_ ->]%scan_start_node|Hge];
      [lia|]. simpl in Hge. lia. }
  rewrite (Hfr l Hnot), (scanned_frame _ _ _ _ Hsc l).
  - simpl. rewrite heap_upd_ne; [done|lia].
  - simpl. lia.
  - intros k [_ ->]%scan_start_node. lia.
Qed.

(** X4: the path dictionary is never cleared: a build maps the root
    directory and every directory it discovers to a node of the new
    dictionary, and leaves every other path with the object it had before
    the build. *)
Theorem X4_path_dictionary_only_grows w s s' :
  scannable fnmatch listdir w s →
  build_simulation_tree fnmatch listdir sim_get_status w s = Ok s' →
  let paths := cwd s :: discovery (cwd s) (listdir w (cwd s)) in
  (∀ path, path ∈ paths →
     ∃ l k, sim_inst_parent_dict s' !! path = Some l ∧ node s' k = Some l)
  ∧ (∀ path, path ∉ paths →
       sim_inst_parent_dict s' !! path = sim_inst_parent_dict s !! path).
Proof.
  intros Hscan Hb paths.
  destruct (build_simulation_tree_scanned _ _ _ Hscan Hb)
    as (s1 & Hsc & Hwf1 & Hsh & _).
  destruct Hscan as (_ & Hstrip & _).
  destruct (scanned_registered _ _ _ _ Hsc) as [Hold Hnew].
  assert (sim_inst_parent_dict s' = sim_inst_parent_dict s1) as ->
    by (by destruct Hsh as (h & -> & _)).
  split.
  - intros path Hin. setoid_rewrite (same_shape_node _ _ _ Hsh).
    apply elem_of_cons in Hin as [->|Hin]; [|by apply Hnew].
    apply Hold. by apply scan_start_wf.
  - intros path [Hne Hnot]%not_elem_of_cons.
    rewrite (scanned_paths _ _ _ _ Hsc path Hnot). simpl.
    rewrite Hstrip. by rewrite lookup_insert_ne.
Qed.

(** X5: the links of the tree a build leaves behind: the root is the node
    of id 0, and every other node has a parent of a smaller id in the
    dictionary, one level above it. *)
Theorem X5_parent_links_after_a_build w s s' :
  scannable fnmatch listdir w s →
  build_simulation_tree fnmatch listdir sim_get_status w s = Ok s' →
  node s' 0 = Some (sim_tree s')
  ∧ ∀ k l, node s' k = Some l → k ≠ 0 →
      ∃ p, 0 ≤ SimulationTask.parent_id (heap s' l) < k
           ∧ node s' (SimulationTask.parent_id (heap s' l)) = Some p
           ∧ SimulationTask.level (heap s' l)
             = SimulationTask.level (heap s' p) + 1.
Proof.
  intros Hscan Hb.
  pose proof (build_simulation_tree_wf fnmatch listdir sim_get_status
                _ _ _ Hscan Hb) as Hwf.
  split; [apply (wf_root _ Hwf)|].
  intros k l Hl Hk.
  destruct (wf_parent _ Hwf _ _ Hl Hk) as (p & Hlt & Hp & Hlev).
  exists p. split; [lia|]. by split.
Qed.

End TraceFacts.

Lemma X1_witness :
  let paths := discovery "/data" Example.fork in
  inst_id Example.fork_built = Z.of_nat (length paths)
  ∧ dict_keys (sim_inst_dict Example.fork_built)
    = seqZ 0 (Z.of_nat (length paths) + 1)
  ∧ ∀ i path, paths !! i = Some path →
      ∃ l, node Example.fork_built (Z.of_nat i + 1) = Some l
           ∧ SimulationTask.id (heap Example.fork_built l) = Z.of_nat i + 1
           ∧ SimulationTask.fulldir (heap Example.fork_built l) = path.
Proof.
  apply (X1_ids_follow_the_order_of_discovery Example.fnmatch_star
           (λ _ _, Example.fork) Example.probe_dir Example.w_fork
           (Example.monitor "/data" 2) Example.fork_built).
  - split; [done|]. split; vm_compute; reflexivity.
  - vm_compute; reflexivity.
Defined.

Lemma X2_witness :
  (∀ k l, node Example.fork_built k = Some l →
     (next_loc (Example.monitor "/data" 2) ≤ l
      < next_loc Example.fork_built)%nat)
  ∧ ∀ k1 k2 l, node Example.fork_built k1 = Some l →
      node Example.fork_built k2 = Some l → k1 = k2.
Proof.
  apply (X2_dictionary_holds_fresh_objects Example.fnmatch_star
           (λ _ _, Example.fork) Example.probe_dir Example.w_fork
           (Example.monitor "/data" 2) Example.fork_built).
  - split; [done|]. split; vm_compute; reflexivity.
  - vm_compute; reflexivity.
Defined.

Lemma X3_witness :
  (∀ l, (l < next_loc Example.fork_built)%nat →
     heap Cycle.fork_rebuilt l = heap Example.fork_built l)
  ∧ max_concurrent_jobs Cycle.fork_rebuilt = max_concurrent_jobs Example.fork_built
  ∧ module_dict Cycle.fork_rebuilt = module_dict Example.fork_built
  ∧ cwd Cycle.fork_rebuilt = cwd Example.fork_built.
Proof.
  apply (X3_objects_of_earlier_cycles_are_not_written Example.fnmatch_star
           (λ _ _, Example.two) Example.probe_dir Example.w_two
           Example.fork_built Cycle.fork_rebuilt).
  - split; [done|]. split; vm_compute; reflexivity.
  - vm_compute; reflexivity.
Defined.

Lemma X4_witness :
  let paths := "/data" :: discovery "/data" Example.two in
  (∀ path, path ∈ paths →
     ∃ l k, sim_inst_parent_dict Cycle.fork_rebuilt !! path = Some l
            ∧ node Cycle.fork_rebuilt k = Some l)
  ∧ (∀ path, path ∉ paths →
       sim_inst_parent_dict Cycle.fork_rebuilt !! path
       = sim_inst_parent_dict Example.fork_built !! path).
Proof.
  apply (X4_path_dictionary_only_grows Example.fnmatch_star
           (λ _ _, Example.two) Example.probe_dir Example.w_two
           Example.fork_built Cycle.fork_rebuilt).
  - split; [done|]. split; vm_compute; reflexivity.
  - vm_compute; reflexivity.
Defined.

Lemma X5_witness :
  node Example.fork_built 0 = Some (sim_tree Example.fork_built)
  ∧ ∀ k l, node Example.fork_built k = Some l → k ≠ 0 →
      ∃ p, 0 ≤ SimulationTask.parent_id (heap Example.fork_built l) < k
           ∧ node Example.fork_built
               (SimulationTask.parent_id (heap Example.fork_built l)) = Some p
           ∧ SimulationTask.level (heap Example.fork_built l)
             = SimulationTask.level (heap Example.fork_built p) + 1.
Proof.
  apply (X5_parent_links_after_a_build Example.fnmatch_star
           (λ _ _, Example.fork) Example.probe_dir Example.w_fork
           (Example.monitor "/data" 2) Example.fork_built).
  - split; [done|]. split; vm_compute; reflexivity.
  - vm_compute; reflexivity.
Defined.

Section Counting.
Context {World : Type}.
Variable sim_get_status : World → task → Status * Z * Z.

Lemma probe_heap w l s l' :
  heap (probe sim_get_status w l s) l'
  = if decide (l' = l) then polled sim_get_status w (heap s l) else heap s l'.
Proof.
  unfold probe, polled.
  destruct (sim_get_status w (heap s l)) as [[st p] tg].
  cbn [heap modify set_heap]. unfold heap_upd. by case_decide; subst.
Qed.

Lemma probe_node w l s k : node (probe sim_get_status w l s) k = node s k.
Proof. apply probed_node, probe_probed. Qed.

Lemma poll_nodes_count w (d : dict) : ∀ vec cj s,
  (∀ k l, (k, l) ∈ d → node s k = Some l) → NoDup d.*2 →
  ∃ s',
    for_each (poll_node sim_get_status w) d.*1 (vec, cj, s)
    = Ok (vec ++ ((λ kl, SimulationTask.niceness (heap s kl.2)) <$> d),
          cj + count_running s' d, s')
    ∧ probed s s'
    ∧ (∀ l, l ∈ d.*2 → heap s' l = polled sim_get_status w (heap s l))
    ∧ (∀ l, l ∉ d.*2 → heap s' l = heap s l).
Proof.
  induction d as [|[k l] d IH]; intros vec cj s Hd Hnd.
  { exists s. cbn. rewrite app_nil_r, Z.add_0_r. split; [done|].
    split; [apply probed_refl|]. split; [|done].
    by intros l ?%elem_of_nil. }
  rewrite fmap_cons in Hnd. apply NoDup_cons in Hnd as [Hl Hnd].
  rewrite !fmap_cons. cbn [fst snd].
  change (for_each ?f (k :: ?ks) ?x) with (f k x ≫= for_each f ks).
  set (s1 := probe sim_get_status w l s).
  assert (poll_node sim_get_status w k (vec, cj, s)
          = Ok (vec ++ [SimulationTask.niceness (heap s l)],
                cj + (if occupies (heap s1 l) then 1 else 0), s1)) as ->.
  { pose proof (Hd k l ltac:(left)) as Hkl. unfold node in Hkl.
    unfold poll_node, inst_at. rewrite Hkl.
    cbn [from_option mbind result_bind]. fold s1. unfold occupies.
    destruct (bool_decide _ && bool_decide _); [done|].
    by rewrite Z.add_0_r. }
  cbn [mbind result_bind].
  destruct (IH (vec ++ [SimulationTask.niceness (heap s l)])
              (cj + if occupies (heap s1 l) then 1 else 0) s1)
    as (s' & Hrun & Hp & Hin & Hout); [|done|].
  { intros k' l' Hin. unfold s1. rewrite probe_node. apply Hd. by right. }
  assert (Hs1 : ∀ l', l' ≠ l → heap s1 l' = heap s l').
  { intros l' Hne. unfold s1. rewrite probe_heap. by case_decide. }
  assert (Hs1l : heap s1 l = polled sim_get_status w (heap s l)).
  { unfold s1. rewrite probe_heap. by case_decide. }
  assert (Hl' : heap s' l = heap s1 l) by by apply Hout.
  exists s'. split; [|split; [|split]].
  - assert (Hnice : (λ kl : Z * loc, SimulationTask.niceness (heap s1 kl.2)) <$> d
                     = (λ kl, SimulationTask.niceness (heap s kl.2)) <$> d).
    { apply list_fmap_ext. intros i [k' l'] Hi. cbn. rewrite Hs1; [done|].
      intros ->. apply Hl. apply list_elem_of_fmap. exists (k', l).
      split; [done|]. by eapply list_elem_of_lookup_2. }
    assert (Hcount : count_running s' ((k, l) :: d)
                     = (if occupies (heap s1 l) then 1 else 0)
                       + count_running s' d).
    { unfold count_running. rewrite filter_cons. cbn [snd]. rewrite Hl'.
      destruct (occupies (heap s1 l)); [|by rewrite decide_False by done].
      rewrite decide_True by done. cbn [length]. lia. }
    rewrite Hcount, Z.add_assoc, <-Hnice.
    rewrite <-(app_assoc vec [_]) in Hrun. cbn [app] in Hrun.
    exact Hrun.
  - eapply probed_trans; [apply (probe_probed sim_get_status w l s)|exact Hp].
  - intros l0 [->|Hl0]%elem_of_cons; [by rewrite Hl'|].
    rewrite (Hin _ Hl0), Hs1; [done|]. by intros ->.
  - intros l0 [Hne Hl0]%not_elem_of_cons.
    by rewrite (Hout _ Hl0), Hs1.
Qed.

Lemma linked_entries s k l :
  linked s → (k, l) ∈ sim_inst_dict s → node s k = Some l.
Proof.
  intros Hl Hin. unfold node.
  pose proof (NoDup_seqZ 0 (inst_id s + 1)) as Hnd.
  rewrite <-(linked_keys _ Hl) in Hnd. unfold dict_keys in Hnd.
  revert Hin Hnd. generalize (sim_inst_dict s). clear.
  induction d as [|[k' l'] d IH]; [by intros ?%elem_of_nil|].
  rewrite fmap_cons. intros [[= <- <-]|Hin]%elem_of_cons [Hk Hnd]%NoDup_cons;
    cbn [dict_get].
  - by rewrite decide_True.
  - rewrite decide_False; [by apply IH|].
    intros ->. apply Hk. apply list_elem_of_fmap. by exists (k, l).
Qed.

Lemma linked_objects s : linked s → NoDup (sim_inst_dict s).*2.
Proof.
  intros Hl.
  pose proof (NoDup_seqZ 0 (inst_id s + 1)) as Hnd.
  rewrite <-(linked_keys _ Hl) in Hnd. unfold dict_keys in Hnd.
  assert (∀ k l, (k, l) ∈ sim_inst_dict s → SimulationTask.id (heap s l) = k)
    as Hid.
  { intros k l Hin. apply (linked_id _ Hl). by apply linked_entries. }
  revert Hnd Hid. generalize (sim_inst_dict s).
  induction d as [|[k l] d IH]; [constructor|].
  rewrite !fmap_cons. intros [Hk Hnd]%NoDup_cons Hid. apply NoDup_cons.
  split.
  - intros ([k' l'] & Heq & Hin)%list_elem_of_fmap. cbn in Heq. subst l'.
    apply Hk. apply list_elem_of_fmap. exists (k', l). split; [|done].
    cbn. rewrite <-(Hid k l) by left. apply Hid. by right.
  - apply IH; [done|]. intros k' l' Hin. apply Hid. by right.
Qed.

(** X6: the counting loop of the scheduler never fails; it probes every
    node of the dictionary once, the root included, collects the
    niceness of the nodes in dictionary order, and counts the nodes that
    after the probe are running and have no restart candidate. *)
Theorem X6_counting_loop_counts_running_leaves w s :
  linked s →
  ∃ s',
    poll_all sim_get_status w s
    = Ok ((λ kl, SimulationTask.niceness (heap s kl.2)) <$> sim_inst_dict s,
          count_running s' (sim_inst_dict s), s')
    ∧ sim_inst_dict s' = sim_inst_dict s
    ∧ (∀ k l, node s k = Some l →
         heap s' l = polled sim_get_status w (heap s l))
    ∧ (∀ l, (∀ k, node s k ≠ Some l) → heap s' l = heap s l).
Proof.
  intros Hl.
  destruct (poll_nodes_count w (sim_inst_dict s) [] 0 s)
    as (s' & Hrun & Hp & Hin & Hout).
  { intros k l. by apply linked_entries. }
  { by apply linked_objects. }
  exists s'. split; [exact Hrun|].
  split; [by destruct Hp as (h & -> & _)|]. split.
  - intros k l Hk. apply Hin. apply list_elem_of_fmap. exists (k, l).
    split; [done|]. by apply dict_get_Some_elem.
  - intros l Hno. apply Hout.
    intros ([k l'] & Heq & Hin')%list_elem_of_fmap. cbn in Heq. subst l'.
    apply (Hno k). by apply linked_entries.
Qed.

End Counting.

Lemma X6_witness :
  ∃ s',
    poll_all Example.probe_dir Example.w_fork Example.fork_built
    = Ok ((λ kl, SimulationTask.niceness (heap Example.fork_built kl.2))
            <$> sim_inst_dict Example.fork_built,
          count_running s' (sim_inst_dict Example.fork_built), s')
    ∧ sim_inst_dict s' = sim_inst_dict Example.fork_built
    ∧ (∀ k l, node Example.fork_built k = Some l →
         heap s' l
         = polled Example.probe_dir Example.w_fork (heap Example.fork_built l))
    ∧ (∀ l, (∀ k, node Example.fork_built k ≠ Some l) →
         heap s' l = heap Example.fork_built l).
Proof.
  apply (X6_counting_loop_counts_running_leaves Example.probe_dir
           Example.w_fork Example.fork_built).
  apply wf_linked.
  apply (build_simulation_tree_wf Example.fnmatch_star (λ _ _, Example.fork)
           Example.probe_dir Example.w_fork (Example.monitor "/data" 2)).
  - split; [done|]. split; vm_compute; reflexivity.
  - vm_compute; reflexivity.
Defined.

Section Stall.
Context {World : Type}.
Variable fnmatch : string → string → bool.
Variable listdir : World → string → list entry.
Variable sim_get_status : World → task → Status * Z * Z.
Variables sim_start sim_restart sim_kill sim_backup_checkpoint
  : World → task → World.

Local Abbreviation dispatch :=
  (dispatch fnmatch listdir sim_get_status sim_start sim_restart sim_kill
     sim_backup_checkpoint).

(** X7: when the dispatch loop meets a stalled simulation it kills it
    and rebuilds the tree, in the world the kill leaves behind; the
    counter stays as it is, and from then on the dictionary holds none of
    the objects that existed before - in particular none of the nodes the
    loop still has in its schedule list. *)
Theorem X7_stalled_node_is_killed_and_the_tree_replaced sim st st' :
  let s := probe sim_get_status (world st) sim (mon st) in
  let w := sim_kill (world st) (heap s sim) in
  SimulationTask.id (heap (mon st) sim) ≠ 0 →
  SimulationTask.status (heap s sim) = STATUS_STALL →
  scannable fnmatch listdir w s →
  dispatch sim st = Ok st' →
  issued st' = issued st ++ [DoKill sim]
  ∧ world st' = w
  ∧ concurrent_jobs st' = concurrent_jobs st
  ∧ build_simulation_tree fnmatch listdir sim_get_status w s = Ok (mon st')
  ∧ ∀ k l, node (mon st') k = Some l → (next_loc (mon st) ≤ l)%nat.
Proof.
  intros s w Hid Hst Hscan. unfold_dispatch.
  rewrite bool_decide_false by done. fold s. rewrite Hst. fold w.
  intros (s1 & Hb & [= <-])%bind_Ok. cbn.
  split; [done|]. split; [done|]. split; [done|]. split; [done|].
  destruct (build_simulation_tree_scanned fnmatch listdir sim_get_status
              _ _ _ Hscan Hb) as (s2 & Hsc & Hwf2 & Hsh & _).
  assert (next_loc s = next_loc (mon st)) as Hn.
  { unfold s, probe. by destruct (sim_get_status _ _) as [[? ?] ?]. }
  intros k l. rewrite (same_shape_node _ _ _ Hsh). intros Hl.
  destruct (scanned_new fnmatch listdir sim_get_status _ _ _ _ Hsc _ _ Hl)
    as [[_ ->]%scan_start_node|Hge]; [lia|].
  simpl in Hge. lia.
Qed.

End Stall.

Lemma X7_witness :
  let s := probe Example.probe_dir (world Stalled.start) 2%nat
             (mon Stalled.start) in
  let w := Example.no_effect (world Stalled.start) (heap s 2%nat) in
  issued Stalled.after = issued Stalled.start ++ [DoKill 2%nat]
  ∧ world Stalled.after = w
  ∧ concurrent_jobs Stalled.after = concurrent_jobs Stalled.start
  ∧ build_simulation_tree Example.fnmatch_star (λ _ _, Stalled.listing)
      Example.probe_dir w s = Ok (mon Stalled.after)
  ∧ ∀ k l, node (mon Stalled.after) k = Some l →
           (next_loc (mon Stalled.start) ≤ l)%nat.
Proof.
  apply (X7_stalled_node_is_killed_and_the_tree_replaced Example.fnmatch_star
           (λ _ _, Stalled.listing) Example.probe_dir Example.no_effect
           Example.no_effect Example.no_effect Example.no_effect
           2%nat Stalled.start Stalled.after).
  - vm_compute. done.
  - vm_compute; reflexivity.
  - split; [done|]. split; vm_compute; reflexivity.
  - vm_compute; reflexivity.
Defined.


Section InsertionSort.
Variable v : list Z.











End InsertionSort.

Section ShortSchedules.
Context {World : Type}.
Variable fnmatch : string → string → bool.
Variable listdir : World → string → list entry.
Variable sim_get_status : World → task → Status * Z * Z.


End ShortSchedules.


Section Completion.
Context {World : Type}.
Variable fnmatch : string → string → bool.
Variable listdir : World → string → list entry.
Variable sim_get_status : World → task → Status * Z * Z.

Lemma register_child_Ok base fullpath l s p :
  sim_inst_parent_dict s !! base = Some p → fullpath ≠ base →
  ∃ s', register_child base fullpath l s = Ok s'.
Proof.
  intros Hp Hne. unfold register_child, parent_at. simpl.
  rewrite Hp. simpl. rewrite lookup_insert_ne by done. rewrite Hp. simpl.
  by eexists.
Qed.

Lemma mirror_status_Ok w l s q :
  node s (SimulationTask.parent_id (heap s l)) = Some q → q ≠ l →
  ∃ s', mirror_status sim_get_status w l s = Ok s'.
Proof.
  intros Hq Hql. unfold mirror_status, inst_at, probe, node in *.
  destruct (sim_get_status w (heap s l)) as [[st tt] tm] eqn:E. simpl.
  heap_simpl. simpl. rewrite Hq. simpl. by eexists.
Qed.

Lemma nominate_Ok err l s q :
  node s (SimulationTask.parent_id (heap s l)) = Some q → q ≠ l →
  ∃ s', nominate err l s = Ok s'.
Proof.
  intros Hq Hql. unfold nominate, inst_at, node in *. rewrite Hq. simpl.
  destruct (_ && _) eqn:E; [|by eexists].
  simpl. heap_simpl. rewrite Hq. simpl. by eexists.
Qed.

Lemma visit_Ok w pattern base filename code_name nice err sub s :
  wf_tree s → registered s base → valid_name filename = true →
  code_name ∈ (module_dict s).*1 →
  ∃ s', visit fnmatch sim_get_status w pattern base
          (Dir filename (ConfCode code_name) nice err sub) s = Ok s'.
Proof.
  intros Hwf (p & kp & Hp & Hkp) Hname Hcode.
  unfold visit. destruct (fnmatch filename pattern); [|by eexists].
  assert (Hfresh : inst_id s + 1 ∉ dict_keys (sim_inst_dict s)).
  { rewrite (wf_keys _ Hwf), elem_of_seqZ. lia. }
  assert (Hlp : p ≠ next_loc s).
  { pose proof (wf_fresh _ Hwf _ _ Hkp). lia. }
  assert (Hidp : SimulationTask.id (heap s p) = kp) by by apply (wf_id _ Hwf).
  assert (Hkpne : kp ≠ inst_id s + 1).
  { intros ->. apply Hfresh. by eapply dict_get_Some_key. }
  unfold make_instance. mon_simpl. rewrite bool_decide_true by done.
  mon_simpl. unfold new_instance. mon_simpl.
  rewrite dict_set_fresh by done.
  match goal with
  | |- ∃ s', register_child ?b ?f ?l ?s0 ≫= _ = _ =>
      destruct (register_child_Ok b f l s0 p) as [s1 H1];
        [done|by apply join_ne|]
  end.
  rewrite H1. mon_simpl.
  apply (register_child_spec _ _ _ _ _ p) in H1
    as (h1 & -> & H1l & H1p & H1f); mon_simpl;
    [|done|by apply join_ne|done].
  revert H1l H1p. heap_simpl. intros H1l H1p.
  assert (Hq : ∀ h, node (mkSiMon (module_dict s)
                   (sim_inst_dict s ++ [(inst_id s + 1, next_loc s)])
                   (<[join base filename:=next_loc s]> (sim_inst_parent_dict s))
                   (sim_tree s) (cwd s) (inst_id s + 1) (max_concurrent_jobs s)
                   h (S (next_loc s))) kp = Some p).
  { intros h. unfold node. mon_simpl. by rewrite dict_get_snoc_ne. }
  match goal with
  | |- ∃ s', mirror_status _ ?w ?l ?s0 ≫= _ = _ =>
      destruct (mirror_status_Ok w l s0 p) as [s2 H2]; mon_simpl;
        [rewrite H1l; simpl; rewrite Hidp; apply Hq|done|]
  end.
  rewrite H2. mon_simpl.
  eapply (mirror_status_spec _ _ _ _ _ p) in H2; mon_simpl;
    [|rewrite H1l; simpl; rewrite Hidp; apply Hq|done].
  destruct H2 as (h2 & -> & H2l & H2p & H2f).
  eapply (nominate_Ok _ _ _ p); mon_simpl; [|done].
  rewrite H2l, H1l; simpl; rewrite Hidp; apply Hq.
Qed.

Lemma recognized_Dir codes n conf nice err sub :
  recognized codes (Dir n conf nice err sub) = true →
  (∃ code_name, conf = ConfCode code_name ∧ code_name ∈ codes)
  ∧ Forall (λ e, recognized codes e = true) sub.
Proof.
  simpl. intros [Hc Hs]%andb_true_iff. split.
  - destruct conf; try done. apply bool_decide_eq_true in Hc. eauto.
  - apply Forall_forall. intros e He. rewrite forallb_forall in Hs.
    apply Hs. by apply list_elem_of_In.
Qed.

Lemma visit_all_Ok w pattern base es : ∀ s,
  (∀ n, fnmatch n pattern = true) →
  wf_tree s → registered s base →
  Forall (λ e, valid_entry e = true) es →
  Forall (λ e, recognized (module_dict s).*1 e = true) es →
  ∃ s', for_each (visit fnmatch sim_get_status w pattern base) es s = Ok s'.
Proof.
  induction es as [|e es IH]; intros s Hmatch Hwf Hbase Hvalid Hrec;
    [by eexists|].
  apply Forall_cons in Hvalid as [He Hes].
  apply Forall_cons in Hrec as [Hre Hres].
  assert (∃ s1, visit fnmatch sim_get_status w pattern base e s = Ok s1)
    as [s1 H1].
  { destruct e as [n|n conf nice err sub]; [by eexists|].
    apply recognized_Dir in Hre as [(c & -> & Hc) _].
    apply valid_entry_Dir in He as [Hn _]. by apply visit_Ok. }
  cbn [for_each]. rewrite H1. cbn [mbind result_bind].
  destruct (visit_wf fnmatch listdir sim_get_status _ _ _ _ _ _
              Hmatch Hwf Hbase He H1) as (Hwf1 & Hm1 & _).
  apply IH; [done..|by apply Hm1|done|].
  by destruct (visit_config fnmatch sim_get_status _ _ _ _ _ _ H1)
    as (_ & -> & _).
Qed.

Lemma traverse_Ok w pattern base files s :
  (∀ n, fnmatch n pattern = true) →
  wf_tree s → registered s base →
  Forall (λ e, valid_entry e = true) files →
  Forall (λ e, recognized (module_dict s).*1 e = true) files →
  ∃ s', traverse_simulation_dir_tree fnmatch sim_get_status w pattern base
          files s = Ok s'.
Proof.
  intros Hmatch Hwf Hbase Hvalid Hrec. unfold traverse_simulation_dir_tree.
  apply visit_all_Ok; try done; by rewrite sorted_perm.
Qed.

Lemma traverse_modules w pattern base files s s' :
  traverse_simulation_dir_tree fnmatch sim_get_status w pattern base files s
    = Ok s' →
  module_dict s' = module_dict s.
Proof.
  unfold traverse_simulation_dir_tree. intros H.
  eapply (for_each_preserves same_config) in H;
    [by destruct H as (_ & -> & _)|apply same_config_refl
    |apply same_config_trans|].
  intros ???. apply visit_config.
Qed.

Lemma walk_all_Ok w pattern top l : ∀ s,
  (∀ n, fnmatch n pattern = true) →
  Forall (λ e, ∀ top s,
    wf_tree s → valid_entry e = true →
    recognized (module_dict s).*1 e = true → dir_registered s top e →
    ∃ s', walk_entry fnmatch sim_get_status w pattern top e s = Ok s') l →
  Forall (λ e, valid_entry e = true) l →
  Forall (λ e, recognized (module_dict s).*1 e = true) l →
  wf_tree s → (∀ e, e ∈ l → dir_registered s top e) →
  ∃ s', for_each (walk_entry fnmatch sim_get_status w pattern top) l s = Ok s'.
Proof.
  induction l as [|e l IH]; intros s Hmatch Hok Hvalid Hrec Hwf Hreg;
    [by eexists|].
  apply Forall_cons in Hvalid as [Hve Hvl].
  apply Forall_cons in Hrec as [Hre Hrl].
  apply Forall_cons in Hok as [He Hl].
  assert (dir_registered s top e) as Hde by (apply Hreg; left).
  destruct (He top s Hwf Hve Hre Hde) as [s1 H1].
  cbn [for_each]. rewrite H1. cbn [mbind result_bind].
  destruct (walk_entry_wf fnmatch listdir sim_get_status w pattern e Hmatch
              top s s1 Hwf Hve Hde H1) as [Hwf1 Hm1].
  apply IH; try done.
  - by destruct (walk_entry_config fnmatch sim_get_status _ _ _ _ _ _ H1)
      as (_ & -> & _).
  - intros e' He'. specialize (Hreg e' (list_elem_of_further _ _ _ He')).
    destruct e'; simpl in *; auto.
Qed.

Lemma walk_entry_Ok w pattern e :
  (∀ n, fnmatch n pattern = true) →
  ∀ top s,
    wf_tree s → valid_entry e = true →
    recognized (module_dict s).*1 e = true → dir_registered s top e →
    ∃ s', walk_entry fnmatch sim_get_status w pattern top e s = Ok s'.
Proof.
  intros Hmatch. induction e as [n|n conf nice err sub IH] using entry_tree_ind;
    intros top s Hwf Hvalid Hrec Hreg; [by eexists|].
  rewrite walk_entry_Dir.
  apply valid_entry_Dir in Hvalid as [_ Hsub].
  apply recognized_Dir in Hrec as [_ Hrsub]. simpl in Hreg.
  destruct (traverse_Ok w pattern (join top n) sub s) as [s1 H1]; try done.
  rewrite H1. cbn [mbind result_bind].
  pose proof (traverse_modules _ _ _ _ _ _ H1) as Hmod.
  apply (traverse_wf fnmatch listdir) in H1 as (Hwf1 & Hm1 & Hr1); [|done..].
  apply walk_all_Ok; try done; [by rewrite Hmod|].
  intros [|n' c' ni' er' sb'] Hin; simpl; eauto.
Qed.

Lemma build_scan_Ok w s :
  scannable fnmatch listdir w s →
  forallb (recognized (module_dict s).*1) (listdir w (cwd s)) = true →
  ∃ s', build_scan fnmatch listdir sim_get_status w s = Ok s'.
Proof.
  intros (Hmatch & Hstrip & Hvalid) Hrec. unfold build_scan.
  destruct (scan_start_wf _ Hstrip) as [Hwf0 Hreg0].
  assert (Forall (λ e, valid_entry e = true) (listdir w (cwd s))) as Hval.
  { apply Forall_forall. intros e He. rewrite forallb_forall in Hvalid.
    apply Hvalid. by apply list_elem_of_In. }
  assert (Forall (λ e, recognized (module_dict s).*1 e = true)
            (listdir w (cwd s))) as Hr.
  { apply Forall_forall. intros e He. rewrite forallb_forall in Hrec.
    apply Hrec. by apply list_elem_of_In. }
  unfold scan_start in *.
  mon_simpl. unfold os_path_walk. mon_simpl.
  match goal with
  | |- ∃ s', traverse_simulation_dir_tree _ _ _ _ _ _ ?s0 ≫= _ = _ =>
      destruct (traverse_Ok w "*" (cwd s) (listdir w (cwd s)) s0)
        as [s1 H1]; try done
  end.
  rewrite H1. cbn [mbind result_bind].
  pose proof (traverse_modules _ _ _ _ _ _ H1) as Hmod. simpl in Hmod.
  apply (traverse_wf fnmatch listdir) in H1 as (Hwf1 & Hm1 & Hr1); [|done..].
  apply (walk_all_Ok w "*"); try done.
  - apply Forall_forall. intros e _. by apply walk_entry_Ok.
  - by rewrite Hmod.
  - intros [|n' c' ni' er' sb'] Hin; simpl; eauto.
Qed.

(** *** The converse: a scan that returns has instantiated every
    directory *)

Lemma visit_recognized w pattern base e s s' :
  (∀ n, fnmatch n pattern = true) →
  visit fnmatch sim_get_status w pattern base e s = Ok s' →
  match e with
  | File _ => True
  | Dir _ conf _ _ _ =>
      ∃ code_name, conf = ConfCode code_name
                   ∧ code_name ∈ (module_dict s).*1
  end.
Proof.
  intros Hmatch. destruct e as [n|n conf nice err sub]; [done|].
  simpl. rewrite Hmatch. intros (oi & Hmk & H)%bind_Ok.
  destruct oi as [o|]; [|done].
  unfold make_instance in Hmk. destruct conf; try done.
  simpl in Hmk. case_bool_decide; [|done]. eauto.
Qed.

Lemma visit_all_recognized w pattern base es : ∀ s s',
  (∀ n, fnmatch n pattern = true) →
  for_each (visit fnmatch sim_get_status w pattern base) es s = Ok s' →
  Forall (λ e, match e with
               | File _ => True
               | Dir _ conf _ _ _ =>
                   ∃ code_name, conf = ConfCode code_name
                                ∧ code_name ∈ (module_dict s).*1
               end) es.
Proof.
  induction es as [|e es IH]; intros s s' Hmatch H; [constructor|].
  cbn [for_each] in H. apply bind_Ok in H as (s1 & H1 & H).
  constructor; [by eapply visit_recognized|].
  destruct (visit_config fnmatch sim_get_status _ _ _ _ _ _ H1)
    as (_ & <- & _).
  by eapply IH.
Qed.

Lemma walk_all_recognized w pattern top l : ∀ s s',
  Forall (λ e, ∀ top s s',
    walk_entry fnmatch sim_get_status w pattern top e s = Ok s' →
    match e with
    | File _ => True
    | Dir _ _ _ _ sub => Forall (λ e, recognized (module_dict s).*1 e = true) sub
    end) l →
  for_each (walk_entry fnmatch sim_get_status w pattern top) l s = Ok s' →
  Forall (λ e, match e with
               | File _ => True
               | Dir _ _ _ _ sub =>
                   Forall (λ e, recognized (module_dict s).*1 e = true) sub
               end) l.
Proof.
  induction l as [|e l IH]; intros s s' Hok H; [constructor|].
  cbn [for_each] in H. apply bind_Ok in H as (s1 & H1 & H).
  apply Forall_cons in Hok as [He Hl].
  constructor; [by eapply He|].
  destruct (walk_entry_config fnmatch sim_get_status _ _ _ _ _ _ H1)
    as (_ & <- & _).
  by eapply IH.
Qed.

Lemma recognized_intro codes l :
  Forall (λ e, match e with
               | File _ => True
               | Dir _ conf _ _ _ =>
                   ∃ code_name, conf = ConfCode code_name ∧ code_name ∈ codes
               end) l →
  Forall (λ e, match e with
               | File _ => True
               | Dir _ _ _ _ sub => Forall (λ e, recognized codes e = true) sub
               end) l →
  Forall (λ e, recognized codes e = true) l.
Proof.
  intros H1 H2. induction l as [|e l IH]; [constructor|].
  apply Forall_cons in H1 as [Hc H1]. apply Forall_cons in H2 as [Hs H2].
  constructor; [|by apply IH].
  destruct e as [n|n conf nice err sub]; [done|].
  destruct Hc as (c & -> & Hc). simpl.
  rewrite bool_decide_true by done. simpl.
  apply forallb_forall. intros e He. rewrite Forall_forall in Hs.
  apply Hs. by apply list_elem_of_In.
Qed.

Lemma walk_entry_recognized w pattern e :
  (∀ n, fnmatch n pattern = true) →
  ∀ top s s',
    walk_entry fnmatch sim_get_status w pattern top e s = Ok s' →
    match e with
    | File _ => True
    | Dir _ _ _ _ sub => Forall (λ e, recognized (module_dict s).*1 e = true) sub
    end.
Proof.
  intros Hmatch. induction e as [n|n conf nice err sub IH] using entry_tree_ind;
    intros top s s' H; [done|].
  rewrite walk_entry_Dir in H. apply bind_Ok in H as (s1 & H1 & H).
  pose proof (traverse_modules _ _ _ _ _ _ H1) as Hmod.
  unfold traverse_simulation_dir_tree in H1.
  apply visit_all_recognized in H1; [|done].
  rewrite sorted_perm in H1.
  apply walk_all_recognized in H; [|done]. rewrite Hmod in H.
  by apply recognized_intro.
Qed.

Lemma build_scan_recognized w s s' :
  (∀ n, fnmatch n "*" = true) →
  build_scan fnmatch listdir sim_get_status w s = Ok s' →
  forallb (recognized (module_dict s).*1) (listdir w (cwd s)) = true.
Proof.
  intros Hmatch. unfold build_scan, os_path_walk. mon_simpl.
  intros (s1 & H1 & H)%bind_Ok.
  pose proof (traverse_modules _ _ _ _ _ _ H1) as Hmod. simpl in Hmod.
  unfold traverse_simulation_dir_tree in H1.
  apply visit_all_recognized in H1; [|done].
  rewrite sorted_perm in H1. simpl in H1.
  apply walk_all_recognized in H.
  - rewrite Hmod in H. apply forallb_forall. intros e He.
    pose proof (recognized_intro _ _ H1 H) as Hall.
    rewrite Forall_forall in Hall. apply Hall. by apply list_elem_of_In.
  - apply Forall_forall. intros e _. by apply walk_entry_recognized.
Qed.

Lemma build_simulation_tree_Ok w s :
  scannable fnmatch listdir w s →
  forallb (recognized (module_dict s).*1) (listdir w (cwd s)) = true →
  ∃ s', build_simulation_tree fnmatch listdir sim_get_status w s = Ok s'.
Proof.
  intros Hscan Hrec. destruct (build_scan_Ok w s Hscan Hrec) as [s1 H1].
  unfold build_simulation_tree. rewrite H1. cbn [mbind result_bind].
  pose proof (scannable_wf fnmatch listdir sim_get_status _ _ _ Hscan H1)
    as Hwf.
  destruct (sync_loop_refines (parent_of s1) 30 0 s1 (status_of s1) Hwf)
    as (s2 & Heq & _); [done..|].
  unfold sync_status_tree. rewrite Heq. by eexists.
Qed.

(** X9: a build returns exactly when every directory below the root
    directory has a SiMon.conf that names a registered simulation code;
    then it raises no exception, and otherwise it does not return a
    tree. *)
Theorem X9_a_build_returns_iff_every_directory_is_recognized w s :
  scannable fnmatch listdir w s →
  (∃ s', build_simulation_tree fnmatch listdir sim_get_status w s = Ok s')
  ↔ forallb (recognized (module_dict s).*1) (listdir w (cwd s)) = true.
Proof.
  intros Hscan. split.
  - intros [s' Hb]. unfold build_simulation_tree in Hb.
    apply bind_Ok in Hb as (s1 & Hb & _).
    destruct Hscan as (Hmatch & _). by eapply build_scan_recognized.
  - by apply build_simulation_tree_Ok.
Qed.

End Completion.

Lemma X9_witness :
  ∃ s', build_simulation_tree Example.fnmatch_star (λ _ _, Example.fork)
          Example.probe_dir Example.w_fork (Example.monitor "/data" 2)
        = Ok s'.
Proof.
  apply (X9_a_build_returns_iff_every_directory_is_recognized
           Example.fnmatch_star (λ _ _, Example.fork) Example.probe_dir
           Example.w_fork (Example.monitor "/data" 2)).
  - split; [done|]. split; vm_compute; reflexivity.
  - vm_compute; reflexivity.
Defined.

Section QuietPass.
Context {World : Type}.
Variable fnmatch : string → string → bool.
Variable listdir : World → string → list entry.
Variable sim_get_status : World → task → Status * Z * Z.
Variables sim_start sim_restart sim_kill sim_backup_checkpoint
  : World → task → World.
Variable argsort : list Z → list nat.

Local Abbreviation dispatch :=
  (dispatch fnmatch listdir sim_get_status sim_start sim_restart sim_kill
     sim_backup_checkpoint).
Local Abbreviation dispatch_all :=
  (dispatch_all fnmatch listdir sim_get_status sim_start sim_restart sim_kill
     sim_backup_checkpoint).

Hypothesis never_stalled :
  ∀ w o, (sim_get_status w o).1.1 ≠ STATUS_STALL.






End QuietPass.

